(** * The URL field widget and the minimal DOM helpers

  A shallow embedding of
    - [addons/web/static/src/views/fields/url/url_field.js]
    - [addons/web/static/src/legacy/js/core/minimal_dom.js]
  together with the properties the specification states about them. *)

From Stdlib Require Import ZArith Ascii String List Bool Lia DecimalString.
From stdpp Require Import base option list.
Import ListNotations.

Set Warnings "-register-all".
Local Open Scope string_scope.

(* ===================================================================== *)
(** * The fragment of ECMAScript the two files rely on                    *)
(* ===================================================================== *)

Module JS.

(** [Number.MAX_SAFE_INTEGER], 2^53 - 1. *)
Definition MAX_SAFE_INTEGER : Z := 9007199254740991.

Definition is_safe (z : Z) : bool := (Z.abs z <=? MAX_SAFE_INTEGER)%Z.

(** Numbers.  The doubles represented are the three special values, the
    negative zero and the safe integers, those of magnitude up to
    2^53 - 1: each of them is a double, and Number::toString prints it
    in plain decimal digits.  Doubles with a fraction or of a larger
    magnitude, which Number::toString may print with an exponent, are
    not represented.  [Int 0 _] is [+0]. *)
Inductive number : Type :=
| NaN
| Infinity (negative : bool)
| NegZero
| Int (z : Z) (safe : is_safe z = true).

(** The primitive values a field can carry in [props.value]. *)
Inductive value : Type :=
| VUndefined
| VNull
| VBoolean (b : bool)
| VNumber (n : number)
| VBigInt (z : Z)
| VString (s : string)
| VSymbol (description : string).

Inductive error : Type :=
| TypeError (message : string).

(** A completion record: an evaluation either returns or throws. *)
Inductive completion (A : Type) : Type :=
| Normal (a : A)
| Throw (e : error).
Arguments Normal {A} a.
Arguments Throw {A} e.

Definition is_normal {A} (c : completion A) : bool :=
  match c with Normal _ => true | Throw _ => false end.

Definition string_is_empty (s : string) : bool :=
  match s with EmptyString => true | String _ _ => false end.

(** ToBoolean (ECMA-262, 7.1.2). *)
Definition ToBoolean (v : value) : bool :=
  match v with
  | VUndefined | VNull => false
  | VBoolean b => b
  | VNumber NaN | VNumber NegZero => false
  | VNumber (Int z _) => negb (Z.eqb z 0)
  | VNumber (Infinity _) => true
  | VBigInt z => negb (Z.eqb z 0)
  | VString s => negb (string_is_empty s)
  | VSymbol _ => true
  end.

Definition decimal (z : Z) : string := NilZero.string_of_int (Z.to_int z).

(** Number::toString, radix 10, on the represented numbers: a safe
    integer has at most 16 digits and is printed in full. *)
Definition number_to_string (n : number) : string :=
  match n with
  | NaN => "NaN"
  | Infinity false => "Infinity"
  | Infinity true => "-Infinity"
  | NegZero => "0"
  | Int z _ => decimal z
  end.

(** ToString (ECMA-262, 7.1.17): a Symbol cannot be converted. *)
Definition ToString (v : value) : completion string :=
  match v with
  | VUndefined => Normal "undefined"
  | VNull => Normal "null"
  | VBoolean true => Normal "true"
  | VBoolean false => Normal "false"
  | VNumber n => Normal (number_to_string n)
  | VBigInt z => Normal (decimal z)
  | VString s => Normal s
  | VSymbol _ => Throw (TypeError "Cannot convert a Symbol value to a string")
  end.

(** [a || b] on values. *)
Definition or_else (a b : value) : value := if ToBoolean a then a else b.

End JS.

(* ===================================================================== *)
(** * Regular expressions: the backtracking matcher of the literal        *)
(* ===================================================================== *)

Module RegExp.

(** The syntax the literal [/^((ftp|http)s?:\/)?\//i] is made of. *)
Inductive pattern : Type :=
| Empty
| Char (c : ascii)
| LineStart                       (* ^ *)
| Seq (p q : pattern)
| Alt (p q : pattern)             (* p|q *)
| Opt (p : pattern)               (* p? , greedy *)
| Group (p : pattern).            (* ( p ) *)

Record regexp : Type := { source : pattern; ignoreCase : bool }.

(** Canonicalize (ECMA-262, 22.2.5.6) without the unicode flag: the
    character is upper-cased; a code unit above 127 never becomes one
    below 128, which is all a pattern of ASCII characters can observe,
    so those are left as they are. *)
Definition canonicalize (ic : bool) (c : ascii) : ascii :=
  if ic then
    let n := N_of_ascii c in
    if (97 <=? n)%N && (n <=? 122)%N then ascii_of_N (n - 32) else c
  else c.

Definition char_matches (ic : bool) (p c : ascii) : bool :=
  Ascii.eqb (canonicalize ic p) (canonicalize ic c).

(** [matches ic p i s k]: match [p] against [s], the input from index
    [i] on, and hand what is left to the continuation [k]; alternatives
    are tried left to right and [?] prefers to consume. *)
Fixpoint matches (ic : bool) (p : pattern) (i : nat) (s : string)
         (k : nat -> string -> bool) : bool :=
  match p with
  | Empty => k i s
  | Char c =>
      match s with
      | String c' s' => if char_matches ic c c' then k (S i) s' else false
      | EmptyString => false
      end
  | LineStart => if Nat.eqb i 0 then k i s else false
  | Seq p1 p2 => matches ic p1 i s (fun j r => matches ic p2 j r k)
  | Alt p1 p2 => matches ic p1 i s k || matches ic p2 i s k
  | Opt p1 => matches ic p1 i s k || k i s
  | Group p1 => matches ic p1 i s k
  end.

Definition match_at (r : regexp) (i : nat) (s : string) : bool :=
  matches (ignoreCase r) (source r) i s (fun _ _ => true).

(** RegExpBuiltinExec without the global and sticky flags: the match is
    attempted at index 0, then 1, ... up to the length of the input. *)
Fixpoint exec_from (r : regexp) (i : nat) (s : string) : bool :=
  match_at r i s ||
  match s with
  | EmptyString => false
  | String _ s' => exec_from r (S i) s'
  end.

Definition test_string (r : regexp) (s : string) : bool := exec_from r 0 s.

(** [regex.test(value)]: the argument is converted with ToString. *)
Definition test (r : regexp) (v : JS.value) : JS.completion bool :=
  match JS.ToString v with
  | JS.Normal s => JS.Normal (test_string r s)
  | JS.Throw e => JS.Throw e
  end.

Fixpoint literal (s : string) : pattern :=
  match s with
  | EmptyString => Empty
  | String c s' => Seq (Char c) (literal s')
  end.

(** The string [s] begins with [p], letter case ignored. *)
Fixpoint starts_with_ci (p s : string) : bool :=
  match p with
  | EmptyString => true
  | String a p' =>
      match s with
      | EmptyString => false
      | String b s' => char_matches true a b && starts_with_ci p' s'
      end
  end.

End RegExp.

(* ===================================================================== *)
(** * url_field.js                                                        *)
(* ===================================================================== *)

Module UrlFieldJs.
Import JS.

(** The props bag of a field component, as far as this file reads it:
    [value] comes from the standard field props, the other three are
    the ones [UrlField.props] declares. *)
Record props : Type := {
  value : JS.value;
  websitePath : JS.value;
  placeholder : JS.value;
  text : JS.value;
}.

(** The object [setup] hands to [useInputField]. *)
Record input_field_params : Type := {
  getValue : props -> JS.value;
}.

(** A component instance: its props, and the part of it the hooks of
    the framework work on, which this file never reads. *)
Record component : Type := {
  this_props : props;
  input_field_hooks : list input_field_params;
}.

(** Component code reads and writes [this] and may throw. *)
Definition M (A : Type) : Type := component -> completion A * component.

Definition ret {A} (a : A) : M A := fun this => (Normal a, this).

Definition bind {A B} (m : M A) (f : A -> M B) : M B :=
  fun this =>
    match m this with
    | (Normal a, this') => f a this'
    | (Throw e, this') => (Throw e, this')
    end.

Definition lift {A} (c : completion A) : M A := fun this => (c, this).

Definition read_props : M props := fun this => (Normal (this_props this), this).

(** What the module imports from a file that is not part of these
    sources: [useInputField], of [../input_field_hook].  It is a
    parameter of the code that calls it: nothing is assumed of what it
    does to the component, and it may throw. *)
Record imports : Type := {
  useInputField : input_field_params -> M unit;
}.

Notation "'let!' x ':=' m 'in' k" := (bind m (fun x => k))
  (at level 10, x name, m at level 100, k at level 200).

(** [/^((ftp|http)s?:\/)?\//i] *)
Definition regex : RegExp.regexp :=
  {| RegExp.source :=
       RegExp.Seq RegExp.LineStart
         (RegExp.Seq
            (RegExp.Opt
               (RegExp.Group
                  (RegExp.Seq
                     (RegExp.Group
                        (RegExp.Alt (RegExp.literal "ftp") (RegExp.literal "http")))
                     (RegExp.Seq (RegExp.Opt (RegExp.Char "s"))
                                 (RegExp.literal ":/")))))
            (RegExp.Char "/"));
     RegExp.ignoreCase := true |}.

(** The template literal [`http://${value}`]. *)
Definition http_template (v : JS.value) : completion string :=
  match ToString v with
  | Normal s => Normal ("http://" ++ s)
  | Throw e => Throw e
  end.

(** [{ getValue: () => this.props.value || "" }] *)
Definition setup_params : input_field_params :=
  {| getValue := fun p => or_else (value p) (VString "") |}.

(** [setup() { useInputField({ getValue: () => this.props.value || "" }); }] *)
Definition setup (im : imports) : M unit :=
  useInputField im setup_params.

(** [get formattedHref()] *)
Definition formattedHref : M JS.value :=
  let! p := read_props in
  let value := value p in
  if ToBoolean value && negb (ToBoolean (websitePath p)) then
    let! matched := lift (RegExp.test regex value) in
    if negb matched then
      let! s := lift (http_template value) in
      ret (VString s)
    else ret value
  else ret value.

(** ** The two classes *)

Inductive prop_type : Type := TString | TBoolean.

Record attrs : Type := {
  attrs_text : JS.value;
  attrs_placeholder : JS.value;
  attrs_options_website_path : JS.value;
}.

(** The patch [extractProps] returns. *)
Record extracted : Type := {
  x_text : JS.value;
  x_websitePath : JS.value;
  x_placeholder : JS.value;
}.

Inductive static_value : Type :=
| SString (s : string)
| SStrings (l : list string)
| SSchema (spread : string) (own : list (string * (prop_type * bool)))
| SExtract (f : attrs -> extracted).

(** A member of a prototype; a method is given the imports of the
    module when it is called. *)
Inductive member : Type :=
| Method (m : imports -> M unit)
| Getter (g : M JS.value).

(** A class: its parent, the static properties assigned on it and the
    members of its prototype.  Lookups follow the parent chain, as
    property lookup does on constructors and on prototypes. *)
Inductive class : Type :=
| BaseClass (name : string)
            (statics : list (string * static_value))
            (prototype : list (string * member))
| SubClass (name : string) (parent : class)
           (statics : list (string * static_value))
           (prototype : list (string * member)).

Fixpoint assoc {A} (k : string) (l : list (string * A)) : option A :=
  match l with
  | [] => None
  | (k', a) :: l' => if String.eqb k k' then Some a else assoc k l'
  end.

Fixpoint get_static (c : class) (k : string) : option static_value :=
  match c with
  | BaseClass _ statics _ => assoc k statics
  | SubClass _ parent statics _ =>
      match assoc k statics with
      | Some v => Some v
      | None => get_static parent k
      end
  end.

Fixpoint get_member (c : class) (k : string) : option member :=
  match c with
  | BaseClass _ _ prototype => assoc k prototype
  | SubClass _ parent _ prototype =>
      match assoc k prototype with
      | Some m => Some m
      | None => get_member parent k
      end
  end.

Definition own_statics (c : class) : list string :=
  match c with
  | BaseClass _ statics _ | SubClass _ _ statics _ => map fst statics
  end.

Definition own_members (c : class) : list string :=
  match c with
  | BaseClass _ _ prototype | SubClass _ _ _ prototype => map fst prototype
  end.

(** [Component] is owl's; nothing of it is read here. *)
Definition Component : class := BaseClass "Component" [] [].

Definition extractProps (a : attrs) : extracted :=
  {| x_text := attrs_text a;
     x_websitePath := attrs_options_website_path a;
     x_placeholder := attrs_placeholder a |}.

Definition UrlField : class :=
  SubClass "UrlField" Component
    [ ("template", SString "web.UrlField");
      ("props", SSchema "standardFieldProps"
                  [ ("placeholder", (TString, true));
                    ("text", (TString, true));
                    ("websitePath", (TBoolean, true)) ]);
      ("displayName", SString "URL");
      ("supportedTypes", SStrings ["char"]);
      ("extractProps", SExtract extractProps) ]
    [ ("setup", Method setup);
      ("formattedHref", Getter formattedHref) ].

(** [class FormUrlField extends UrlField {}] and its template. *)
Definition FormUrlField : class :=
  SubClass "FormUrlField" UrlField
    [ ("template", SString "web.FormUrlField") ]
    [].

(** Calling the method [k] / reading the getter [k] of an instance of
    [c]: [None] when the class has no such member. *)
Definition call_method (c : class) (k : string) : option (imports -> M unit) :=
  match get_member c k with Some (Method m) => Some m | _ => None end.

Definition read_getter (c : class) (k : string) : option (M JS.value) :=
  match get_member c k with Some (Getter g) => Some g | _ => None end.

End UrlFieldJs.

(* ===================================================================== *)
(** * minimal_dom.js                                                      *)
(* ===================================================================== *)

Module MinimalDomJs.
Import JS.

(** [export const DEBOUNCE = 400;] *)
Definition DEBOUNCE : nat := 400.

(** ** Values, promises, closures *)

(** Promises made by user code and promises made by this file live in
    two name spaces: user code holds no reference to the latter. *)
Inductive promise_ref : Type :=
| UserPromise (n : nat)
| EnginePromise (n : nat).

(** What a user function returns: a promise of its own, or anything
    else (a thenable counts as the promise that follows it). *)
Inductive ret_value : Type :=
| Plain (v : JS.value)
| APromise (p : nat).

Inductive outcome : Type :=
| Returned (v : ret_value)
| Thrown (e : JS.value).

(** The callbacks of this file take no argument, so the value a promise
    settles with is not kept. *)
Inductive settlement : Type := Fulfilled | Rejected.

(** The function values this file creates, as closures. *)
Inductive callback : Type :=
| Unlock (k : nat)                 (* [_unlock] of the async handler [k] *)
| Resolver (p : nat)               (* [r] of [new Promise(r => ...)] *)
| AfterDebounce (buttonEl : nat) (result : ret_value)
                                   (* the function given to [.then] *)
| Restore (btnEl loaderEl : nat).  (* what addButtonLoadingEffect returns *)

Inductive reaction : Type :=
| OnFulfilled (cb : callback)      (* [.then(cb)] *)
| OnSettled (cb : callback).       (* [.finally(cb)] *)

Record element : Type := {
  tagName : string;
  classList : option (list string);   (* [None]: no [classList] property *)
  disabled : option bool;             (* [None]: no [disabled] property *)
  parentElement : option nat;
  children : list nat;
}.

Inductive target : Type :=
| NoTarget                         (* [ev.target] is null or undefined *)
| NotAnElement                     (* a node without [closest] *)
| AnElement (e : nat).

Record event : Type := { ev_id : nat; ev_target : target }.

(** The [preventDefault] / [stopPropagation] arguments: a boolean, a
    function (taken to be a predicate on the document) or nothing. *)
Inductive flag : Type :=
| FlagUndefined
| FlagBool (b : bool)
| FlagFunction (f : list element -> bool).

(** The handlers made so far.  An async handler closes over the user
    function [fct] (a name), its two flags and its variable [pending];
    a button handler closes over [fct], by then the async handler that
    [makeAsyncHandler] returned. *)
Inductive closure : Type :=
| AsyncHandler (fct : nat) (preventDefault stopPropagation : flag)
               (pending : bool)
| ButtonHandler (fct : nat).

(** What the handlers do to the outside, oldest first. *)
Inductive effect : Type :=
| PreventDefault (ev : nat)
| StopPropagation (ev : nat)
| Applied (k : nat) (fct : nat) (ev : nat)   (* [fct.apply] entered *)
| Completed (k : nat) (o : outcome).         (* ... and left *)

Record runtime : Type := {
  closures : list closure;
  next_promise : nat;
  settlements : list (promise_ref * settlement);
  reactions : list (promise_ref * reaction);   (* registration order *)
  microtasks : list callback;                  (* oldest first *)
  timers : list (nat * callback);              (* due time, callback *)
  clock : nat;                                 (* milliseconds *)
  dom : list element;
  stack : list nat;        (* user functions running, innermost first *)
  log : list effect;
}.

Definition set_closures v st :=
  {| closures := v; next_promise := next_promise st;
     settlements := settlements st; reactions := reactions st;
     microtasks := microtasks st; timers := timers st; clock := clock st;
     dom := dom st; stack := stack st; log := log st |}.
Definition set_next_promise v st :=
  {| closures := closures st; next_promise := v;
     settlements := settlements st; reactions := reactions st;
     microtasks := microtasks st; timers := timers st; clock := clock st;
     dom := dom st; stack := stack st; log := log st |}.
Definition set_settlements v st :=
  {| closures := closures st; next_promise := next_promise st;
     settlements := v; reactions := reactions st;
     microtasks := microtasks st; timers := timers st; clock := clock st;
     dom := dom st; stack := stack st; log := log st |}.
Definition set_reactions v st :=
  {| closures := closures st; next_promise := next_promise st;
     settlements := settlements st; reactions := v;
     microtasks := microtasks st; timers := timers st; clock := clock st;
     dom := dom st; stack := stack st; log := log st |}.
Definition set_microtasks v st :=
  {| closures := closures st; next_promise := next_promise st;
     settlements := settlements st; reactions := reactions st;
     microtasks := v; timers := timers st; clock := clock st;
     dom := dom st; stack := stack st; log := log st |}.
Definition set_timers v st :=
  {| closures := closures st; next_promise := next_promise st;
     settlements := settlements st; reactions := reactions st;
     microtasks := microtasks st; timers := v; clock := clock st;
     dom := dom st; stack := stack st; log := log st |}.
Definition set_clock v st :=
  {| closures := closures st; next_promise := next_promise st;
     settlements := settlements st; reactions := reactions st;
     microtasks := microtasks st; timers := timers st; clock := v;
     dom := dom st; stack := stack st; log := log st |}.
Definition set_dom v st :=
  {| closures := closures st; next_promise := next_promise st;
     settlements := settlements st; reactions := reactions st;
     microtasks := microtasks st; timers := timers st; clock := clock st;
     dom := v; stack := stack st; log := log st |}.
Definition set_stack v st :=
  {| closures := closures st; next_promise := next_promise st;
     settlements := settlements st; reactions := reactions st;
     microtasks := microtasks st; timers := timers st; clock := clock st;
     dom := dom st; stack := v; log := log st |}.
Definition set_log v st :=
  {| closures := closures st; next_promise := next_promise st;
     settlements := settlements st; reactions := reactions st;
     microtasks := microtasks st; timers := timers st; clock := clock st;
     dom := dom st; stack := stack st; log := v |}.

(** A page with the document [d] on which no script has run yet. *)
Definition initial (d : list element) : runtime :=
  {| closures := []; next_promise := 0; settlements := []; reactions := [];
     microtasks := []; timers := []; clock := 0; dom := d; stack := [];
     log := [] |}.

(** ** The state monad of the page *)

Definition R (A : Type) : Type := runtime -> A * runtime.

Definition ret {A} (a : A) : R A := fun st => (a, st).

Definition bind {A B} (m : R A) (f : A -> R B) : R B :=
  fun st => let (a, st') := m st in f a st'.

Definition gets {A} (f : runtime -> A) : R A := fun st => (f st, st).

Definition modify (f : runtime -> runtime) : R unit := fun st => (tt, f st).

Definition when (b : bool) (m : R unit) : R unit := if b then m else ret tt.

Notation "'let!' x ':=' m 'in' k" := (bind m (fun x => k))
  (at level 10, x name, m at level 100, k at level 200).
Notation "m ';;' k" := (bind m (fun _ => k))
  (at level 100, k at level 200, right associativity).

Definition emit (e : effect) : R unit :=
  modify (fun st => set_log (log st ++ [e]) st).

(** ** Promises and the job queue *)

Definition promise_ref_eqb (a b : promise_ref) : bool :=
  match a, b with
  | UserPromise n, UserPromise m => Nat.eqb n m
  | EnginePromise n, EnginePromise m => Nat.eqb n m
  | _, _ => false
  end.

Fixpoint status_in (l : list (promise_ref * settlement)) (p : promise_ref)
  : option settlement :=
  match l with
  | [] => None
  | (q, s) :: l' => if promise_ref_eqb p q then Some s else status_in l' p
  end.

(** [None]: the promise is pending. *)
Definition status (st : runtime) (p : promise_ref) : option settlement :=
  status_in (settlements st) p.

(** The job a reaction gives once its promise is settled: [.finally]
    runs its callback either way, [.then] with one argument only on
    fulfilment. *)
Definition reaction_job (s : settlement) (r : reaction) : option callback :=
  match r with
  | OnSettled cb => Some cb
  | OnFulfilled cb =>
      match s with Fulfilled => Some cb | Rejected => None end
  end.

Fixpoint jobs_of (p : promise_ref) (s : settlement)
         (l : list (promise_ref * reaction)) : list callback :=
  match l with
  | [] => []
  | (q, r) :: l' =>
      if promise_ref_eqb p q then
        match reaction_job s r with
        | Some cb => cb :: jobs_of p s l'
        | None => jobs_of p s l'
        end
      else jobs_of p s l'
  end.

Fixpoint reactions_without (p : promise_ref)
         (l : list (promise_ref * reaction)) : list (promise_ref * reaction) :=
  match l with
  | [] => []
  | (q, r) :: l' =>
      if promise_ref_eqb p q then reactions_without p l'
      else (q, r) :: reactions_without p l'
  end.

Definition enqueue (cb : callback) : R unit :=
  modify (fun st => set_microtasks (microtasks st ++ [cb]) st).

(** Settling a pending promise queues a job for each of its reactions,
    in the order they were registered; settling twice does nothing. *)
Definition settle (p : promise_ref) (s : settlement) : R unit :=
  let! now := gets (fun st => status st p) in
  match now with
  | Some _ => ret tt
  | None =>
      modify (fun st =>
        set_microtasks (microtasks st ++ jobs_of p s (reactions st))
          (set_reactions (reactions_without p (reactions st))
             (set_settlements ((p, s) :: settlements st) st)))
  end.

(** Registering a reaction: kept while the promise is pending, queued
    at once when it is settled.  The promise [.then] and [.finally]
    return is used nowhere in this file and is not kept. *)
Definition register (p : promise_ref) (r : reaction) : R unit :=
  let! now := gets (fun st => status st p) in
  match now with
  | None => modify (fun st => set_reactions (reactions st ++ [(p, r)]) st)
  | Some s =>
      match reaction_job s r with
      | Some cb => enqueue cb
      | None => ret tt
      end
  end.

Definition Promise_then (p : promise_ref) (cb : callback) : R unit :=
  register p (OnFulfilled cb).

Definition Promise_finally (p : promise_ref) (cb : callback) : R unit :=
  register p (OnSettled cb).

Definition new_promise : R nat :=
  fun st => (next_promise st, set_next_promise (S (next_promise st)) st).

(** The argument of [Promise.resolve]. *)
Inductive resolvable : Type :=
| Value (v : JS.value)
| Promise (p : promise_ref).

Definition of_ret (v : ret_value) : resolvable :=
  match v with
  | Plain v => Value v
  | APromise p => Promise (UserPromise p)
  end.

(** [Promise.resolve(x)]: [x] itself when it is a promise, a new
    promise fulfilled with [x] otherwise. *)
Definition Promise_resolve (x : resolvable) : R promise_ref :=
  match x with
  | Promise p => ret p
  | Value _ =>
      let! n := new_promise in
      settle (EnginePromise n) Fulfilled ;;
      ret (EnginePromise n)
  end.

Definition setTimeout (cb : callback) (delay : nat) : R unit :=
  modify (fun st => set_timers (timers st ++ [(clock st + delay, cb)]) st).

(** ** The document *)

Definition alter_element (f : element -> element) (e : nat) : R unit :=
  modify (fun st => set_dom (alter f e (dom st)) st).

Definition set_classList v (el : element) : element :=
  {| tagName := tagName el; classList := v; disabled := disabled el;
     parentElement := parentElement el; children := children el |}.
Definition set_disabled v (el : element) : element :=
  {| tagName := tagName el; classList := classList el; disabled := v;
     parentElement := parentElement el; children := children el |}.
Definition set_parentElement v (el : element) : element :=
  {| tagName := tagName el; classList := classList el; disabled := disabled el;
     parentElement := v; children := children el |}.
Definition set_children v (el : element) : element :=
  {| tagName := tagName el; classList := classList el; disabled := disabled el;
     parentElement := parentElement el; children := v |}.

Fixpoint mem (t : string) (l : list string) : bool :=
  match l with
  | [] => false
  | t' :: l' => String.eqb t t' || mem t l'
  end.

(** DOMTokenList [add]: a token is appended unless it is there. *)
Fixpoint add_tokens (ts : list string) (l : list string) : list string :=
  match ts with
  | [] => l
  | t :: ts' => add_tokens ts' (if mem t l then l else l ++ [t])
  end.

(** DOMTokenList [remove]. *)
Fixpoint remove_token (t : string) (l : list string) : list string :=
  match l with
  | [] => []
  | t' :: l' => if String.eqb t t' then remove_token t l' else t' :: remove_token t l'
  end.

Fixpoint remove_tokens (ts : list string) (l : list string) : list string :=
  match ts with
  | [] => l
  | t :: ts' => remove_tokens ts' (remove_token t l)
  end.

(** [if (el.classList)] *)
Definition has_classList (e : nat) : R bool :=
  gets (fun st =>
    match dom st !! e with
    | Some el => match classList el with Some _ => true | None => false end
    | None => false
    end).

Definition classList_add (e : nat) (ts : list string) : R unit :=
  alter_element (fun el => set_classList (option_map (add_tokens ts) (classList el)) el) e.

Definition classList_remove (e : nat) (ts : list string) : R unit :=
  alter_element (fun el => set_classList (option_map (remove_tokens ts) (classList el)) el) e.

(** [el.disabled = b] *)
Definition assign_disabled (e : nat) (b : bool) : R unit :=
  alter_element (set_disabled (Some b)) e.

(** [document.createElement(tag)]: a new element outside the tree. *)
Definition createElement (tag : string) : R nat :=
  fun st =>
    (length (dom st),
     set_dom (dom st ++ [ {| tagName := tag; classList := Some [];
                             disabled := None; parentElement := None;
                             children := [] |} ]) st).

Fixpoint remove_first (c : nat) (l : list nat) : list nat :=
  match l with
  | [] => []
  | c' :: l' => if Nat.eqb c c' then l' else c' :: remove_first c l'
  end.

(** [el.remove()]: the element leaves the child list of its parent. *)
Definition remove (e : nat) : R unit :=
  let! parent := gets (fun st =>
    match dom st !! e with Some el => parentElement el | None => None end) in
  match parent with
  | None => ret tt
  | Some p =>
      alter_element (fun el => set_children (remove_first e (children el)) el) p ;;
      alter_element (set_parentElement None) e
  end.

(** [parent.prepend(e)]: [e] leaves where it was and becomes the first
    child of [parent]. *)
Definition prepend (parent e : nat) : R unit :=
  remove e ;;
  alter_element (set_parentElement (Some parent)) e ;;
  alter_element (fun el => set_children (e :: children el) el) parent.

Definition matches_btn (el : element) : bool :=
  match classList el with
  | Some l => mem "btn" l
  | None => false
  end.

(** [el.closest('.btn')]: the element itself or its nearest ancestor
    with the class; the walk is bounded by the size of the document. *)
Fixpoint closest_from (fuel : nat) (d : list element) (e : nat) : option nat :=
  match fuel with
  | 0 => None
  | S fuel' =>
      match d !! e with
      | None => None
      | Some el =>
          if matches_btn el then Some e
          else match parentElement el with
               | Some p => closest_from fuel' d p
               | None => None
               end
      end
  end.

(** [ev.target && ev.target.closest && ev.target.closest('.btn')] *)
Definition closest_btn (ev : event) : R (option nat) :=
  gets (fun st =>
    match ev_target ev with
    | NoTarget => None
    | NotAnElement => None
    | AnElement e => closest_from (length (dom st)) (dom st) e
    end).

(** ** addButtonLoadingEffect *)

(** The arrow function [addButtonLoadingEffect] returns. *)
Definition restore (btnEl loaderEl : nat) : R unit :=
  let! has := has_classList btnEl in
  when has (classList_remove btnEl ["o_website_btn_loading"; "disabled"]) ;;
  assign_disabled btnEl false ;;
  remove loaderEl.

Definition addButtonLoadingEffect (btnEl : nat) : R callback :=
  let! has := has_classList btnEl in
  when has (classList_add btnEl ["o_website_btn_loading"; "disabled"]) ;;
  assign_disabled btnEl true ;;
  let! loaderEl := createElement "span" in
  classList_add loaderEl ["fa"; "fa-refresh"; "fa-spin"; "me-2"] ;;
  prepend btnEl loaderEl ;;
  ret (Restore btnEl loaderEl).

(** ** makeAsyncHandler *)

Definition pending (st : runtime) (k : nat) : bool :=
  match closures st !! k with
  | Some (AsyncHandler _ _ _ b) => b
  | _ => false
  end.

Definition assign_pending (b : bool) (c : closure) : closure :=
  match c with
  | AsyncHandler fct pd sp _ => AsyncHandler fct pd sp b
  | ButtonHandler fct => ButtonHandler fct
  end.

Definition _isLocked (k : nat) : R bool := gets (fun st => pending st k).

Definition _lock (k : nat) : R unit :=
  modify (fun st => set_closures (alter (assign_pending true) k (closures st)) st).

Definition _unlock (k : nat) : R unit :=
  modify (fun st => set_closures (alter (assign_pending false) k (closures st)) st).

(** [f === true || f && f()] *)
Definition flag_holds (f : flag) : R bool :=
  match f with
  | FlagUndefined => ret false
  | FlagBool b => ret b
  | FlagFunction g => gets (fun st => g (dom st))
  end.

(** [fct.apply(this, arguments)]: [run] is what the user function does
    this time; the call is recorded and the function is on the stack
    while it runs. *)
Definition apply_fct (k fct : nat) (ev : event) (run : R outcome) : R outcome :=
  emit (Applied k fct (ev_id ev)) ;;
  modify (fun st => set_stack (k :: stack st) st) ;;
  let! o := run in
  modify (fun st => set_stack (tl (stack st)) st) ;;
  emit (Completed k o) ;;
  ret o.

(** The function [makeAsyncHandler] returns, [k] being its closure. *)
Definition async_handler (k fct : nat) (preventDefault stopPropagation : flag)
           (run : R outcome) (ev : event) : R outcome :=
  let! pd := flag_holds preventDefault in
  when pd (emit (PreventDefault (ev_id ev))) ;;
  let! sp := flag_holds stopPropagation in
  when sp (emit (StopPropagation (ev_id ev))) ;;
  let! locked := _isLocked k in
  if locked then
    ret (Returned (Plain VUndefined))
  else
    _lock k ;;
    let! result := apply_fct k fct ev run in
    match result with
    | Thrown e => ret (Thrown e)
    | Returned v =>
        let! p := Promise_resolve (of_ret v) in
        Promise_finally p (Unlock k) ;;
        ret (Returned v)
    end.

Definition new_closure (c : closure) : R nat :=
  fun st => (length (closures st), set_closures (closures st ++ [c]) st).

Definition makeAsyncHandler (fct : nat) (preventDefault stopPropagation : flag)
  : R nat :=
  new_closure (AsyncHandler fct preventDefault stopPropagation false).

(** Calling the async handler of closure [k]. *)
Definition call_async (k : nat) (run : R outcome) (ev : event) : R outcome :=
  let! c := gets (fun st => closures st !! k) in
  match c with
  | Some (AsyncHandler fct pd sp _) => async_handler k fct pd sp run ev
  | _ => ret (Returned (Plain VUndefined))
  end.

(** ** makeButtonHandler *)

(** The function given to [.then]. *)
Definition after_debounce (buttonEl : nat) (result : ret_value) : R unit :=
  let! has := has_classList buttonEl in
  when has (classList_remove buttonEl ["pe-none"]) ;;
  let! restore := addButtonLoadingEffect buttonEl in
  let! p := Promise_resolve (of_ret result) in
  Promise_finally p restore.

(** [DEBOUNCE && new Promise(r => setTimeout(r, DEBOUNCE))] *)
Definition debounce_delay : R resolvable :=
  if Nat.eqb DEBOUNCE 0 then
    ret (Value (VNumber (Int 0 eq_refl)))
  else
    let! n := new_promise in
    setTimeout (Resolver n) DEBOUNCE ;;
    ret (Promise (EnginePromise n)).

(** The handler from the button lookup on, [result] being what the
    async handler returned. *)
Definition disable_button (result : ret_value) (ev : event) : R outcome :=
  let! buttonEl := closest_btn ev in
  match buttonEl with
  | None => ret (Returned result)
  | Some buttonEl =>
      let! has := has_classList buttonEl in
      when has (classList_add buttonEl ["pe-none"]) ;;
      let! d := debounce_delay in
      let! p := Promise_resolve d in
      Promise_then p (AfterDebounce buttonEl result) ;;
      ret (Returned result)
  end.

(** The function [makeButtonHandler] returns, [fct] being the async
    handler it closes over; an exception of [fct.apply] leaves it. *)
Definition button_handler (fct : nat) (run : R outcome) (ev : event) : R outcome :=
  let! result := call_async fct run ev in
  match result with
  | Thrown e => ret (Thrown e)
  | Returned result => disable_button result ev
  end.

Definition makeButtonHandler (fct : nat) : R nat :=
  let! fct := makeAsyncHandler fct FlagUndefined FlagUndefined in
  new_closure (ButtonHandler fct).

(** ** The page at work *)

Definition run_callback (cb : callback) : R unit :=
  match cb with
  | Unlock k => _unlock k
  | Resolver p => settle (EnginePromise p) Fulfilled
  | AfterDebounce buttonEl result => after_debounce buttonEl result
  | Restore btnEl loaderEl => restore btnEl loaderEl
  end.

(** Calling the handler of closure [k]. *)
Definition call (k : nat) (run : R outcome) (ev : event) : R outcome :=
  let! c := gets (fun st => closures st !! k) in
  match c with
  | Some (AsyncHandler fct pd sp _) => async_handler k fct pd sp run ev
  | Some (ButtonHandler fct) => button_handler fct run ev
  | None => ret (Returned (Plain VUndefined))
  end.

(** The oldest job runs. *)
Definition run_microtask : R unit :=
  let! q := gets microtasks in
  match q with
  | [] => ret tt
  | cb :: q' => modify (set_microtasks q') ;; run_callback cb
  end.

(** The timer at position [i] fires, if it is due. *)
Definition fire_timer (i : nat) : R unit :=
  let! t := gets (fun st => timers st !! i) in
  let! now := gets clock in
  match t with
  | Some (due, cb) =>
      if Nat.leb due now then
        modify (fun st => set_timers (delete i (timers st)) st) ;;
        run_callback cb
      else ret tt
  | None => ret tt
  end.

(** What can happen on the page.  A [Call] says what the user function
    does if the handler applies it: the things in [body], one after the
    other while it is on the stack, and then [result]. *)
Inductive input : Type :=
| MakeAsyncHandler (fct : nat) (preventDefault stopPropagation : flag)
| MakeButtonHandler (fct : nat)
| Call (k : nat) (ev : event) (body : list input) (result : outcome)
| Settle (p : nat) (s : settlement)
| RunMicrotask
| Elapse (ms : nat)
| FireTimer (i : nat).

Fixpoint step (i : input) (st : runtime) {struct i} : runtime :=
  match i with
  | MakeAsyncHandler fct pd sp => snd (makeAsyncHandler fct pd sp st)
  | MakeButtonHandler fct => snd (makeButtonHandler fct st)
  | Call k ev body result =>
      snd (call k
             (fun st0 =>
                (result,
                 (fix steps (l : list input) (s : runtime) : runtime :=
                    match l with
                    | [] => s
                    | i' :: l' => steps l' (step i' s)
                    end) body st0))
             ev st)
  | Settle p s => snd (settle (UserPromise p) s st)
  | RunMicrotask => snd (run_microtask st)
  | Elapse ms => set_clock (clock st + ms) st
  | FireTimer i => snd (fire_timer i st)
  end.

Fixpoint steps (l : list input) (st : runtime) : runtime :=
  match l with
  | [] => st
  | i :: l' => steps l' (step i st)
  end.

(** What the user function does when applied with [body] and [result]. *)
Definition user_fct (body : list input) (result : outcome) : R outcome :=
  fun st => (result, steps body st).

(** What a call returns to its caller. *)
Definition returns (k : nat) (ev : event) (body : list input)
           (result : outcome) (st : runtime) : outcome :=
  fst (call k (user_fct body result) ev st).

Definition reachable (st : runtime) : Prop :=
  exists d l, st = steps l (initial d).

End MinimalDomJs.

(* ===================================================================== *)
(** * Definitions the statements use                                      *)
(* ===================================================================== *)

Module UrlFieldSpec.
Import JS UrlFieldJs.

(** The description of the pattern in words: the string begins with
    [http://], [https://], [ftp://], [ftps://] or [/], in any letter
    case. *)
Definition begins_like_url (s : string) : bool :=
  RegExp.starts_with_ci "http://" s
  || RegExp.starts_with_ci "https://" s
  || RegExp.starts_with_ci "ftp://" s
  || RegExp.starts_with_ci "ftps://" s
  || RegExp.starts_with_ci "/" s.

(** The character, in lower case if it is one of [A] to [Z]. *)
Definition lower (c : ascii) : ascii :=
  let n := nat_of_ascii c in
  if Nat.leb 65 n && Nat.leb n 90 then ascii_of_nat (n + 32) else c.

Fixpoint lowercase (s : string) : string :=
  match s with
  | EmptyString => EmptyString
  | String c s' => String (lower c) (lowercase s')
  end.

(** The same in the words of the prose, with nothing of the matcher in
    it: put in lower case, the string has one of the five prefixes. *)
Definition has_url_prefix (s : string) : bool :=
  let l := lowercase s in
  String.prefix "http://" l
  || String.prefix "https://" l
  || String.prefix "ftp://" l
  || String.prefix "ftps://" l
  || String.prefix "/" l.

Definition with_props (v w : JS.value) : component :=
  {| this_props := {| value := v; websitePath := w;
                      placeholder := VUndefined; text := VUndefined |};
     input_field_hooks := [] |}.

(** The string with its letters [a] to [z] in upper case. *)
Fixpoint upcase (s : string) : string :=
  match s with
  | EmptyString => EmptyString
  | String c s' => String (RegExp.canonicalize true c) (upcase s')
  end.

(** The component with [v] as its [props.value]. *)
Definition set_value (v : JS.value) (this : component) : component :=
  {| this_props := {| value := v;
                      websitePath := websitePath (this_props this);
                      placeholder := placeholder (this_props this);
                      text := text (this_props this) |};
     input_field_hooks := input_field_hooks this |}.

End UrlFieldSpec.

Module MinimalDomSpec.
Import JS MinimalDomJs.

Fixpoint count {A} (f : A -> bool) (l : list A) : nat :=
  match l with
  | [] => 0
  | a :: l' => (if f a then 1 else 0) + count f l'
  end.

Definition is_unlock (k : nat) (cb : callback) : bool :=
  match cb with
  | Unlock k' => Nat.eqb k k'
  | _ => false
  end.

Definition reaction_callback (r : reaction) : callback :=
  match r with
  | OnFulfilled cb => cb
  | OnSettled cb => cb
  end.

(** How many times the user function of handler [k] is on the stack. *)
Definition active (k : nat) (st : runtime) : nat :=
  count (Nat.eqb k) (stack st).

(** How many [_unlock] callbacks of handler [k] wait somewhere: as a
    job, as a reaction of a promise, or in a timer. *)
Definition unlocks (k : nat) (st : runtime) : nat :=
  count (is_unlock k) (microtasks st)
  + count (fun pr => is_unlock k (reaction_callback (snd pr))) (reactions st)
  + count (fun t => is_unlock k (snd t)) (timers st).

Definition is_applied (k : nat) (e : effect) : bool :=
  match e with
  | Applied k' _ _ => Nat.eqb k k'
  | _ => false
  end.

(** How many times handler [k] has applied its user function. *)
Definition applied (k : nat) (st : runtime) : nat :=
  count (is_applied k) (log st).

Definition is_unsettled_result (k : nat) (st : runtime) (e : effect) : bool :=
  match e with
  | Completed k' (Returned (APromise p)) =>
      Nat.eqb k k' &&
      match status st (UserPromise p) with None => true | Some _ => false end
  | _ => false
  end.

(** An action of handler [k] is still going on: its user function is
    on the stack, or it returned a promise that is not settled yet. *)
Definition action_pending (k : nat) (st : runtime) : bool :=
  existsb (Nat.eqb k) (stack st)
  || existsb (is_unsettled_result k st) (log st).

(** The invariant of the lock: a handler that is not locked has no
    action going on and no [_unlock] waiting; a locked one has at most
    one of them. *)
Definition lock_inv (st : runtime) : Prop :=
  forall k, active k st + unlocks k st <= Nat.b2n (pending st k).

(** A promise a user function returned and that is still pending
    carries the [_unlock] of its handler. *)
Definition returned_inv (st : runtime) : Prop :=
  forall k p,
    In (Completed k (Returned (APromise p))) (log st) ->
    status st (UserPromise p) = None ->
    In (UserPromise p, OnSettled (Unlock k)) (reactions st).

(** A button handler closes over an async handler made with no flags. *)
Definition closures_inv (st : runtime) : Prop :=
  forall k fct,
    closures st !! k = Some (ButtonHandler fct) ->
    exists f b,
      closures st !! fct = Some (AsyncHandler f FlagUndefined FlagUndefined b).

Definition Inv (st : runtime) : Prop :=
  lock_inv st /\ returned_inv st /\ closures_inv st.

(** The part of the page the lock depends on. *)
Definition lock_view (st : runtime) :=
  (closures st, stack st, microtasks st, reactions st, timers st,
   settlements st, log st).

(** What every input respects: the invariant, the stack, and a handler
    that is locked with no [_unlock] waiting stays so and does not
    apply its user function. *)
Definition respects_at (s s' : runtime) : Prop :=
  Inv s'
  /\ stack s' = stack s
  /\ (forall k, pending s k = true -> unlocks k s = 0 ->
                pending s' k = true
                /\ unlocks k s' = 0
                /\ applied k s' = applied k s).

Definition respects_lock (f : runtime -> runtime) : Prop :=
  forall s, Inv s -> respects_at s (f s).

(** The effects of the two flags. *)
Definition inert (e : effect) : bool :=
  match e with
  | PreventDefault _ | StopPropagation _ => true
  | _ => false
  end.

Definition respects {A} (m : R A) : Prop :=
  respects_lock (fun s => snd (m s)).

(** A computation that leaves that part alone. *)
Definition keeps_view {A} (m : R A) : Prop :=
  forall s, lock_view (snd (m s)) = lock_view s.

(** A computation that records no effect. *)
Definition keeps_log {A} (m : R A) : Prop :=
  forall s, log (snd (m s)) = log s.

Definition not_unlock (cb : callback) : Prop :=
  forall k, is_unlock k cb = false.

Definition class_mem (t : string) (el : element) : bool :=
  match classList el with
  | Some l => mem t l
  | None => false
  end.

Definition has_class (st : runtime) (e : nat) (t : string) : bool :=
  match dom st !! e with
  | Some el => class_mem t el
  | None => false
  end.

Definition is_resolver (cb : callback) : bool :=
  match cb with
  | Resolver _ => true
  | _ => false
  end.

Definition is_after_debounce (b : nat) (cb : callback) : bool :=
  match cb with
  | AfterDebounce b' _ => Nat.eqb b b'
  | _ => false
  end.

(** No debounce of the button [b] is under way. *)
Definition no_debounce (b : nat) (s : runtime) : Prop :=
  (forall cb, In cb (microtasks s) -> is_after_debounce b cb = false)
  /\ (forall p r, In (p, r) (reactions s) ->
                  is_after_debounce b (reaction_callback r) = false).

(** The invariant of the timers, for a button [b] and a time [D]: the
    timers hold resolvers of promises of this file and nothing else
    holds one; these promises are allocated; a debounce of [b] that is
    under way waits for a timer that is not due before [D]; and before
    [D] no job of the queue ends a debounce of [b]. *)
Definition queue_inv (D b : nat) (s : runtime) : Prop :=
  D <= clock s + DEBOUNCE
  /\ (forall due cb, In (due, cb) (timers s) ->
                     exists n, cb = Resolver n /\ n < next_promise s)
  /\ (forall p r, In (p, r) (reactions s) ->
                  is_resolver (reaction_callback r) = false
                  /\ forall n, p = EnginePromise n -> n < next_promise s)
  /\ (forall cb, In cb (microtasks s) -> is_resolver cb = false)
  /\ (forall p x, In (p, x) (settlements s) ->
                  forall n, p = EnginePromise n -> n < next_promise s)
  /\ (forall p r, In (p, r) (reactions s) ->
                  is_after_debounce b (reaction_callback r) = true ->
                  exists n, p = EnginePromise n
                            /\ forall due, In (due, Resolver n) (timers s) -> D <= due)
  /\ (clock s < D ->
      forall cb, In cb (microtasks s) -> is_after_debounce b cb = false).

(** ... and until [D] the button carries the class. *)
Definition debounce_inv (D b : nat) (s : runtime) : Prop :=
  queue_inv D b s /\ (clock s < D -> has_class s b "pe-none" = true).

(** The part of the page the timers and the jobs make. *)
Definition timer_view (s : runtime) :=
  (next_promise s, settlements s, reactions s, microtasks s, timers s, clock s).

(** A computation that works on the document only and takes the class
    away from no element that has it. *)
Definition dom_only {A} (b : nat) (m : R A) : Prop :=
  forall s,
    timer_view (snd (m s)) = timer_view s
    /\ (has_class s b "pe-none" = true ->
        has_class (snd (m s)) b "pe-none" = true).

(** A computation that gives the class to no element that lacks it. *)
Definition adds_no_class {A} (b : nat) (m : R A) : Prop :=
  forall s,
    has_class s b "pe-none" = false ->
    has_class (snd (m s)) b "pe-none" = false.

Definition keeps_debounce (D b : nat) (f : runtime -> runtime) : Prop :=
  forall s, debounce_inv D b s -> debounce_inv D b (f s).

(** The spinner [addButtonLoadingEffect] creates. *)
Definition spinner : element :=
  {| tagName := "span";
     classList := Some ["fa"; "fa-refresh"; "fa-spin"; "me-2"];
     disabled := None; parentElement := None; children := [] |}.

(** The button [el] with the loading effect on it: the two classes
    added, [disabled] set and the spinner [loaderEl] as first child. *)
Definition loading (loaderEl : nat) (el : element) : element :=
  {| tagName := tagName el;
     classList :=
       option_map (add_tokens ["o_website_btn_loading"; "disabled"])
                  (classList el);
     disabled := Some true;
     parentElement := parentElement el;
     children := loaderEl :: children el |}.

(** The button [el] after the effect and its restore callback: the two
    classes removed, [disabled] false, the children it had. *)
Definition restored (el : element) : element :=
  {| tagName := tagName el;
     classList :=
       option_map (remove_tokens ["o_website_btn_loading"; "disabled"])
                  (classList el);
     disabled := Some false;
     parentElement := parentElement el;
     children := children el |}.

(** A button and its label, for the examples. *)
Definition a_button : element :=
  {| tagName := "button"; classList := Some ["btn"; "btn-primary"];
     disabled := Some false; parentElement := None; children := [1] |}.
Definition a_label : element :=
  {| tagName := "i"; classList := Some ["fa"; "fa-check"]; disabled := None;
     parentElement := Some 0; children := [] |}.
Definition a_page : list element := [a_button; a_label].
Definition a_click : event := {| ev_id := 0; ev_target := AnElement 1 |}.

(** The page after a script made an async handler for the user function
    7 and the handler was called once, the function returning its
    promise 3, still pending. *)
Definition a_busy_page : runtime :=
  steps [ MakeAsyncHandler 7 (FlagBool true) FlagUndefined;
          Call 0 a_click [] (Returned (APromise 3)) ]
        (initial a_page).

(** The same with a button handler, the button being clicked on its
    label. *)
Definition a_busy_button : runtime :=
  steps [ MakeButtonHandler 7;
          Call 1 a_click [] (Returned (APromise 3)) ]
        (initial a_page).

(** The button handler called with a user function that throws. *)
Definition a_failed_click : runtime :=
  steps [ MakeButtonHandler 7;
          Call 1 a_click [] (Thrown (VString "boom")) ]
        (initial a_page).

(** The button handler called a second time, 300 ms after the first
    call, and the page 100 ms later when the first timer has fired. *)
Definition a_second_click : runtime :=
  steps [ MakeButtonHandler 7;
          Call 1 a_click [] (Returned (APromise 3));
          Elapse 300;
          Call 1 a_click [] (Returned (Plain VUndefined));
          Elapse 100;
          FireTimer 0;
          RunMicrotask ]
        (initial a_page).

(** The page after the user function of an async handler threw. *)
Definition a_stuck_page : runtime :=
  steps [ MakeAsyncHandler 7 FlagUndefined FlagUndefined;
          Call 0 a_click [] (Thrown (VString "boom")) ]
        (initial a_page).

(** The button [el] without the class of the debounce. *)
Definition clickable (el : element) : element :=
  set_classList (option_map (remove_tokens ["pe-none"]) (classList el)) el.

(** What the two flags of a handler do to the event [ev]. *)
Definition flag_effects (preventDefault stopPropagation : flag) (ev : event)
           (st : runtime) : list effect :=
  ((if fst (flag_holds preventDefault st) then [PreventDefault (ev_id ev)] else [])
   ++ (if fst (flag_holds stopPropagation st) then [StopPropagation (ev_id ev)] else []))%list.

(** What is recorded stays recorded. *)
Definition extends_log (f : runtime -> runtime) : Prop :=
  forall s, exists l, log (f s) = (log s ++ l)%list.

(** A computation that leaves the handlers alone and takes no job from
    the queue. *)
Definition queues_only {A} (m : R A) : Prop :=
  forall s,
    closures (snd (m s)) = closures s
    /\ exists q, microtasks (snd (m s)) = (microtasks s ++ q)%list.

(** A computation that takes no element out of the document. *)
Definition grows_dom {A} (m : R A) : Prop :=
  forall s, length (dom s) <= length (dom (snd (m s))).

(** The closure [k] is an async handler. *)
Definition is_async_handler (st : runtime) (k : nat) : Prop :=
  exists fct pd sp b, closures st !! k = Some (AsyncHandler fct pd sp b).

Definition is_thrown (k : nat) (e : effect) : bool :=
  match e with
  | Completed k' (Thrown _) => Nat.eqb k k'
  | _ => false
  end.

(** The user function of handler [k] threw at some time. *)
Definition threw (k : nat) (st : runtime) : bool :=
  existsb (is_thrown k) (log st).

(** Something of a call of handler [k] is under way: its user function
    is on the stack, or its [_unlock] waits, for the promise the user
    function returned or for its turn in the queue. *)
Definition under_way (k : nat) (st : runtime) : bool :=
  negb (Nat.eqb (active k st + unlocks k st) 0).

(** No [_unlock] is registered with [.then]. *)
Definition settled_only (st : runtime) : Prop :=
  forall p cb, In (p, OnFulfilled cb) (reactions st) -> not_unlock cb.

(** What holds a lock: a handler is locked exactly when its user
    function is on the stack, or an [_unlock] of it waits, or its user
    function threw, and only one of the three at a time. *)
Definition cause_inv (st : runtime) : Prop :=
  (forall k, Nat.b2n (pending st k)
             = active k st + unlocks k st + Nat.b2n (threw k st))
  /\ settled_only st.

(** A computation that keeps this account of the locks. *)
Definition accounts {A} (m : R A) : Prop :=
  forall s, cause_inv s -> cause_inv (snd (m s)).

(** The same for what happens on the page, where the invariant of the
    lock holds. *)
Definition accounts_lock (f : runtime -> runtime) : Prop :=
  forall s, Inv s -> cause_inv s -> cause_inv (f s).

(** The page after the user function of an async handler returned
    [false], a value that is no promise, and before any job has run. *)
Definition a_done_page : runtime :=
  steps [ MakeAsyncHandler 7 (FlagBool true) FlagUndefined;
          Call 0 a_click [] (Returned (Plain (VBoolean false))) ]
        (initial a_page).

(** The same page once the job queued by the call has run. *)
Definition a_free_page : runtime :=
  steps [ MakeAsyncHandler 7 (FlagBool true) FlagUndefined;
          Call 0 a_click [] (Returned (Plain (VBoolean false)));
          RunMicrotask ]
        (initial a_page).

End MinimalDomSpec.


(* ===================================================================== *)
(** * Properties of url_field.js                                          *)
(* ===================================================================== *)

Section RegexFacts.
Import RegExp UrlFieldJs UrlFieldSpec.

Lemma regex_needs_index_0 (i : nat) (s : string) :
  match_at regex (S i) s = false.
Proof. reflexivity. Qed.

Lemma regex_exec_later (s : string) (i : nat) :
  exec_from regex (S i) s = false.
Proof.
  revert i; induction s as [|c s IH]; intros i; cbn [exec_from].
  - now rewrite regex_needs_index_0.
  - now rewrite regex_needs_index_0, IH.
Qed.

Lemma regex_test_at_0 (s : string) :
  test_string regex s = match_at regex 0 s.
Proof.
  unfold test_string. destruct s as [|c s]; cbn [exec_from].
  - apply orb_false_r.
  - rewrite regex_exec_later. apply orb_false_r.
Qed.

(** The literal accepts exactly the strings the comment next to it
    lists: [http(s)://...], [ftp(s)://...], [/...]. *)
Lemma regex_test_begins (s : string) :
  test_string regex s = begins_like_url s.
Proof.
  rewrite regex_test_at_0.
  unfold match_at, begins_like_url, regex; cbn [source ignoreCase].
  destruct s as [|c1 [|c2 [|c3 [|c4 [|c5 [|c6 [|c7 [|c8 s]]]]]]]];
    cbn [matches literal starts_with_ci Nat.eqb];
    repeat match goal with
           | |- context [char_matches true ?a ?b] =>
               destruct (char_matches true a b); cbn [andb orb negb]
           end;
    reflexivity.
Qed.

(** The same without the matcher: in lower case, the string has one of
    the five prefixes. *)
Lemma char_matches_lower (a b : ascii) :
  In a ["h"; "t"; "p"; "s"; "f"; ":"; "/"]%char ->
  char_matches true a b = Ascii.eqb a (lower b).
Proof.
  intros H. cbn [In] in H.
  repeat (destruct H as [<-|H];
          [destruct b as [[] [] [] [] [] [] [] []]; reflexivity|]).
  destruct H.
Qed.

Lemma starts_with_ci_prefix (p s : string) :
  (forall a, In a (list_ascii_of_string p) ->
             In a ["h"; "t"; "p"; "s"; "f"; ":"; "/"]%char) ->
  starts_with_ci p s = String.prefix p (lowercase s).
Proof.
  revert s. induction p as [|a p IH]; intros s H.
  - now destruct s.
  - destruct s as [|b s]; [reflexivity|].
    cbn [starts_with_ci lowercase String.prefix].
    rewrite (char_matches_lower a b) by (apply H; now left).
    rewrite IH by (intros c Hc; apply H; now right).
    destruct (ascii_dec a (lower b)) as [->|Hne].
    + now rewrite Ascii.eqb_refl.
    + apply Ascii.eqb_neq in Hne. now rewrite Hne.
Qed.

Lemma begins_like_url_prefix (s : string) : begins_like_url s = has_url_prefix s.
Proof.
  unfold begins_like_url, has_url_prefix. cbn zeta.
  rewrite !starts_with_ci_prefix; [reflexivity|..];
    intros a Ha; cbn in Ha; cbn [In]; intuition.
Qed.

Lemma regex_test_prefix (s : string) : test_string regex s = has_url_prefix s.
Proof. now rewrite regex_test_begins, begins_like_url_prefix. Qed.

End RegexFacts.

Section UrlFieldFacts.
Import JS UrlFieldJs UrlFieldSpec.

Lemma formattedHref_unfold (this : component) :
  formattedHref this =
  let v := value (this_props this) in
  if ToBoolean v && negb (ToBoolean (websitePath (this_props this))) then
    match ToString v with
    | Normal s =>
        if negb (RegExp.test_string regex s)
        then (Normal (VString ("http://" ++ s)), this)
        else (Normal v, this)
    | Throw e => (Throw e, this)
    end
  else (Normal v, this).
Proof.
  unfold formattedHref, bind, read_props, lift, ret, RegExp.test, http_template.
  cbn zeta.
  destruct (ToBoolean (value (this_props this))
            && negb (ToBoolean (websitePath (this_props this)))); [|reflexivity].
  destruct (ToString (value (this_props this))) as [s|e]; [|reflexivity].
  destruct (RegExp.test_string regex s); reflexivity.
Qed.

Lemma ToString_not_symbol (v : JS.value) :
  (forall d, v <> VSymbol d) -> exists s, ToString v = Normal s.
Proof.
  intros H. destruct v as [| |[|]|n|z|s|d]; cbn [ToString]; eauto.
  now destruct (H d).
Qed.



(** C4, as stated, fails: a Symbol is truthy and cannot be converted
    to a string, so the pattern test throws. *)
Lemma formattedHref_symbol_throws :
  fst (formattedHref (with_props (VSymbol "id") VUndefined))
  = Throw (TypeError "Cannot convert a Symbol value to a string").
Proof. reflexivity. Qed.

(** C4, amended. For every [props.value] that is not a Symbol, strings
    of any shape, numbers, booleans, null, undefined and the empty
    string included, and for every [props.websitePath], evaluating
    [formattedHref] returns a value and does not throw. *)
Theorem formattedHref_never_throws (this : component) :
  (forall d, value (this_props this) <> VSymbol d) ->
  exists r, fst (formattedHref this) = Normal r.
Proof.
  intros H. rewrite formattedHref_unfold; cbn zeta.
  destruct (ToString_not_symbol _ H) as [s ->].
  destruct (_ && _); [|eauto].
  destruct (negb _); eauto.
Qed.

Lemma formattedHref_never_throws_witness :
  exists r, fst (formattedHref (with_props VNull (VNumber NaN))) = Normal r.
Proof.
  apply (formattedHref_never_throws (with_props VNull (VNumber NaN))).
  intros d; discriminate.
Defined.

(** C6. [FormUrlField] assigns its own template and nothing else: every
    other static property and every member of the prototype is the one
    of [UrlField], so [setup] and [formattedHref] do on every component
    what they do for [UrlField], whatever the imported [useInputField]
    does. *)
Theorem FormUrlField_only_changes_template :
  get_static UrlField "template" = Some (SString "web.UrlField")
  /\ get_static FormUrlField "template" = Some (SString "web.FormUrlField")
  /\ own_statics FormUrlField = ["template"]
  /\ own_members FormUrlField = []
  /\ (forall k, k <> "template" ->
                get_static FormUrlField k = get_static UrlField k)
  /\ (forall k, get_member FormUrlField k = get_member UrlField k)
  /\ call_method FormUrlField "setup" = Some setup
  /\ call_method UrlField "setup" = Some setup
  /\ read_getter FormUrlField "formattedHref" = Some formattedHref
  /\ read_getter UrlField "formattedHref" = Some formattedHref
  /\ (forall (im : imports) (this : component),
        option_map (fun m => m im this) (call_method FormUrlField "setup")
        = option_map (fun m => m im this) (call_method UrlField "setup")
        /\ option_map (fun g => g this) (read_getter FormUrlField "formattedHref")
           = option_map (fun g => g this) (read_getter UrlField "formattedHref")).
Proof.
  repeat split.
  intros k Hk. cbn [get_static FormUrlField assoc].
  destruct (String.eqb_spec k "template") as [->|_]; [now destruct Hk|reflexivity].
Qed.

(** C7. [formattedHref] reads [props.value] and [props.websitePath] and
    nothing else, and writes nothing: two components that agree on the
    two props get the same result, and the component is after the
    evaluation what it was before. *)
Theorem formattedHref_deterministic_and_pure (this this' : component) :
  value (this_props this) = value (this_props this') ->
  websitePath (this_props this) = websitePath (this_props this') ->
  fst (formattedHref this) = fst (formattedHref this')
  /\ snd (formattedHref this) = this
  /\ snd (formattedHref this') = this'.
Proof.
  intros Hv Hw. rewrite !formattedHref_unfold; cbn zeta. rewrite Hv, Hw.
  destruct (_ && _); [|now repeat split].
  destruct (ToString _); [|now repeat split].
  destruct (negb _); now repeat split.
Qed.

Lemma formattedHref_deterministic_and_pure_witness :
  fst (formattedHref (with_props (VString "odoo.com") (VBoolean false)))
  = fst (formattedHref
           {| this_props := {| value := VString "odoo.com";
                               websitePath := VBoolean false;
                               placeholder := VString "e.g. https://www.odoo.com";
                               text := VString "Website" |};
              input_field_hooks :=
                [ {| getValue := fun p => or_else (value p) (VString "") |} ] |})
  /\ snd (formattedHref (with_props (VString "odoo.com") (VBoolean false)))
     = with_props (VString "odoo.com") (VBoolean false)
  /\ snd (formattedHref
           {| this_props := {| value := VString "odoo.com";
                               websitePath := VBoolean false;
                               placeholder := VString "e.g. https://www.odoo.com";
                               text := VString "Website" |};
              input_field_hooks :=
                [ {| getValue := fun p => or_else (value p) (VString "") |} ] |})
     = {| this_props := {| value := VString "odoo.com";
                           websitePath := VBoolean false;
                           placeholder := VString "e.g. https://www.odoo.com";
                           text := VString "Website" |};
          input_field_hooks :=
            [ {| getValue := fun p => or_else (value p) (VString "") |} ] |}.
Proof.
  apply formattedHref_deterministic_and_pure; reflexivity.
Defined.

(** C9. When [props.websitePath] is truthy or [props.value] is falsy,
    [formattedHref] returns [props.value] as it is: nothing is put in
    front of it and it is not turned into a string. *)
Theorem formattedHref_identity (this : component) :
  ToBoolean (websitePath (this_props this)) = true
  \/ ToBoolean (value (this_props this)) = false ->
  formattedHref this = (Normal (value (this_props this)), this).
Proof.
  intros H. rewrite formattedHref_unfold; cbn zeta.
  destruct H as [-> | ->]; [rewrite andb_false_r|]; reflexivity.
Qed.

Lemma formattedHref_identity_witness :
  formattedHref (with_props (VNumber (Int 0 eq_refl)) VUndefined)
  = (Normal (VNumber (Int 0 eq_refl)), with_props (VNumber (Int 0 eq_refl)) VUndefined).
Proof.
  apply (formattedHref_identity (with_props (VNumber (Int 0 eq_refl)) VUndefined)).
  right; reflexivity.
Defined.

End UrlFieldFacts.

(* ===================================================================== *)
(** * Properties of minimal_dom.js                                        *)
(* ===================================================================== *)

Section TokenLists.
Import MinimalDomJs.
Local Open Scope list_scope.

Lemma mem_app (t : string) (l l' : list string) :
  mem t (l ++ l') = mem t l || mem t l'.
Proof.
  induction l as [|a l IH]; cbn [mem app]; [reflexivity|].
  now rewrite IH, orb_assoc.
Qed.

Lemma remove_token_app (t : string) (l l' : list string) :
  remove_token t (l ++ l') = remove_token t l ++ remove_token t l'.
Proof.
  induction l as [|a l IH]; cbn [remove_token app]; [reflexivity|].
  destruct (String.eqb t a); cbn [app]; now rewrite IH.
Qed.

Lemma remove_token_length (t : string) (l : list string) :
  length (remove_token t l) <= length l.
Proof.
  induction l as [|a l IH]; cbn [remove_token length]; [lia|].
  destruct (String.eqb t a); cbn [length]; lia.
Qed.

Lemma remove_token_absent (t : string) (l : list string) :
  mem t l = false -> remove_token t l = l.
Proof.
  induction l as [|a l IH]; cbn [mem remove_token]; [reflexivity|].
  destruct (String.eqb t a); cbn [orb]; [discriminate|].
  intros H; now rewrite IH.
Qed.

Lemma remove_token_present (t : string) (l : list string) :
  mem t l = true -> length (remove_token t l) < length l.
Proof.
  induction l as [|a l IH]; cbn [mem remove_token length]; [discriminate|].
  destruct (String.eqb t a); cbn [orb length].
  - intros _. pose proof (remove_token_length t l). lia.
  - intros H. apply IH in H. lia.
Qed.

Lemma remove_token_fixed (t : string) (l : list string) :
  remove_token t l = l <-> mem t l = false.
Proof.
  split; [|apply remove_token_absent].
  intros H. destruct (mem t l) eqn:E; [|reflexivity].
  apply remove_token_present in E. rewrite H in E. lia.
Qed.

Lemma mem_remove_token (t u : string) (l : list string) :
  mem t (remove_token u l) = negb (String.eqb t u) && mem t l.
Proof.
  induction l as [|a l IH]; cbn [mem remove_token].
  - now rewrite andb_false_r.
  - destruct (String.eqb_spec u a) as [->|Hua].
    + rewrite IH. destruct (String.eqb t a); reflexivity.
    + cbn [mem]. rewrite IH.
      destruct (String.eqb_spec t a) as [->|Hta]; cbn [orb]; [|reflexivity].
      destruct (String.eqb_spec a u) as [->|_]; [now destruct Hua|reflexivity].
Qed.

Lemma remove_tokens_add_tokens_2 (t u : string) (l : list string) :
  remove_tokens [t; u] (add_tokens [t; u] l) = remove_tokens [t; u] l.
Proof.
  cbn [remove_tokens add_tokens].
  assert (Hsame : forall x, remove_token x [x] = []).
  { intros x. cbn [remove_token]. now rewrite String.eqb_refl. }
  assert (E1 : remove_token t (if mem t l then l else l ++ [t]) = remove_token t l).
  { destruct (mem t l); [reflexivity|].
    now rewrite remove_token_app, Hsame, app_nil_r. }
  destruct (mem u (if mem t l then l else l ++ [t])).
  - now rewrite E1.
  - rewrite remove_token_app, E1, remove_token_app.
    destruct (String.eqb_spec t u) as [->|Htu].
    + now rewrite Hsame, !app_nil_r.
    + cbn [remove_token]. destruct (String.eqb_spec t u); [contradiction|].
      now rewrite Hsame, !app_nil_r.
Qed.

Lemma remove_tokens_2_fixed (t u : string) (l : list string) :
  remove_tokens [t; u] l = l <-> mem t l = false /\ mem u l = false.
Proof.
  cbn [remove_tokens]. split.
  - intros H.
    assert (Ht : mem t l = false).
    { destruct (mem t l) eqn:E; [|reflexivity].
      apply remove_token_present in E.
      pose proof (remove_token_length u (remove_token t l)).
      rewrite H in *. lia. }
    split; [exact Ht|].
    rewrite (remove_token_absent _ _ Ht) in H. now apply remove_token_fixed.
  - intros [Ht Hu]. now rewrite (remove_token_absent _ _ Ht), (remove_token_absent _ _ Hu).
Qed.

End TokenLists.

Section LoadingEffect.
Import JS MinimalDomJs MinimalDomSpec.
Local Open Scope list_scope.

Lemma lookup_snoc_at {A} (l : list A) (x : A) (n : nat) :
  length l = n -> (l ++ [x]) !! n = Some x.
Proof. intros <-. now rewrite list_lookup_middle. Qed.

Lemma alter_snoc_at {A} (f : A -> A) (l : list A) (x : A) (n : nat) :
  length l = n -> alter f n (l ++ [x]) = l ++ [f x].
Proof.
  intros <-. replace (length l) with (length l + 0) by lia.
  now rewrite alter_app_r.
Qed.

Lemma set_dom_set_dom a b st : set_dom a (set_dom b st) = set_dom a st.
Proof. reflexivity. Qed.

Lemma remove_detached e st el :
  dom st !! e = Some el -> parentElement el = None -> remove e st = (tt, st).
Proof. intros H1 H2. unfold remove, bind, gets. now rewrite H1, H2. Qed.

Lemma remove_attached e st el p :
  dom st !! e = Some el -> parentElement el = Some p ->
  remove e st =
  (tt, set_dom
         (alter (set_parentElement None) e
            (alter (fun el => set_children (remove_first e (children el)) el)
                   p (dom st))) st).
Proof. intros H1 H2. unfold remove, bind, gets. now rewrite H1, H2. Qed.

Lemma has_classList_some e st el cl :
  dom st !! e = Some el -> classList el = Some cl ->
  has_classList e st = (true, st).
Proof. intros H1 H2. unfold has_classList, gets. now rewrite H1, H2. Qed.

Lemma addButtonLoadingEffect_eq st btnEl el cl :
  dom st !! btnEl = Some el -> classList el = Some cl ->
  addButtonLoadingEffect btnEl st =
  (Restore btnEl (length (dom st)),
   set_dom (alter (loading (length (dom st))) btnEl (dom st)
            ++ [set_parentElement (Some btnEl) spinner]) st).
Proof.
  intros Hb Hc. pose proof (lookup_lt_Some _ _ _ Hb) as Hlt.
  unfold addButtonLoadingEffect, bind.
  rewrite (has_classList_some _ _ _ _ Hb Hc). cbn [when].
  unfold classList_add, assign_disabled, createElement, prepend,
    alter_element, modify, bind, ret.
  cbn [dom set_dom].
  rewrite !length_alter, !set_dom_set_dom.
  rewrite (alter_snoc_at _ _ _ (length (dom st))) by now rewrite !length_alter.
  erewrite remove_detached;
    [|cbn [dom set_dom]; apply lookup_snoc_at; now rewrite !length_alter
     |reflexivity].
  cbn [dom set_dom]. rewrite !set_dom_set_dom.
  rewrite (alter_snoc_at _ _ _ (length (dom st))) by now rewrite !length_alter.
  rewrite alter_app_l by now rewrite !length_alter.
  do 2 f_equal. f_equal.
  rewrite !list_alter_alter_eq. apply list_alter_ext; [|reflexivity].
  intros x Hx. reflexivity.
Qed.

Lemma restore_after_effect st btnEl el cl :
  dom st !! btnEl = Some el -> classList el = Some cl ->
  restore btnEl (length (dom st)) (snd (addButtonLoadingEffect btnEl st)) =
  (tt, set_dom (alter restored btnEl (dom st) ++ [spinner]) st).
Proof.
  intros Hb Hc. pose proof (lookup_lt_Some _ _ _ Hb) as Hlt.
  rewrite (addButtonLoadingEffect_eq _ _ _ _ Hb Hc). cbn [snd].
  unfold restore, bind.
  erewrite has_classList_some; cycle 1.
  { cbn [dom set_dom]. rewrite lookup_app_l by now rewrite length_alter.
    rewrite list_lookup_alter_eq, Hb. reflexivity. }
  { cbn [loading classList]. rewrite Hc. reflexivity. }
  cbn [when].
  unfold classList_remove, assign_disabled, alter_element, modify, bind.
  cbn [dom set_dom]. rewrite !set_dom_set_dom.
  erewrite remove_attached; cycle 1.
  { cbn [dom set_dom]. rewrite !alter_app_l by now rewrite ?length_alter.
    apply lookup_snoc_at. now rewrite !length_alter. }
  { reflexivity. }
  cbn [dom set_dom]. rewrite !set_dom_set_dom.
  rewrite !alter_app_l by now rewrite ?length_alter.
  rewrite (alter_snoc_at _ _ _ (length (dom st))) by now rewrite !length_alter.
  rewrite !list_alter_alter_eq. do 3 f_equal.
  apply list_alter_ext; [|reflexivity].
  intros x Hx. rewrite Hb in Hx. injection Hx as <-.
  unfold compose, restored, loading, set_children, set_disabled,
    set_classList; cbn.
  rewrite Hc; cbn [option_map]. rewrite Nat.eqb_refl.
  f_equal. f_equal.
  apply (remove_tokens_add_tokens_2 "o_website_btn_loading" "disabled").
Qed.

Lemma mem_add_tokens_2 (t u : string) (l : list string) :
  mem t (add_tokens [t; u] l) = true /\ mem u (add_tokens [t; u] l) = true.
Proof.
  cbn [add_tokens].
  assert (Ht : mem t (if mem t l then l else l ++ [t]) = true).
  { destruct (mem t l) eqn:E; [exact E|].
    rewrite mem_app. cbn [mem]. now rewrite String.eqb_refl, orb_true_r. }
  destruct (mem u (if mem t l then l else l ++ [t])) eqn:Eu.
  - now split.
  - rewrite !mem_app, Ht. cbn [mem]. rewrite String.eqb_refl.
    now rewrite orb_true_r.
Qed.

Lemma restored_fixed (el : element) (cl : list string) :
  classList el = Some cl ->
  restored el = el <->
  disabled el = Some false
  /\ mem "o_website_btn_loading" cl = false /\ mem "disabled" cl = false.
Proof.
  intros Hc. destruct el as [tg c d p ch]; cbn in Hc; subst c.
  unfold restored; cbn [tagName classList disabled parentElement children option_map].
  rewrite <- (remove_tokens_2_fixed "o_website_btn_loading" "disabled" cl).
  split.
  - intros H. injection H as H1 H2. now split.
  - intros [-> H]. now rewrite H.
Qed.

(** C10. On a button element, [addButtonLoadingEffect] adds the two
    classes, sets [disabled], and puts a new spinner span in front of
    the children; the callback it returns takes the two classes and the
    spinner away and sets [disabled] to false whatever it was; no other
    element and nothing but the document changes.  The button is after
    the two calls what it was before exactly when it had [disabled]
    false and neither of the two classes. *)
Theorem loading_effect_then_restore
        (st : runtime) (btnEl : nat) (el : element) (cl : list string) :
  dom st !! btnEl = Some el ->
  classList el = Some cl ->
  let loaderEl := length (dom st) in
  let st1 := snd (addButtonLoadingEffect btnEl st) in
  let st2 := snd (run_callback (fst (addButtonLoadingEffect btnEl st)) st1) in
  fst (addButtonLoadingEffect btnEl st) = Restore btnEl loaderEl
  /\ dom st1 !! btnEl = Some (loading loaderEl el)
  /\ has_class st1 btnEl "o_website_btn_loading" = true
  /\ has_class st1 btnEl "disabled" = true
  /\ dom st1 !! loaderEl = Some (set_parentElement (Some btnEl) spinner)
  /\ (forall e, e <> btnEl -> e < loaderEl -> dom st1 !! e = dom st !! e)
  /\ st1 = set_dom (dom st1) st
  /\ dom st2 !! btnEl = Some (restored el)
  /\ has_class st2 btnEl "o_website_btn_loading" = false
  /\ has_class st2 btnEl "disabled" = false
  /\ dom st2 !! loaderEl = Some spinner
  /\ (forall e, e <> btnEl -> e < loaderEl -> dom st2 !! e = dom st !! e)
  /\ st2 = set_dom (dom st2) st
  /\ (dom st2 !! btnEl = Some el <->
      disabled el = Some false
      /\ mem "o_website_btn_loading" cl = false
      /\ mem "disabled" cl = false).
Proof.
  intros Hb Hc loaderEl st1 st2.
  pose proof (lookup_lt_Some _ _ _ Hb) as Hlt.
  assert (E1 : st1 = set_dom (alter (loading loaderEl) btnEl (dom st)
                              ++ [set_parentElement (Some btnEl) spinner]) st).
  { subst st1. now rewrite (addButtonLoadingEffect_eq _ _ _ _ Hb Hc). }
  assert (E2 : st2 = set_dom (alter restored btnEl (dom st) ++ [spinner]) st).
  { subst st2 st1. rewrite (addButtonLoadingEffect_eq _ _ _ _ Hb Hc) at 1.
    cbn [fst run_callback].
    now rewrite (restore_after_effect _ _ _ _ Hb Hc). }
  assert (D1 : dom st1 !! btnEl = Some (loading loaderEl el)).
  { rewrite E1; cbn [dom set_dom].
    rewrite lookup_app_l by now rewrite length_alter.
    now rewrite list_lookup_alter_eq, Hb. }
  assert (D2 : dom st2 !! btnEl = Some (restored el)).
  { rewrite E2; cbn [dom set_dom].
    rewrite lookup_app_l by now rewrite length_alter.
    now rewrite list_lookup_alter_eq, Hb. }
  destruct (mem_add_tokens_2 "o_website_btn_loading" "disabled" cl) as [M1 M2].
  split_and!.
  - now rewrite (addButtonLoadingEffect_eq _ _ _ _ Hb Hc).
  - exact D1.
  - unfold has_class, class_mem. rewrite D1. cbn [loading classList]. now rewrite Hc.
  - unfold has_class, class_mem. rewrite D1. cbn [loading classList]. now rewrite Hc.
  - rewrite E1; cbn [dom set_dom]. apply lookup_snoc_at. now rewrite length_alter.
  - intros e Hne Hlt'. rewrite E1; cbn [dom set_dom].
    rewrite lookup_app_l by now rewrite length_alter.
    now rewrite list_lookup_alter_ne by congruence.
  - rewrite E1 at 1. now rewrite E1.
  - exact D2.
  - unfold has_class, class_mem. rewrite D2. cbn [restored classList]. rewrite Hc.
    cbn [option_map remove_tokens]. rewrite !mem_remove_token.
    now destruct (mem _ cl).
  - unfold has_class, class_mem. rewrite D2. cbn [restored classList]. rewrite Hc.
    cbn [option_map remove_tokens]. rewrite !mem_remove_token.
    now destruct (mem _ cl).
  - rewrite E2; cbn [dom set_dom]. apply lookup_snoc_at. now rewrite length_alter.
  - intros e Hne Hlt'. rewrite E2; cbn [dom set_dom].
    rewrite lookup_app_l by now rewrite length_alter.
    now rewrite list_lookup_alter_ne by congruence.
  - rewrite E2 at 1. now rewrite E2.
  - rewrite D2. rewrite <- (restored_fixed el cl Hc).
    split; [now intros [= ->]|now intros ->].
Qed.

Lemma loading_effect_then_restore_witness :
  let st := initial a_page in
  let st1 := snd (addButtonLoadingEffect 0 st) in
  let st2 := snd (run_callback (fst (addButtonLoadingEffect 0 st)) st1) in
  dom st1 !! 0 = Some (loading 2 a_button)
  /\ dom st2 !! 0 = Some a_button.
Proof.
  destruct (loading_effect_then_restore (initial a_page) 0 a_button
              ["btn"; "btn-primary"] eq_refl eq_refl)
    as (_ & H1 & _ & _ & _ & _ & _ & _ & _ & _ & _ & _ & _ & H2).
  split; [exact H1|]. apply H2. now repeat split.
Defined.

End LoadingEffect.

Section LockFacts.
Import JS MinimalDomJs MinimalDomSpec.
Local Open Scope list_scope.

Lemma step_Call k ev body result st :
  step (Call k ev body result) st = snd (call k (user_fct body result) ev st).
Proof. reflexivity. Qed.

Lemma input_nested_ind (P : input -> Prop) :
  (forall fct pd sp, P (MakeAsyncHandler fct pd sp)) ->
  (forall fct, P (MakeButtonHandler fct)) ->
  (forall k ev body result, Forall P body -> P (Call k ev body result)) ->
  (forall p s, P (Settle p s)) ->
  P RunMicrotask ->
  (forall ms, P (Elapse ms)) ->
  (forall i, P (FireTimer i)) ->
  forall i, P i.
Proof.
  intros H1 H2 H3 H4 H5 H6 H7.
  fix IH 1.
  intros [fct pd sp|fct|k ev body result|p s| |ms|i];
    [apply H1|apply H2| |apply H4|apply H5|apply H6|apply H7].
  apply H3.
  exact ((fix go (l : list input) : Forall P l :=
            match l with
            | [] => @List.Forall_nil _ P
            | i :: l' => @List.Forall_cons _ P i l' (IH i) (go l')
            end) body).
Qed.

Ltac fields :=
  cbn [closures next_promise settlements reactions microtasks timers clock dom
       stack log set_closures set_next_promise set_settlements set_reactions
       set_microtasks set_timers set_clock set_dom set_stack set_log fst snd] in *.

Lemma count_app {A} (f : A -> bool) (l l' : list A) :
  count f (l ++ l') = count f l + count f l'.
Proof. induction l as [|a l IH]; cbn [count app]; [reflexivity|]. rewrite IH. lia. Qed.

Lemma view_Inv s s' : lock_view s' = lock_view s -> Inv s -> Inv s'.
Proof.
  unfold lock_view. intros [= Hc Hs Hm Hr Ht Hse Hl] (H1 & H2 & H3).
  unfold Inv, lock_inv, returned_inv, closures_inv, active, unlocks, pending, status in *.
  rewrite Hc, Hs, Hm, Hr, Ht, Hse, Hl. auto.
Qed.

Lemma view_facts s s' k :
  lock_view s' = lock_view s ->
  pending s' k = pending s k /\ unlocks k s' = unlocks k s
  /\ applied k s' = applied k s /\ stack s' = stack s.
Proof.
  unfold lock_view. intros [= Hc Hs Hm Hr Ht Hse Hl].
  unfold unlocks, pending, applied. now rewrite Hc, Hm, Hr, Ht, Hl.
Qed.

Lemma respects_keeps_view {A} (m : R A) : keeps_view m -> respects m.
Proof.
  intros H s HI. specialize (H s). split; [|split].
  - eapply view_Inv; eauto.
  - now destruct (view_facts _ _ 0 H) as (_ & _ & _ & ?).
  - intros k Hp Hu. destruct (view_facts _ _ k H) as (-> & -> & -> & _). auto.
Qed.

Lemma keeps_view_ret {A} (a : A) : keeps_view (ret a).
Proof. now intros s. Qed.

Lemma keeps_view_gets {A} (f : runtime -> A) : keeps_view (gets f).
Proof. now intros s. Qed.

Lemma keeps_view_bind {A B} (m : R A) (f : A -> R B) :
  keeps_view m -> (forall a, keeps_view (f a)) -> keeps_view (bind m f).
Proof.
  intros Hm Hf s. unfold bind. specialize (Hm s). destruct (m s) as [a s'].
  cbn [snd] in Hm. now rewrite Hf.
Qed.

Lemma keeps_view_when (b : bool) (m : R unit) :
  keeps_view m -> keeps_view (when b m).
Proof. destruct b; [auto|apply keeps_view_ret]. Qed.

Lemma keeps_view_alter_element f e : keeps_view (alter_element f e).
Proof. now intros s. Qed.

Lemma keeps_view_remove e : keeps_view (remove e).
Proof.
  unfold remove. apply keeps_view_bind; [apply keeps_view_gets|].
  intros [p|]; [|apply keeps_view_ret].
  apply keeps_view_bind; intros; apply keeps_view_alter_element.
Qed.

Lemma keeps_view_createElement tag : keeps_view (createElement tag).
Proof. now intros s. Qed.

Lemma keeps_view_addButtonLoadingEffect b : keeps_view (addButtonLoadingEffect b).
Proof.
  unfold addButtonLoadingEffect, has_classList, classList_add, assign_disabled, prepend.
  repeat first
    [ apply keeps_view_gets | apply keeps_view_ret | apply keeps_view_when
    | apply keeps_view_alter_element | apply keeps_view_remove
    | apply keeps_view_createElement
    | apply keeps_view_bind; [|intros] ].
Qed.

Lemma keeps_view_restore b l : keeps_view (restore b l).
Proof.
  unfold restore, has_classList, classList_remove, assign_disabled.
  repeat first
    [ apply keeps_view_gets | apply keeps_view_ret | apply keeps_view_when
    | apply keeps_view_alter_element | apply keeps_view_remove
    | apply keeps_view_bind; [|intros] ].
Qed.

Lemma respects_bind {A B} (m : R A) (f : A -> R B) (P : A -> Prop) :
  respects m -> (forall s, P (fst (m s))) -> (forall a, P a -> respects (f a)) ->
  respects (bind m f).
Proof.
  intros Hm HP Hf s HI. unfold bind.
  specialize (Hm s HI). cbn beta in Hm. specialize (HP s).
  destruct (m s) as [a s'].
  cbn [fst snd] in *. destruct Hm as (HI' & Hst & HQ).
  destruct (Hf a HP s' HI') as (HI'' & Hst' & HQ').
  split; [exact HI''|split; [congruence|]].
  intros k Hp Hu. destruct (HQ k Hp Hu) as (Hp' & Hu' & Ha').
  destruct (HQ' k Hp' Hu') as (? & ? & ?). repeat split; congruence.
Qed.

Lemma respects_bind' {A B} (m : R A) (f : A -> R B) :
  respects m -> (forall a, respects (f a)) -> respects (bind m f).
Proof. intros Hm Hf. apply (respects_bind m f (fun _ => True)); auto. Qed.

Lemma respects_ret {A} (a : A) : respects (ret a).
Proof. apply respects_keeps_view, keeps_view_ret. Qed.

Lemma promise_ref_eqb_eq a b : promise_ref_eqb a b = true <-> a = b.
Proof.
  destruct a as [n|n], b as [m|m]; cbn [promise_ref_eqb];
    rewrite ?Nat.eqb_eq; split; intros H; try discriminate; congruence.
Qed.

Lemma promise_ref_eqb_refl a : promise_ref_eqb a a = true.
Proof. now apply promise_ref_eqb_eq. Qed.

Lemma count_jobs_of k p s re :
  count (is_unlock k) (jobs_of p s re)
  + count (fun pr => is_unlock k (reaction_callback (snd pr))) (reactions_without p re)
  <= count (fun pr => is_unlock k (reaction_callback (snd pr))) re.
Proof.
  induction re as [|[q r] re IH]; cbn [jobs_of reactions_without count]; [lia|].
  destruct (promise_ref_eqb p q).
  - destruct r as [cb|cb], s; cbn [reaction_job count snd reaction_callback];
      destruct (is_unlock k cb); lia.
  - cbn [count snd]. destruct (is_unlock k (reaction_callback r)); lia.
Qed.

Lemma In_reactions_without p q r re :
  In (q, r) re -> promise_ref_eqb p q = false -> In (q, r) (reactions_without p re).
Proof.
  induction re as [|[q' r'] re IH]; cbn [reactions_without]; [intros []|].
  intros [Heq|H] Hne.
  - injection Heq as -> ->. rewrite Hne. now left.
  - destruct (promise_ref_eqb p q'); [auto|right; auto].
Qed.

Lemma respects_settle p s : respects (settle p s).
Proof.
  intros st (H1 & H2 & H3). unfold settle, bind, gets, modify, ret; fields.
  destruct (status st p) eqn:E; fields.
  { repeat split; auto. }
  split; [split; [|split]|split].
  - intros k. specialize (H1 k). unfold active, unlocks, pending in *; fields.
    rewrite count_app. pose proof (count_jobs_of k p s (reactions st)). lia.
  - intros k q Hin Hst. unfold status in *; fields. cbn [status_in] in Hst.
    destruct (promise_ref_eqb (UserPromise q) p) eqn:Eq; [discriminate|].
    apply In_reactions_without; auto.
    destruct (promise_ref_eqb p (UserPromise q)) eqn:Eq'; [|reflexivity].
    apply promise_ref_eqb_eq in Eq'. subst p. now rewrite promise_ref_eqb_refl in Eq.
  - exact H3.
  - reflexivity.
  - intros k Hp Hu. split; [exact Hp|]. split; [|reflexivity].
    unfold unlocks in *; fields. rewrite count_app.
    pose proof (count_jobs_of k p s (reactions st)). lia.
Qed.

Lemma respects_register p r :
  not_unlock (reaction_callback r) -> respects (register p r).
Proof.
  intros Hr st (H1 & H2 & H3). unfold register, enqueue, bind, gets, modify, ret; fields.
  assert (Hjob : forall s cb, reaction_job s r = Some cb -> not_unlock cb).
  { intros s cb. destruct r as [c|c], s; cbn; intros [= <-]; exact Hr. }
  destruct (status st p) as [s|] eqn:E; fields.
  - destruct (reaction_job s r) as [cb|] eqn:Ej; fields.
    + specialize (Hjob _ _ Ej).
      split; [split; [|split]|split]; auto.
      * intros k. specialize (H1 k). unfold active, unlocks, pending in *; fields.
        rewrite count_app; cbn [count]. rewrite (Hjob k). lia.
      * intros k Hp Hu. split; [exact Hp|]. split; [|reflexivity].
        unfold unlocks in *; fields. rewrite count_app; cbn [count].
        rewrite (Hjob k). lia.
    + repeat split; auto.
  - split; [split; [|split]|split]; auto.
    + intros k. specialize (H1 k). unfold active, unlocks, pending in *; fields.
      rewrite count_app; cbn [count snd]. rewrite (Hr k). lia.
    + intros k q Hin Hst. unfold status in *; fields.
      apply in_or_app. left. auto.
    + intros k Hp Hu. split; [exact Hp|]. split; [|reflexivity].
      unfold unlocks in *; fields. rewrite count_app; cbn [count snd].
      rewrite (Hr k). lia.
Qed.

Lemma keeps_view_new_promise : keeps_view new_promise.
Proof. now intros s. Qed.

Lemma respects_Promise_resolve x : respects (Promise_resolve x).
Proof.
  destruct x as [v|p]; cbn [Promise_resolve]; [|apply respects_ret].
  apply respects_bind'; [apply respects_keeps_view, keeps_view_new_promise|].
  intros n. apply respects_bind'; [apply respects_settle|intros; apply respects_ret].
Qed.

Lemma respects_setTimeout cb d : not_unlock cb -> respects (setTimeout cb d).
Proof.
  intros Hcb st (H1 & H2 & H3). unfold setTimeout, modify; fields.
  split; [split; [|split]|split]; auto.
  - intros k. specialize (H1 k). unfold active, unlocks, pending in *; fields.
    rewrite count_app; cbn [count snd]. rewrite (Hcb k). lia.
  - intros k Hp Hu. split; [exact Hp|]. split; [|reflexivity].
    unfold unlocks in *; fields. rewrite count_app; cbn [count snd].
    rewrite (Hcb k). lia.
Qed.

Lemma flag_holds_eq f st : flag_holds f st = (fst (flag_holds f st), st).
Proof. now destruct f. Qed.

Lemma async_handler_eq k fct pd sp run ev st :
  exists es, forallb inert es = true /\
  async_handler k fct pd sp run ev st =
  let s1 := set_log (log st ++ es) st in
  if pending st k then (Returned (Plain VUndefined), s1)
  else
    let s2 := set_stack (k :: stack st)
               (set_log (log st ++ es ++ [Applied k fct (ev_id ev)])
                 (set_closures (alter (assign_pending true) k (closures st)) st)) in
    let s4 := set_log (log (snd (run s2)) ++ [Completed k (fst (run s2))])
                (set_stack (tl (stack (snd (run s2)))) (snd (run s2))) in
    match fst (run s2) with
    | Thrown e => (Thrown e, s4)
    | Returned v =>
        (Returned v,
         snd (Promise_finally (fst (Promise_resolve (of_ret v) s4)) (Unlock k)
                (snd (Promise_resolve (of_ret v) s4))))
    end.
Proof.
  exists ((if fst (flag_holds pd st) then [PreventDefault (ev_id ev)] else [])
          ++ (if fst (flag_holds sp st) then [StopPropagation (ev_id ev)] else [])).
  split.
  { destruct (fst (flag_holds pd st)), (fst (flag_holds sp st)); reflexivity. }
  unfold async_handler. unfold bind at 1. rewrite (flag_holds_eq pd st).
  cbn [fst].
  assert (Hsp : forall l, fst (flag_holds sp (set_log l st)) = fst (flag_holds sp st))
    by (intros l; now destruct sp).
  destruct (fst (flag_holds pd st)); cbn [when];
    unfold bind at 1; cbn [emit modify ret];
    unfold bind at 1; rewrite flag_holds_eq; rewrite ?Hsp;
    destruct (fst (flag_holds sp st)); cbn [when fst app];
    unfold bind at 1; cbn [emit modify ret];
    unfold _isLocked, _lock, apply_fct, emit, bind, gets, modify, ret; fields;
    unfold pending; fields;
    (destruct (closures st !! k) as [[f0 p0 s0 [|]|f0]|]; cbn beta iota;
     [ destruct st; unfold set_log; fields;
       rewrite <- ?app_assoc, ?app_nil_r; reflexivity | .. ]);
    unfold set_stack, set_log, set_closures; fields;
    rewrite <- ?app_assoc; cbn [app];
    match goal with |- context [run ?s] => destruct (run s) as [[v|e] s3] end;
    fields; try reflexivity;
    unfold Promise_finally;
    match goal with
    | |- context [Promise_resolve ?x ?s] => destruct (Promise_resolve x s) as [p r]
    end; fields; destruct (register p (OnSettled (Unlock k)) r); reflexivity.
Qed.

Lemma pending_alter (b : bool) (k k' : nat) (s s' : runtime) :
  closures s' = alter (assign_pending b) k (closures s) ->
  pending s' k' =
  if Nat.eqb k k' then
    match closures s !! k with
    | Some (AsyncHandler _ _ _ _) => b
    | _ => false
    end
  else pending s k'.
Proof.
  intros E. unfold pending. rewrite E.
  destruct (Nat.eqb_spec k k') as [<-|Hne].
  - rewrite list_lookup_alter_eq. now destruct (closures s !! k) as [[]|].
  - now rewrite list_lookup_alter_ne.
Qed.

Lemma closures_inv_alter (b : bool) (k : nat) (s s' : runtime) :
  closures s' = alter (assign_pending b) k (closures s) ->
  closures_inv s -> closures_inv s'.
Proof.
  intros E H j fct Hj. rewrite E in *.
  assert (Hj' : closures s !! j = Some (ButtonHandler fct)).
  { destruct (decide (k = j)) as [->|Hne].
    - rewrite list_lookup_alter_eq in Hj.
      destruct (closures s !! j) as [[]|]; cbn in Hj; congruence.
    - now rewrite list_lookup_alter_ne in Hj. }
  destruct (H j fct Hj') as (f & b0 & Hf).
  destruct (decide (k = fct)) as [->|Hne].
  - exists f, b. rewrite list_lookup_alter_eq, Hf. reflexivity.
  - exists f, b0. now rewrite list_lookup_alter_ne.
Qed.

Lemma count_inert k es :
  forallb inert es = true -> count (is_applied k) es = 0.
Proof.
  induction es as [|e es IH]; cbn [forallb count]; [reflexivity|].
  intros [He Hes]%andb_prop. rewrite (IH Hes).
  now destruct e.
Qed.

Lemma In_inert e es :
  forallb inert es = true -> In e es -> inert e = true.
Proof. rewrite forallb_forall. auto. Qed.

Lemma inert_log st es :
  forallb inert es = true -> Inv st ->
  Inv (set_log (log st ++ es) st)
  /\ forall k, applied k (set_log (log st ++ es) st) = applied k st.
Proof.
  intros Hes (H1 & H2 & H3). split; [split; [|split]|].
  - exact H1.
  - intros k p Hin Hst. fields. apply in_app_or in Hin as [Hin|Hin]; [now apply H2|].
    now apply (In_inert _ _ Hes) in Hin.
  - exact H3.
  - intros k. unfold applied; fields. rewrite count_app, (count_inert _ _ Hes). lia.
Qed.

Lemma register_unlock k p s :
  lock_inv s -> closures_inv s ->
  pending s k = true -> active k s = 0 -> unlocks k s = 0 ->
  (forall k' q,
      In (Completed k' (Returned (APromise q))) (log s) ->
      status s (UserPromise q) = None ->
      (k' = k /\ UserPromise q = p)
      \/ In (UserPromise q, OnSettled (Unlock k')) (reactions s)) ->
  let s' := snd (Promise_finally p (Unlock k) s) in
  Inv s' /\ lock_view s' = lock_view (set_reactions (reactions s')
                                         (set_microtasks (microtasks s') s))
  /\ pending s' k = true
  /\ forall k', k' <> k -> unlocks k' s' = unlocks k' s.
Proof.
  intros H1 H3 Hp Ha Hu H2.
  unfold Promise_finally, register, enqueue, bind, gets, modify, ret; fields.
  destruct (status s p) as [x|] eqn:E; cbn [reaction_job]; fields.
  - split; [split; [|split]|split; [|split]]; auto.
    + intros k'. specialize (H1 k'). unfold active, unlocks, pending in *; fields.
      rewrite count_app; cbn [count is_unlock].
      destruct (Nat.eqb_spec k' k) as [->|Hne].
      * rewrite Hp in *. cbn [Nat.b2n] in *. lia.
      * lia.
    + intros k' q Hin Hst. destruct (H2 k' q Hin Hst) as [[-> <-]|Hr]; [|exact Hr].
      unfold status in *. fields. congruence.
    + intros k' Hne. unfold unlocks; fields. rewrite count_app; cbn [count is_unlock].
      destruct (Nat.eqb_spec k' k); [contradiction|lia].
  - split; [split; [|split]|split; [|split]]; auto.
    + intros k'. specialize (H1 k'). unfold active, unlocks, pending in *; fields.
      rewrite count_app; cbn [count is_unlock snd reaction_callback].
      destruct (Nat.eqb_spec k' k) as [->|Hne].
      * rewrite Hp in *. cbn [Nat.b2n] in *. lia.
      * lia.
    + intros k' q Hin Hst. fields. apply in_or_app.
      destruct (H2 k' q Hin Hst) as [[-> <-]|Hr]; [right; now left|now left].
    + intros k' Hne. unfold unlocks; fields.
      rewrite count_app; cbn [count is_unlock snd reaction_callback].
      destruct (Nat.eqb_spec k' k); [contradiction|lia].
Qed.

Lemma async_handler_respects k fct pd sp b run ev st :
  respects run ->
  closures st !! k = Some (AsyncHandler fct pd sp b) ->
  Inv st ->
  let r := async_handler k fct pd sp run ev st in
  respects_at st (snd r)
  /\ (b = true -> applied k (snd r) = applied k st
                  /\ fst r = Returned (Plain VUndefined))
  /\ (b = false -> applied k (snd r) = S (applied k st)
                   /\ pending (snd r) k = true
                   /\ forall e, fst r = Thrown e -> unlocks k (snd r) = 0).
Proof.
  intros Hrun Hcl HI r. subst r.
  destruct (async_handler_eq k fct pd sp run ev st) as (es & Hes & ->).
  assert (Hpend : pending st k = b) by (unfold pending; now rewrite Hcl).
  cbn zeta. rewrite Hpend.
  destruct (inert_log st es Hes HI) as [HI1 Happ1].
  destruct b; cbn [fst snd].
  { split; [|split; [auto|discriminate]].
    split; [exact HI1|split; [reflexivity|]].
    intros k' Hp Hu. repeat split; auto. }
  destruct HI as (H1 & H2 & H3).
  assert (Hk0 : active k st = 0 /\ unlocks k st = 0).
  { specialize (H1 k). rewrite Hpend in H1. cbn in H1. lia. }
  destruct Hk0 as [Hka Hku].
  set (s2 := set_stack (k :: stack st)
               (set_log (log st ++ es ++ [Applied k fct (ev_id ev)])
                  (set_closures (alter (assign_pending true) k (closures st)) st))).
  assert (Hp2 : forall k', pending s2 k' = if Nat.eqb k k' then true else pending st k').
  { intros k'. rewrite (pending_alter true k k' st s2) by reflexivity. now rewrite Hcl. }
  assert (HI2 : Inv s2).
  { split; [|split].
    - intros k'. rewrite Hp2. specialize (H1 k').
      unfold active, unlocks in *; subst s2; fields. cbn [count].
      rewrite (Nat.eqb_sym k' k).
      destruct (Nat.eqb_spec k k') as [<-|Hne]; cbn [Nat.b2n].
      + unfold active, unlocks in Hka, Hku. lia.
      + lia.
    - intros k' q Hin Hst. subst s2; fields. apply H2; [|exact Hst].
      apply in_app_or in Hin as [Hin|Hin]; [exact Hin|].
      apply in_app_or in Hin as [Hin|[Hin|[]]]; [|discriminate].
      now apply (In_inert _ _ Hes) in Hin.
    - now apply (closures_inv_alter true k st s2). }
  destruct (Hrun s2 HI2) as (HI3 & Hst3 & HQ3). cbn beta in *.
  destruct (run s2) as [o s3]. cbn [fst snd] in *.
  assert (Hu2 : forall k', unlocks k' s2 = unlocks k' st) by reflexivity.
  assert (Ha2 : forall k', applied k' s2
                           = (if Nat.eqb k' k then 1 else 0) + applied k' st).
  { intros k'. unfold applied; subst s2; fields.
    rewrite !count_app, (count_inert _ _ Hes). cbn [count is_applied]. lia. }
  destruct (HQ3 k) as (Hp3 & Hu3 & Ha3).
  { rewrite Hp2. now rewrite Nat.eqb_refl. }
  { now rewrite Hu2. }
  rewrite Ha2, Nat.eqb_refl in Ha3.
  set (s4 := set_log (log s3 ++ [Completed k o]) (set_stack (tl (stack s3)) s3)).
  assert (Hst4 : stack s4 = stack st) by (subst s4 s2; fields; now rewrite Hst3).
  destruct HI3 as (H13 & H23 & H33).
  assert (H14 : lock_inv s4).
  { intros k'. specialize (H13 k'). unfold active, unlocks, pending in *.
    subst s4 s2; fields. rewrite Hst3 in *. cbn [tl count] in *. lia. }
  assert (Ha4 : active k s4 = 0).
  { unfold active in *. now rewrite Hst4. }
  assert (HQ4 : forall k', pending st k' = true -> unlocks k' st = 0 ->
                           k' <> k /\ pending s4 k' = true /\ unlocks k' s4 = 0
                           /\ applied k' s4 = applied k' st).
  { intros k' Hp Hu.
    assert (Hne : k' <> k) by (intros ->; congruence).
    split; [exact Hne|].
    destruct (HQ3 k') as (Hp' & Hu' & Ha').
    { rewrite Hp2. destruct (Nat.eqb_spec k k'); congruence. }
    { now rewrite Hu2. }
    split; [exact Hp'|split; [exact Hu'|]].
    rewrite Ha2 in Ha'. destruct (Nat.eqb_spec k' k); [contradiction|].
    unfold applied in *; subst s4; fields. rewrite count_app. cbn [count is_applied].
    lia. }
  assert (Happ4 : applied k s4 = S (applied k st)).
  { unfold applied in *; subst s4; fields. rewrite count_app. cbn [count is_applied]. lia. }
  assert (H24 : forall k' q,
             In (Completed k' (Returned (APromise q))) (log s4) ->
             status s4 (UserPromise q) = None ->
             (k' = k /\ o = Returned (APromise q))
             \/ In (UserPromise q, OnSettled (Unlock k')) (reactions s4)).
  { intros k' q Hin Hst. subst s4; fields.
    apply in_app_or in Hin as [Hin|[Hin|[]]].
    - right. now apply H23.
    - left. injection Hin as <- <-. now split. }
  assert (H34 : closures_inv s4) by exact H33.
  assert (Hp4k : pending s4 k = true) by exact Hp3.
  assert (Hu4k : unlocks k s4 = 0) by exact Hu3.
  clearbody s4.
  destruct o as [[v|q]|e]; cbn [of_ret].
  - (* a plain value *)
    assert (HI4 : Inv s4).
    { split; [exact H14|split; [|exact H34]].
      intros k' q Hin Hst. destruct (H24 k' q Hin Hst) as [[_ ?]|?]; [discriminate|auto]. }
    destruct (respects_Promise_resolve (Value v) s4 HI4) as (HI5 & Hst5 & HQ5).
    cbn beta in *.
    destruct (Promise_resolve (Value v) s4) as [p s5]. cbn [fst snd] in *.
    destruct (HQ5 k Hp4k Hu4k) as (Hp5 & Hu5 & Ha5).
    destruct HI5 as (H15 & H25 & H35).
    destruct (register_unlock k p s5 H15 H35 Hp5) as (HI6 & Hv6 & Hp6 & Hu6); auto.
    { unfold active in *. now rewrite Hst5, Hst4. }
    set (s6 := snd (Promise_finally p (Unlock k) s5)) in *.
    injection Hv6 as Hc6 Hs6 Ht6 Hse6 Hl6. fields.
    split; [|split; [discriminate|]].
    + split; [exact HI6|split; [congruence|]].
      intros k' Hp Hu. destruct (HQ4 k' Hp Hu) as (Hne & Hp4 & Hu4 & Ha4').
      destruct (HQ5 k' Hp4 Hu4) as (Hp5' & Hu5' & Ha5').
      split; [|split].
      * unfold pending in *. now rewrite Hc6.
      * rewrite Hu6 by exact Hne. exact Hu5'.
      * unfold applied in *. rewrite Hl6. congruence.
    + intros _. split; [|split; [exact Hp6|discriminate]].
      unfold applied in *. rewrite Hl6. congruence.
  - (* a promise *)
    cbn [Promise_resolve ret fst snd].
    destruct (register_unlock k (UserPromise q) s4 H14 H34 Hp4k Ha4 Hu4k)
      as (HI6 & Hv6 & Hp6 & Hu6).
    { intros k' q' Hin Hst. destruct (H24 k' q' Hin Hst) as [[-> [= ->]]|?]; auto. }
    set (s6 := snd (Promise_finally (UserPromise q) (Unlock k) s4)) in *.
    injection Hv6 as Hc6 Hs6 Ht6 Hse6 Hl6. fields.
    split; [|split; [discriminate|]].
    + split; [exact HI6|split; [congruence|]].
      intros k' Hp Hu. destruct (HQ4 k' Hp Hu) as (Hne & Hp4 & Hu4 & Ha4').
      split; [|split].
      * unfold pending in *. now rewrite Hc6.
      * rewrite Hu6 by exact Hne. exact Hu4.
      * unfold applied in *. rewrite Hl6. congruence.
    + intros _. split; [|split; [exact Hp6|discriminate]].
      unfold applied in *. rewrite Hl6. congruence.
  - (* an exception *)
    cbn [fst snd].
    split; [|split; [discriminate|]].
    + split; [|split; [exact Hst4|]].
      * split; [exact H14|split; [|exact H34]].
        intros k' q Hin Hst. destruct (H24 k' q Hin Hst) as [[_ ?]|?]; [discriminate|auto].
      * intros k' Hp Hu. destruct (HQ4 k' Hp Hu) as (Hne & Hp4 & Hu4 & Ha4'). auto.
    + intros _. split; [exact Happ4|]. split; [exact Hp4k|]. intros _ _. exact Hu4k.
Qed.

Ltac keeps :=
  repeat first
    [ apply keeps_view_gets | apply keeps_view_ret | apply keeps_view_when
    | apply keeps_view_alter_element | apply keeps_view_remove
    | apply keeps_view_createElement | apply keeps_view_new_promise
    | apply keeps_view_addButtonLoadingEffect | apply keeps_view_restore
    | apply keeps_view_bind; [|intros] ].

Lemma respects_call_async k run ev : respects run -> respects (call_async k run ev).
Proof.
  intros Hrun st HI. unfold call_async, bind, gets; fields.
  destruct (closures st !! k) as [[fct pd sp b|fct]|] eqn:E.
  - now apply (async_handler_respects k fct pd sp b run ev st Hrun E HI).
  - now apply (respects_ret (Returned (Plain VUndefined)) st).
  - now apply (respects_ret (Returned (Plain VUndefined)) st).
Qed.

Lemma not_unlock_Resolver n : not_unlock (Resolver n).
Proof. now intros k. Qed.
Lemma not_unlock_AfterDebounce b r : not_unlock (AfterDebounce b r).
Proof. now intros k. Qed.
Lemma not_unlock_Restore b l : not_unlock (Restore b l).
Proof. now intros k. Qed.

Lemma respects_debounce_delay : respects debounce_delay.
Proof.
  unfold debounce_delay. cbn [DEBOUNCE Nat.eqb].
  apply respects_bind'; [apply respects_keeps_view, keeps_view_new_promise|].
  intros n. apply respects_bind'; [|intros; apply respects_ret].
  apply respects_setTimeout, not_unlock_Resolver.
Qed.

Lemma respects_disable_button result ev : respects (disable_button result ev).
Proof.
  unfold disable_button.
  apply respects_bind'; [apply respects_keeps_view; unfold closest_btn; keeps|].
  intros [b|]; [|apply respects_ret].
  apply respects_bind'; [apply respects_keeps_view; unfold has_classList; keeps|].
  intros has.
  apply respects_bind'; [apply respects_keeps_view; unfold classList_add; keeps|].
  intros _.
  apply respects_bind'; [apply respects_debounce_delay|]. intros d.
  apply respects_bind'; [apply respects_Promise_resolve|]. intros p.
  apply respects_bind'; [|intros; apply respects_ret].
  apply respects_register, not_unlock_AfterDebounce.
Qed.

Lemma respects_button_handler fct run ev :
  respects run -> respects (button_handler fct run ev).
Proof.
  intros Hrun. unfold button_handler.
  apply respects_bind'; [now apply respects_call_async|].
  intros [result|e]; [apply respects_disable_button|apply respects_ret].
Qed.

Lemma respects_call k run ev : respects run -> respects (call k run ev).
Proof.
  intros Hrun st HI. unfold call, bind, gets; fields.
  destruct (closures st !! k) as [[fct pd sp b|fct]|] eqn:E.
  - now apply (async_handler_respects k fct pd sp b run ev st Hrun E HI).
  - now apply (respects_button_handler fct run ev Hrun st).
  - now apply (respects_ret (Returned (Plain VUndefined)) st).
Qed.

Lemma addButtonLoadingEffect_returns b s :
  not_unlock (fst (addButtonLoadingEffect b s)).
Proof.
  unfold addButtonLoadingEffect, bind.
  repeat match goal with
         | |- context [let (_, _) := ?m in _] => destruct m
         end.
  apply not_unlock_Restore.
Qed.

Lemma respects_after_debounce b result : respects (after_debounce b result).
Proof.
  unfold after_debounce.
  apply respects_bind'; [apply respects_keeps_view; unfold has_classList; keeps|].
  intros has.
  apply respects_bind'; [apply respects_keeps_view; unfold classList_remove; keeps|].
  intros _.
  apply (respects_bind _ _ not_unlock);
    [apply respects_keeps_view; keeps|apply addButtonLoadingEffect_returns|].
  intros cb Hcb.
  apply respects_bind'; [apply respects_Promise_resolve|]. intros p.
  now apply respects_register.
Qed.

Lemma run_taken cb s s0 :
  Inv s ->
  closures s0 = closures s -> stack s0 = stack s -> reactions s0 = reactions s ->
  settlements s0 = settlements s -> log s0 = log s ->
  (forall k, unlocks k s0 + (if is_unlock k cb then 1 else 0) = unlocks k s) ->
  respects_at s (snd (run_callback cb s0)).
Proof.
  intros (H1 & H2 & H3) Hc Hs Hr Hse Hl Hu.
  assert (Hnot : not_unlock cb -> Inv s0 /\ forall k, unlocks k s0 = unlocks k s).
  { intros Hcb.
    assert (Hu' : forall k, unlocks k s0 = unlocks k s).
    { intros k. specialize (Hu k). rewrite (Hcb k) in Hu. lia. }
    split; [|exact Hu']. split; [|split].
    - intros k. specialize (H1 k). unfold active, pending in *.
      rewrite Hu', Hc, Hs. exact H1.
    - intros k q. unfold status. rewrite Hl, Hse, Hr. apply H2.
    - intros k f. rewrite Hc. apply H3. }
  assert (Hlift : forall s', not_unlock cb -> respects_at s0 s' -> respects_at s s').
  { intros s' Hcb (HI' & Hst' & HQ'). destruct (Hnot Hcb) as [_ Hu'].
    split; [exact HI'|split; [congruence|]].
    intros k Hp Hk. unfold pending, applied in *. rewrite <- Hc, <- Hl, <- Hu' in *.
    now apply HQ'. }
  destruct cb as [k0|n|b result|b l]; cbn [run_callback].
  - unfold _unlock, modify; fields.
    set (s' := set_closures (alter (assign_pending false) k0 (closures s0)) s0).
    assert (Hp' : forall k, pending s' k
                            = if Nat.eqb k0 k then false else pending s k).
    { intros k. rewrite (pending_alter false k0 k s0 s') by reflexivity.
      unfold pending. rewrite Hc.
      destruct (Nat.eqb k0 k); [|reflexivity]. now destruct (closures s !! k0) as [[]|]. }
    assert (Hu0 : forall k, unlocks k s' + (if Nat.eqb k k0 then 1 else 0) = unlocks k s).
    { intros k. exact (Hu k). }
    split; [split; [|split]|split].
    + intros k. rewrite Hp'. specialize (H1 k). specialize (Hu0 k).
      unfold active in *. subst s'; fields. rewrite Hs.
      rewrite (Nat.eqb_sym k0 k).
      destruct (Nat.eqb k k0); cbn [Nat.b2n].
      * destruct (pending s k); cbn [Nat.b2n] in *; lia.
      * lia.
    + intros k q. unfold status. subst s'; fields. rewrite Hl, Hse, Hr. apply H2.
    + apply (closures_inv_alter false k0 s0 s'); [reflexivity|].
      intros k f. rewrite Hc. apply H3.
    + subst s'; fields. exact Hs.
    + intros k Hp Hk. pose proof (Hu0 k) as Huk.
      assert (Hne : k0 <> k).
      { intros <-. rewrite Nat.eqb_refl in Huk. lia. }
      rewrite Hp'. destruct (Nat.eqb_spec k0 k) as [?|_]; [contradiction|].
      destruct (Nat.eqb_spec k k0) as [?|_]; [now subst|].
      split; [exact Hp|]. split; [lia|].
      unfold applied. subst s'; fields. now rewrite Hl.
  - apply Hlift; [apply not_unlock_Resolver|].
    apply respects_settle. apply Hnot, not_unlock_Resolver.
  - apply Hlift; [apply not_unlock_AfterDebounce|].
    apply respects_after_debounce. apply Hnot, not_unlock_AfterDebounce.
  - apply Hlift; [apply not_unlock_Restore|].
    apply (respects_keeps_view _ (keeps_view_restore b l)).
    apply Hnot, not_unlock_Restore.
Qed.

Lemma respects_run_microtask : respects run_microtask.
Proof.
  intros s HI. unfold run_microtask, bind, gets, modify; fields.
  destruct (microtasks s) as [|cb q] eqn:E.
  { now apply (respects_ret tt s). }
  fields. apply run_taken; auto.
  intros k. unfold unlocks; fields. rewrite E. cbn [count]. lia.
Qed.

Lemma count_delete {A} (f : A -> bool) (l : list A) (i : nat) (x : A) :
  l !! i = Some x ->
  count f (delete i l) + (if f x then 1 else 0) = count f l.
Proof.
  revert i. induction l as [|a l IH]; intros [|i] H; try discriminate.
  - cbn in H. injection H as ->. cbn [count]. change (delete 0 (x :: l)) with l. lia.
  - cbn in H. change (delete (S i) (a :: l)) with (a :: delete i l).
    cbn [count]. specialize (IH i H). lia.
Qed.

Lemma respects_fire_timer i : respects (fire_timer i).
Proof.
  intros s HI. unfold fire_timer, bind, gets, modify; fields.
  destruct (timers s !! i) as [[due cb]|] eqn:E; [|now apply (respects_ret tt s)].
  destruct (Nat.leb due (clock s)); [|now apply (respects_ret tt s)].
  fields. apply run_taken; auto.
  intros k. unfold unlocks; fields.
  pose proof (count_delete (fun t : nat * callback => is_unlock k (snd t))
                           (timers s) i (due, cb) E) as Hd.
  cbn [snd] in Hd. lia.
Qed.

Lemma respects_new_closure c :
  match c with AsyncHandler _ _ _ b => b = false | ButtonHandler f => True end ->
  forall s, Inv s ->
    (match c with
     | ButtonHandler f =>
         exists g b, closures s !! f = Some (AsyncHandler g FlagUndefined FlagUndefined b)
     | _ => True
     end) ->
    respects_at s (snd (new_closure c s)).
Proof.
  intros Hc s (H1 & H2 & H3) Hb. unfold new_closure; fields.
  set (s' := set_closures (closures s ++ [c]) s).
  assert (Hp : forall k, pending s' k = pending s k).
  { intros k. unfold pending. subst s'; fields.
    destruct (Nat.lt_trichotomy k (length (closures s))) as [Hlt|[->|Hgt]].
    - now rewrite lookup_app_l.
    - rewrite list_lookup_middle by reflexivity.
      rewrite (lookup_ge_None_2 (closures s)) by lia.
      destruct c; [now subst|reflexivity].
    - rewrite !lookup_ge_None_2; [reflexivity|lia|].
      rewrite length_app. cbn. lia. }
  split; [split; [|split]|split].
  - intros k. rewrite Hp. exact (H1 k).
  - exact H2.
  - intros k f Hk. subst s'; fields.
    assert (Hf : exists g b,
               closures s !! f = Some (AsyncHandler g FlagUndefined FlagUndefined b)).
    { destruct (Nat.lt_trichotomy k (length (closures s))) as [Hlt|[->|Hgt]].
      - rewrite lookup_app_l in Hk by exact Hlt. eauto.
      - rewrite list_lookup_middle in Hk by reflexivity. injection Hk as ->. exact Hb.
      - rewrite lookup_ge_None_2 in Hk; [discriminate|].
        rewrite length_app. cbn. lia. }
    destruct Hf as (g & b & Hf). exists g, b.
    rewrite lookup_app_l; [exact Hf|]. now apply lookup_lt_Some in Hf.
  - reflexivity.
  - intros k Hk Hu. rewrite Hp. auto.
Qed.

Lemma respects_makeAsyncHandler fct pd sp : respects (makeAsyncHandler fct pd sp).
Proof.
  intros s HI. unfold makeAsyncHandler.
  now apply (respects_new_closure (AsyncHandler fct pd sp false)).
Qed.

Lemma respects_makeButtonHandler fct : respects (makeButtonHandler fct).
Proof.
  intros s HI.
  change (snd (makeButtonHandler fct s))
    with (snd (new_closure (ButtonHandler (length (closures s)))
                 (snd (new_closure
                         (AsyncHandler fct FlagUndefined FlagUndefined false) s)))).
  destruct (respects_new_closure (AsyncHandler fct FlagUndefined FlagUndefined false)
              eq_refl s HI I) as (HI1 & Hs1 & HQ1).
  set (s1 := snd (new_closure _ s)) in *.
  destruct (respects_new_closure (ButtonHandler (length (closures s))) I s1 HI1)
    as (HI2 & Hs2 & HQ2).
  { exists fct, false. subst s1. unfold new_closure; fields.
    now rewrite list_lookup_middle. }
  split; [exact HI2|split; [congruence|]].
  intros k Hp Hu. destruct (HQ1 k Hp Hu) as (Hp1 & Hu1 & Ha1).
  destruct (HQ2 k Hp1 Hu1) as (? & ? & ?). repeat split; congruence.
Qed.

Lemma respects_steps l :
  Forall (fun i => respects_lock (step i)) l -> respects_lock (steps l).
Proof.
  induction 1 as [|i l Hi _ IH]; intros s HI; cbn [steps].
  - split; [exact HI|split; [reflexivity|auto]].
  - destruct (Hi s HI) as (HI1 & Hs1 & HQ1).
    destruct (IH _ HI1) as (HI2 & Hs2 & HQ2).
    split; [exact HI2|split; [congruence|]].
    intros k Hp Hu. destruct (HQ1 k Hp Hu) as (Hp1 & Hu1 & Ha1).
    destruct (HQ2 k Hp1 Hu1) as (? & ? & ?). repeat split; congruence.
Qed.

Lemma respects_user_fct body result :
  respects_lock (steps body) -> respects (user_fct body result).
Proof. intros H s HI. exact (H s HI). Qed.

Lemma respects_step i : respects_lock (step i).
Proof.
  induction i as [fct pd sp|fct|k ev body result IH|p s| |ms|i]
    using input_nested_ind.
  - apply respects_makeAsyncHandler.
  - apply respects_makeButtonHandler.
  - intros s HI. rewrite step_Call.
    apply respects_call; [|exact HI].
    apply respects_user_fct, respects_steps, IH.
  - apply (respects_settle (UserPromise p) s).
  - apply respects_run_microtask.
  - intros s HI. cbn [step]. split; [exact HI|split; [reflexivity|auto]].
  - apply respects_fire_timer.
Qed.

Lemma Inv_initial d : Inv (initial d).
Proof.
  split; [|split].
  - intros k. unfold active, unlocks, pending; cbn. lia.
  - intros k p [].
  - intros k f H. cbn in H. discriminate.
Qed.

Lemma Inv_reachable st : reachable st -> Inv st.
Proof.
  intros (d & l & ->).
  apply (respects_steps l); [|apply Inv_initial].
  apply Forall_forall. intros i _. apply respects_step.
Qed.

Lemma async_handler_result k fct pd sp body result ev st :
  pending st k = false ->
  fst (async_handler k fct pd sp (user_fct body result) ev st) = result.
Proof.
  intros H. destruct (async_handler_eq k fct pd sp (user_fct body result) ev st)
    as (es & _ & ->).
  cbn zeta. rewrite H. unfold user_fct; cbn [fst snd].
  now destruct result.
Qed.

Lemma count_pos {A} (f : A -> bool) (l : list A) (a : A) :
  In a l -> f a = true -> 1 <= count f l.
Proof.
  induction l as [|x l IH]; [intros []|].
  intros [->|H] Hf; cbn [count].
  - rewrite Hf. lia.
  - specialize (IH H Hf). lia.
Qed.

Lemma action_pending_locked k st :
  Inv st -> action_pending k st = true -> pending st k = true.
Proof.
  intros (H1 & H2 & _) H. specialize (H1 k).
  destruct (pending st k); [reflexivity|]. cbn [Nat.b2n] in H1.
  unfold action_pending in H. apply orb_prop in H as [H|H].
  - apply existsb_exists in H as (k' & Hin & Hk). apply Nat.eqb_eq in Hk. subst k'.
    pose proof (count_pos (Nat.eqb k) (stack st) k Hin (Nat.eqb_refl k)).
    unfold active in H1. lia.
  - apply existsb_exists in H as (e & Hin & He).
    destruct e as [| | |k' [[v|p]|e]]; cbn in He; try discriminate.
    apply andb_prop in He as [Hk Hs]. apply Nat.eqb_eq in Hk. subst k'.
    destruct (status st (UserPromise p)) eqn:E; [discriminate|].
    pose proof (H2 k p Hin E) as Hr.
    pose proof (count_pos
                  (fun pr : promise_ref * reaction =>
                     is_unlock k (reaction_callback (snd pr)))
                  (reactions st) _ Hr) as Hc.
    cbn [snd reaction_callback is_unlock] in Hc.
    specialize (Hc (Nat.eqb_refl k)). unfold unlocks in H1. lia.
Qed.

Lemma keeps_log_ret {A} (a : A) : keeps_log (ret a).
Proof. now intros s. Qed.

Lemma keeps_log_bind {A B} (m : R A) (f : A -> R B) :
  keeps_log m -> (forall a, keeps_log (f a)) -> keeps_log (bind m f).
Proof.
  intros Hm Hf s. unfold bind. specialize (Hm s). destruct (m s) as [a s'].
  cbn [snd] in Hm. now rewrite Hf.
Qed.

Lemma keeps_log_view {A} (m : R A) : keeps_view m -> keeps_log m.
Proof. intros H s. specialize (H s). unfold lock_view in H. congruence. Qed.

Lemma keeps_log_settle p x : keeps_log (settle p x).
Proof.
  intros s. unfold settle, bind, gets, modify, ret; cbn [fst snd].
  now destruct (status s p).
Qed.

Lemma keeps_log_register p r : keeps_log (register p r).
Proof.
  intros s. unfold register, enqueue, bind, gets, modify, ret; cbn [fst snd].
  destruct (status s p) as [x|]; [|reflexivity].
  now destruct (reaction_job x r).
Qed.

Lemma keeps_log_Promise_resolve x : keeps_log (Promise_resolve x).
Proof.
  destruct x as [v|p]; cbn [Promise_resolve]; [|apply keeps_log_ret].
  apply keeps_log_bind; [now intros s|]. intros n.
  apply keeps_log_bind; [apply keeps_log_settle|intros; apply keeps_log_ret].
Qed.

Lemma keeps_log_disable_button result ev : keeps_log (disable_button result ev).
Proof.
  unfold disable_button.
  apply keeps_log_bind; [apply keeps_log_view; unfold closest_btn; keeps|].
  intros [b|]; [|apply keeps_log_ret].
  apply keeps_log_bind; [apply keeps_log_view; unfold has_classList; keeps|].
  intros has.
  apply keeps_log_bind; [apply keeps_log_view; unfold classList_add; keeps|].
  intros _.
  apply keeps_log_bind; [now intros s|]. intros d.
  apply keeps_log_bind; [apply keeps_log_Promise_resolve|]. intros p.
  apply keeps_log_bind; [apply keeps_log_register|intros; apply keeps_log_ret].
Qed.

Lemma disable_button_returns result ev s :
  fst (disable_button result ev s) = Returned result.
Proof.
  unfold disable_button, bind.
  destruct (closest_btn ev s) as [[b|] s1]; [|reflexivity].
  repeat match goal with
         | |- context [let (_, _) := ?m in _] => destruct m
         end.
  reflexivity.
Qed.

Lemma async_handler_locked_no_flag k fct run ev st :
  pending st k = true ->
  async_handler k fct FlagUndefined FlagUndefined run ev st
  = (Returned (Plain VUndefined), st).
Proof.
  intros H. unfold async_handler, flag_holds, _isLocked, when, bind, ret, gets.
  now rewrite H.
Qed.

(** C5. A handler made by [makeButtonHandler] closes over an async
    handler made for the user function, with no flags.  At any moment of
    the life of the page, and for any event, a call that arrives while an
    action of that async handler is still going on does not apply the
    user function: it records no effect and returns undefined. *)
Theorem button_handler_guard
        (st : runtime) (k inner : nat)
        (ev : event) (body : list input) (result : outcome) :
  reachable st ->
  closures st !! k = Some (ButtonHandler inner) ->
  let st' := step (Call k ev body result) st in
  (exists fct b,
      closures st !! inner = Some (AsyncHandler fct FlagUndefined FlagUndefined b))
  /\ (action_pending inner st = true ->
      log st' = log st
      /\ applied inner st' = applied inner st
      /\ returns k ev body result st = Returned (Plain VUndefined))
  /\ (forall fct s,
        fst (makeButtonHandler fct s) = S (length (closures s))
        /\ closures (snd (makeButtonHandler fct s))
           = closures s
               ++ [ AsyncHandler fct FlagUndefined FlagUndefined false;
                    ButtonHandler (length (closures s)) ]).
Proof.
  intros Hreach Hcl st'.
  pose proof (Inv_reachable st Hreach) as HI.
  destruct HI as (H1 & H2 & H3).
  destruct (H3 k inner Hcl) as (fct & b & Hin).
  split_and!.
  - eauto.
  - intros Ha.
    assert (Hp : pending st inner = true).
    { apply action_pending_locked; [now repeat split|exact Ha]. }
    assert (E : call k (user_fct body result) ev st
                = disable_button (Plain VUndefined) ev st).
    { unfold call, bind, gets; cbn [fst snd]. rewrite Hcl.
      unfold button_handler, call_async, bind, gets; cbn [fst snd]. rewrite Hin.
      now rewrite (async_handler_locked_no_flag _ _ _ _ _ Hp). }
    assert (Hl : log st' = log st).
    { subst st'. rewrite step_Call, E. apply keeps_log_disable_button. }
    split_and!.
    + exact Hl.
    + unfold applied. now rewrite Hl.
    + unfold returns. rewrite E. apply disable_button_returns.
  - intros f s.
    unfold makeButtonHandler, makeAsyncHandler, new_closure, bind;
      cbn [fst snd closures set_closures].
    split.
    + rewrite length_app. cbn [length]. lia.
    + now rewrite <- app_assoc.
Qed.

Lemma button_handler_guard_witness :
  log (step (Call 1 a_click [] (Returned (Plain (VBoolean true)))) a_busy_button)
  = log a_busy_button
  /\ returns 1 a_click [] (Returned (Plain (VBoolean true))) a_busy_button
     = Returned (Plain VUndefined).
Proof.
  destruct (button_handler_guard a_busy_button 1 0 a_click []
              (Returned (Plain (VBoolean true))))
    as (_ & H & _).
  - exists a_page. eexists. reflexivity.
  - reflexivity.
  - destruct H as (H1 & _ & H2); [reflexivity|]. now split.
Defined.

(** What C8 says of a result that is returned holds: the [_unlock] of
    the handler waits on the result, as a job when the result is not a
    promise or is settled, as a reaction otherwise; a rejection queues
    it as a fulfilment does; and once it has run the handler is free. *)
Lemma unlock_waits_on_result k fct pd sp run ev st v :
  pending st k = false ->
  fst (async_handler k fct pd sp run ev st) = Returned v ->
  let st' := snd (async_handler k fct pd sp run ev st) in
  In (Unlock k) (microtasks st')
  \/ exists p, In (p, OnSettled (Unlock k)) (reactions st').
Proof.
  intros Hp. destruct (async_handler_eq k fct pd sp run ev st) as (es & _ & ->).
  cbn zeta. rewrite Hp.
  destruct (fst (run _)) as [w|e]; cbn [fst snd]; [|discriminate].
  intros _.
  destruct (Promise_resolve (of_ret w) _) as [p s5]. cbn [fst snd].
  unfold Promise_finally, register, enqueue, bind, gets, modify, ret; fields.
  destruct (status s5 p); cbn [reaction_job]; fields.
  - left. apply in_or_app. right. now left.
  - right. exists p. apply in_or_app. right. now left.
Qed.

Lemma settle_queues_unlock k p x s :
  status s p = None ->
  In (p, OnSettled (Unlock k)) (reactions s) ->
  In (Unlock k) (microtasks (snd (settle p x s))).
Proof.
  intros Hs Hin. unfold settle, bind, gets, modify, ret; fields. rewrite Hs. fields.
  apply in_or_app. right.
  induction (reactions s) as [|[q r] re IH]; [destruct Hin|].
  cbn [jobs_of]. destruct Hin as [Heq|Hin].
  - injection Heq as -> ->. rewrite promise_ref_eqb_refl. now left.
  - destruct (promise_ref_eqb p q); [|auto].
    destruct (reaction_job x r); [right|]; auto.
Qed.

Lemma unlock_releases k fct pd sp b s :
  closures s !! k = Some (AsyncHandler fct pd sp b) ->
  pending (snd (run_callback (Unlock k) s)) k = false.
Proof.
  intros H. cbn [run_callback]. unfold _unlock, modify, pending; fields.
  now rewrite list_lookup_alter_eq, H.
Qed.

Example rejected_promise_releases :
  let st := steps [ MakeAsyncHandler 7 FlagUndefined FlagUndefined;
                    Call 0 a_click [] (Returned (APromise 3));
                    Settle 3 Rejected;
                    RunMicrotask ] (initial a_page) in
  pending st 0 = false
  /\ applied 0 (step (Call 0 a_click [] (Returned (Plain VNull))) st) = 2.
Proof. split; reflexivity. Qed.

Example plain_result_releases :
  let st := steps [ MakeAsyncHandler 7 FlagUndefined FlagUndefined;
                    Call 0 a_click [] (Returned (Plain (VBoolean false)));
                    RunMicrotask ] (initial a_page) in
  pending st 0 = false
  /\ applied 0 (step (Call 0 a_click [] (Returned (Plain VNull))) st) = 2.
Proof. split; reflexivity. Qed.

Lemma stuck_forever (st : runtime) (k : nat) (l : list input) :
  Inv st -> pending st k = true -> unlocks k st = 0 ->
  pending (steps l st) k = true /\ applied k (steps l st) = applied k st.
Proof.
  intros HI Hp Hu.
  assert (Hr : respects_lock (steps l)).
  { apply respects_steps, Forall_forall. intros i _. apply respects_step. }
  destruct (Hr st HI) as (_ & _ & HQ). destruct (HQ k Hp Hu) as (? & _ & ?).
  now split.
Qed.

(** C8 fails on the code when the user function throws instead of
    returning: the handler has locked itself before the call and the
    exception leaves it before [Promise.resolve(result).finally(_unlock)]
    is reached.  Whatever happens on the page afterwards, the handler
    stays locked and never applies the function again. *)
Theorem thrown_exception_locks_for_good
        (st : runtime) (k fct : nat) (pd sp : flag)
        (ev : event) (body : list input) (e : JS.value) (l : list input) :
  reachable st ->
  closures st !! k = Some (AsyncHandler fct pd sp false) ->
  let st' := step (Call k ev body (Thrown e)) st in
  returns k ev body (Thrown e) st = Thrown e
  /\ applied k st' = S (applied k st)
  /\ pending (steps l st') k = true
  /\ applied k (steps l st') = applied k st'.
Proof.
  intros Hreach Hcl st'.
  pose proof (Inv_reachable st Hreach) as HI.
  assert (Hrun : respects (user_fct body (Thrown e))).
  { apply respects_user_fct, respects_steps, Forall_forall.
    intros i _. apply respects_step. }
  destruct (async_handler_respects k fct pd sp false (user_fct body (Thrown e)) ev st
              Hrun Hcl HI) as ((HI' & _) & _ & Hf).
  destruct (Hf eq_refl) as (Happ & Hp & Hu).
  assert (Hpend : pending st k = false) by (unfold pending; now rewrite Hcl).
  assert (Eret : returns k ev body (Thrown e) st = Thrown e).
  { unfold returns, call, bind, gets; cbn [fst snd]. rewrite Hcl.
    now apply async_handler_result. }
  assert (Est : st' = snd (async_handler k fct pd sp (user_fct body (Thrown e)) ev st)).
  { subst st'. rewrite step_Call. unfold call, bind, gets; cbn [fst snd].
    now rewrite Hcl. }
  rewrite <- Est in *.
  specialize (Hu e).
  assert (Hu' : unlocks k st' = 0).
  { apply Hu. unfold returns, call, bind, gets in Eret; cbn [fst snd] in Eret.
    now rewrite Hcl in Eret. }
  destruct (stuck_forever st' k l HI' Hp Hu') as [? ?].
  now split_and!.
Qed.

Lemma thrown_exception_locks_for_good_witness :
  pending (steps [RunMicrotask; Elapse 1000; RunMicrotask] a_stuck_page) 0 = true
  /\ applied 0 (steps [RunMicrotask; Elapse 1000; RunMicrotask;
                       Call 0 a_click [] (Returned (Plain VNull))] a_stuck_page) = 1.
Proof.
  split.
  - apply (thrown_exception_locks_for_good
             (steps [MakeAsyncHandler 7 FlagUndefined FlagUndefined] (initial a_page))
             0 7 FlagUndefined FlagUndefined a_click [] (VString "boom")
             [RunMicrotask; Elapse 1000; RunMicrotask]).
    + exists a_page. eexists. reflexivity.
    + reflexivity.
  - reflexivity.
Defined.

End LockFacts.

Section DebounceFacts.
Import JS MinimalDomJs MinimalDomSpec.
Local Open Scope list_scope.

Ltac fields :=
  cbn [closures next_promise settlements reactions microtasks timers clock dom
       stack log set_closures set_next_promise set_settlements set_reactions
       set_microtasks set_timers set_clock set_dom set_stack set_log fst snd] in *.

Lemma view_debounce D b s s' :
  timer_view s' = timer_view s ->
  (has_class s b "pe-none" = true -> has_class s' b "pe-none" = true) ->
  debounce_inv D b s -> debounce_inv D b s'.
Proof.
  unfold timer_view. intros [= Hn Hse Hr Hm Ht Hc] Hcl [HQ HC].
  split.
  - unfold queue_inv in *. rewrite Hn, Hse, Hr, Hm, Ht, Hc. exact HQ.
  - rewrite Hc. auto.
Qed.

Lemma dom_only_keeps {A} D b (m : R A) :
  dom_only b m -> keeps_debounce D b (fun s => snd (m s)).
Proof. intros H s HI. destruct (H s) as [Hv Hc]. eapply view_debounce; eauto. Qed.

Lemma dom_only_ret {A} b (a : A) : dom_only b (ret a).
Proof. now intros s. Qed.

Lemma dom_only_gets {A} b (f : runtime -> A) : dom_only b (gets f).
Proof. now intros s. Qed.

Lemma dom_only_bind {A B} b (m : R A) (f : A -> R B) :
  dom_only b m -> (forall a, dom_only b (f a)) -> dom_only b (bind m f).
Proof.
  intros Hm Hf s. unfold bind. destruct (Hm s) as [Hv Hc].
  destruct (m s) as [a s']. cbn [snd] in *.
  destruct (Hf a s') as [Hv' Hc']. split; [congruence|auto].
Qed.

Lemma dom_only_when b (c : bool) (m : R unit) : dom_only b m -> dom_only b (when c m).
Proof. destruct c; [auto|intros; apply dom_only_ret]. Qed.

Lemma dom_only_alter_element b f e :
  (forall el, class_mem "pe-none" el = true -> class_mem "pe-none" (f el) = true) ->
  dom_only b (alter_element f e).
Proof.
  intros Hf s. split; [reflexivity|].
  unfold alter_element, modify, has_class; fields.
  destruct (decide (e = b)) as [->|Hne].
  - rewrite list_lookup_alter_eq. destruct (dom s !! b); cbn; auto.
  - now rewrite list_lookup_alter_ne.
Qed.

Lemma dom_only_createElement b tag : dom_only b (createElement tag).
Proof.
  intros s. split; [reflexivity|].
  unfold createElement, has_class; fields.
  destruct (dom s !! b) eqn:E; [|discriminate].
  rewrite lookup_app_l; [now rewrite E|]. now apply lookup_lt_Some in E.
Qed.

Lemma dom_only_remove b e : dom_only b (remove e).
Proof.
  unfold remove. apply dom_only_bind; [apply dom_only_gets|].
  intros [p|]; [|apply dom_only_ret].
  apply dom_only_bind; intros; apply dom_only_alter_element; auto.
Qed.

Lemma mem_add_tokens_mono t ts l : mem t l = true -> mem t (add_tokens ts l) = true.
Proof.
  revert l. induction ts as [|u ts IH]; intros l H; cbn [add_tokens]; [exact H|].
  apply IH. destruct (mem u l); [exact H|]. rewrite mem_app, H. reflexivity.
Qed.

Lemma dom_only_classList_add b e ts : dom_only b (classList_add e ts).
Proof.
  apply dom_only_alter_element. intros el. unfold class_mem; cbn.
  destruct (classList el); cbn; [apply mem_add_tokens_mono|auto].
Qed.

Lemma dom_only_assign_disabled b e v : dom_only b (assign_disabled e v).
Proof. apply dom_only_alter_element. auto. Qed.

Ltac dom_only_tac :=
  repeat first
    [ apply dom_only_gets | apply dom_only_ret | apply dom_only_when
    | apply dom_only_classList_add | apply dom_only_assign_disabled
    | apply dom_only_remove | apply dom_only_createElement
    | apply dom_only_alter_element; solve [auto]
    | apply dom_only_bind; [|intros] ].

Lemma dom_only_addButtonLoadingEffect b e : dom_only b (addButtonLoadingEffect e).
Proof. unfold addButtonLoadingEffect, has_classList, prepend. dom_only_tac. Qed.

Lemma dom_only_restore b e l : dom_only b (restore e l).
Proof.
  unfold restore, has_classList. dom_only_tac.
  unfold classList_remove. apply dom_only_alter_element.
  intros el. unfold class_mem; cbn. destruct (classList el) as [cl|]; cbn; [|auto].
  rewrite !mem_remove_token. now cbn.
Qed.

Lemma status_in_In l p x : status_in l p = Some x -> In (p, x) l.
Proof.
  induction l as [|[q y] l IH]; cbn [status_in]; [discriminate|].
  destruct (promise_ref_eqb p q) eqn:E.
  - intros [= ->]. apply promise_ref_eqb_eq in E. subst q. now left.
  - intros H. right. auto.
Qed.

Lemma status_fresh D b s n :
  queue_inv D b s -> next_promise s <= n -> status s (EnginePromise n) = None.
Proof.
  intros (_ & _ & _ & _ & H6 & _) Hn. unfold status.
  destruct (status_in (settlements s) (EnginePromise n)) eqn:E; [|reflexivity].
  apply status_in_In in E. specialize (H6 _ _ E n eq_refl). lia.
Qed.

Lemma In_jobs_of cb p x re :
  In cb (jobs_of p x re) -> exists r, In (p, r) re /\ reaction_callback r = cb.
Proof.
  induction re as [|[q r] re IH]; cbn [jobs_of]; [intros []|].
  destruct (promise_ref_eqb p q) eqn:E.
  - apply promise_ref_eqb_eq in E. subst q.
    destruct (reaction_job x r) as [c|] eqn:Ej.
    + intros [<-|H].
      * exists r. split; [now left|]. destruct r, x; cbn in *; congruence.
      * destruct (IH H) as (r' & ? & ?). exists r'. split; [now right|auto].
    + intros H. destruct (IH H) as (r' & ? & ?). exists r'. split; [now right|auto].
  - intros H. destruct (IH H) as (r' & ? & ?). exists r'. split; [now right|auto].
Qed.

Lemma In_reactions_without_inv p q r re :
  In (q, r) (reactions_without p re) -> In (q, r) re.
Proof.
  induction re as [|[q' r'] re IH]; cbn [reactions_without]; [intros []|].
  destruct (promise_ref_eqb p q').
  - intros H. right. auto.
  - intros [H|H]; [now left|right; auto].
Qed.

Lemma settle_debounce D b p x s :
  debounce_inv D b s ->
  (forall n, p = EnginePromise n -> n < next_promise s) ->
  (clock s < D -> forall r, In (p, r) (reactions s) ->
                            is_after_debounce b (reaction_callback r) = false) ->
  debounce_inv D b (snd (settle p x s)).
Proof.
  intros [(H0 & H1 & H2 & H3 & H6 & H4 & H5) HC] Hp Hr.
  unfold settle, bind, gets, modify, ret; fields.
  destruct (status s p) eqn:E; fields.
  { now split. }
  split; [|exact HC]. unfold queue_inv; fields. split_and!.
  - exact H0.
  - exact H1.
  - intros q r Hin. apply In_reactions_without_inv in Hin. auto.
  - intros cb Hin. apply in_app_or in Hin as [Hin|Hin]; [auto|].
    apply In_jobs_of in Hin as (r & Hin & <-). now apply (H2 p r).
  - intros q y [[= <- <-]|Hin]; [exact Hp|eauto].
  - intros q r Hin Ha. apply In_reactions_without_inv in Hin. eauto.
  - intros Hc cb Hin. apply in_app_or in Hin as [Hin|Hin]; [auto|].
    apply In_jobs_of in Hin as (r & Hin & <-). auto.
Qed.

Lemma register_debounce D b p r s :
  debounce_inv D b s ->
  is_resolver (reaction_callback r) = false ->
  (forall n, p = EnginePromise n -> n < next_promise s) ->
  is_after_debounce b (reaction_callback r) = false ->
  debounce_inv D b (snd (register p r s)).
Proof.
  intros [(H0 & H1 & H2 & H3 & H6 & H4 & H5) HC] Hres Hp Had.
  unfold register, enqueue, bind, gets, modify, ret; fields.
  assert (Hjob : forall x cb, reaction_job x r = Some cb -> cb = reaction_callback r).
  { intros x cb. destruct r, x; cbn; congruence. }
  destruct (status s p) as [x|] eqn:E; fields.
  - destruct (reaction_job x r) as [cb|] eqn:Ej; fields; [|now split].
    apply Hjob in Ej. subst cb.
    split; [|exact HC]. unfold queue_inv; fields. split_and!; auto.
    + intros cb Hin. apply in_app_or in Hin as [Hin|[<-|[]]]; auto.
    + intros Hc cb Hin. apply in_app_or in Hin as [Hin|[<-|[]]]; auto.
  - split; [|exact HC]. unfold queue_inv; fields. split_and!; auto.
    + intros q r' Hin. apply in_app_or in Hin as [Hin|[[= <- <-]|[]]]; auto.
    + intros q r' Hin Ha. apply in_app_or in Hin as [Hin|[Heq|[]]].
      * eauto.
      * injection Heq as <- <-. rewrite Ha in Had. discriminate.
Qed.

Lemma new_promise_debounce D b s :
  debounce_inv D b s -> debounce_inv D b (snd (new_promise s)).
Proof.
  intros [(H0 & H1 & H2 & H3 & H6 & H4 & H5) HC].
  unfold new_promise; fields. split; [|exact HC].
  unfold queue_inv; fields. split_and!; auto.
  - intros due cb Hin. destruct (H1 due cb Hin) as (n & ? & ?). exists n. split; [auto|lia].
  - intros p r Hin. destruct (H2 p r Hin) as [? Hn]. split; [auto|].
    intros n Hp. specialize (Hn n Hp). lia.
  - intros p x Hin n Hp. specialize (H6 p x Hin n Hp). lia.
Qed.

Lemma Promise_resolve_debounce D b x s :
  debounce_inv D b s ->
  (forall n, x = Promise (EnginePromise n) -> n < next_promise s) ->
  debounce_inv D b (snd (Promise_resolve x s))
  /\ (forall n, fst (Promise_resolve x s) = EnginePromise n ->
                n < next_promise (snd (Promise_resolve x s))).
Proof.
  intros HI Hx. destruct x as [v|p]; cbn [Promise_resolve].
  - unfold bind, ret. cbn [new_promise fst snd].
    pose proof (new_promise_debounce D b s HI) as HI1. cbn [new_promise snd] in HI1.
    set (s1 := set_next_promise (S (next_promise s)) s) in *.
    assert (HI2 : debounce_inv D b (snd (settle (EnginePromise (next_promise s)) Fulfilled s1))).
    { apply settle_debounce; [exact HI1| |].
      - intros n [= <-]. subst s1; fields. lia.
      - intros _ r Hin. destruct HI as [(_ & _ & H2 & _) _].
        subst s1; fields. destruct (H2 _ _ Hin) as [_ Hn].
        specialize (Hn _ eq_refl). lia. }
    destruct (settle (EnginePromise (next_promise s)) Fulfilled s1) as [u s2] eqn:E.
    cbn [fst snd] in *. split; [exact HI2|].
    intros n [= <-].
    assert (next_promise s2 = next_promise s1).
    { change s2 with (snd (u, s2)). rewrite <- E.
      unfold settle, bind, gets, modify, ret; cbn [fst snd].
      now destruct (status s1 _). }
    subst s1; fields. lia.
  - cbn [ret fst snd]. split; [exact HI|]. intros n ->. now apply Hx.
Qed.

Lemma closest_from_matches fuel d e b :
  closest_from fuel d e = Some b ->
  exists el, d !! b = Some el /\ matches_btn el = true.
Proof.
  revert e. induction fuel as [|fuel IH]; intros e; cbn [closest_from]; [discriminate|].
  destruct (d !! e) as [el|] eqn:E; [|discriminate].
  destruct (matches_btn el) eqn:M.
  - intros [= <-]. eauto.
  - destruct (parentElement el); [apply IH|discriminate].
Qed.

Lemma closest_btn_matches ev s b :
  fst (closest_btn ev s) = Some b ->
  exists el cl, dom s !! b = Some el /\ classList el = Some cl /\ mem "btn" cl = true.
Proof.
  unfold closest_btn, gets; cbn [fst].
  destruct (ev_target ev); try discriminate.
  intros H. apply closest_from_matches in H as (el & Hel & Hm).
  unfold matches_btn in Hm. destruct (classList el) as [cl|] eqn:E; [|discriminate].
  eauto.
Qed.

Lemma disable_button_eq result ev s b :
  fst (closest_btn ev s) = Some b ->
  status s (EnginePromise (next_promise s)) = None ->
  disable_button result ev s =
  (Returned result,
   set_reactions
     (reactions s ++ [(EnginePromise (next_promise s),
                       OnFulfilled (AfterDebounce b result))])
     (set_timers (timers s ++ [(clock s + DEBOUNCE, Resolver (next_promise s))])
        (set_next_promise (S (next_promise s))
           (set_dom
              (alter (fun el => set_classList
                                  (option_map (add_tokens ["pe-none"]) (classList el)) el)
                     b (dom s)) s)))).
Proof.
  intros Hb Hst. destruct (closest_btn_matches ev s b Hb) as (el & cl & Hel & Hcl & _).
  unfold disable_button. unfold bind at 1.
  assert (E : closest_btn ev s = (Some b, s)).
  { revert Hb. unfold closest_btn, gets; cbn [fst]. now intros ->. }
  rewrite E. unfold bind at 1.
  rewrite (has_classList_some b s el cl Hel Hcl). cbn [when].
  unfold classList_add, alter_element, debounce_delay. cbn [DEBOUNCE Nat.eqb].
  unfold Promise_then, register, new_promise, setTimeout, Promise_resolve,
    bind, modify, gets, ret; fields.
  unfold status in *; fields. now rewrite Hst.
Qed.

Lemma disable_button_none result ev s :
  fst (closest_btn ev s) = None -> disable_button result ev s = (Returned result, s).
Proof.
  intros Hb. unfold disable_button. unfold bind at 1.
  assert (E : closest_btn ev s = (None, s)).
  { revert Hb. unfold closest_btn, gets; cbn [fst]. now intros ->. }
  now rewrite E.
Qed.

Lemma has_class_add s b e :
  has_class s b "pe-none" = true ->
  has_class
    (set_dom (alter (fun el => set_classList
                                 (option_map (add_tokens ["pe-none"]) (classList el)) el)
                    e (dom s)) s) b "pe-none" = true.
Proof.
  intros H. apply (dom_only_classList_add b e ["pe-none"] s). exact H.
Qed.

Lemma disable_button_debounce D b0 result ev s :
  debounce_inv D b0 s -> debounce_inv D b0 (snd (disable_button result ev s)).
Proof.
  intros HI. destruct (fst (closest_btn ev s)) as [b|] eqn:Hb.
  2:{ now rewrite disable_button_none. }
  destruct HI as [HQ HC].
  rewrite (disable_button_eq result ev s b Hb) by (eapply status_fresh; eauto).
  destruct HQ as (H0 & H1 & H2 & H3 & H6 & H4 & H5).
  cbn [snd]. split.
  - unfold queue_inv; fields. split_and!; auto.
    + intros due cb Hin. apply in_app_or in Hin as [Hin|[[= <- <-]|[]]].
      * destruct (H1 due cb Hin) as (n & ? & ?). exists n. split; [auto|lia].
      * eauto.
    + intros p r Hin. apply in_app_or in Hin as [Hin|[[= <- <-]|[]]].
      * destruct (H2 p r Hin) as [? Hn]. split; [auto|].
        intros n Hp. specialize (Hn n Hp). lia.
      * split; [reflexivity|]. intros n [= <-]. lia.
    + intros p x Hin n Hp. specialize (H6 p x Hin n Hp). lia.
    + intros p r Hin Ha. apply in_app_or in Hin as [Hin|[Heq|[]]].
      * destruct (H4 p r Hin Ha) as (n & -> & Hd). exists n. split; [reflexivity|].
        intros due Hin'. apply in_app_or in Hin' as [Hin'|[[= <- <-]|[]]]; [auto|lia].
      * injection Heq as <- <-. exists (next_promise s). split; [reflexivity|].
        intros due Hin'. apply in_app_or in Hin' as [Hin'|[[= <-]|[]]]; [|lia].
        destruct (H1 _ _ Hin') as (n & [= <-] & Hn). lia.
  - fields. intros Hc. apply has_class_add. auto.
Qed.

Lemma disable_button_starts D0 result ev s b :
  debounce_inv D0 b s -> no_debounce b s ->
  fst (closest_btn ev s) = Some b ->
  debounce_inv (clock s + DEBOUNCE) b (snd (disable_button result ev s)).
Proof.
  intros [HQ HC] [Hm Hr] Hb.
  rewrite (disable_button_eq result ev s b Hb) by (eapply status_fresh; eauto).
  destruct (closest_btn_matches ev s b Hb) as (el & cl & Hel & Hcl & _).
  destruct HQ as (H0 & H1 & H2 & H3 & H6 & H4 & H5).
  cbn [snd]. split.
  - unfold queue_inv; fields. split_and!; auto.
    + intros due cb Hin. apply in_app_or in Hin as [Hin|[[= <- <-]|[]]].
      * destruct (H1 due cb Hin) as (n & ? & ?). exists n. split; [auto|lia].
      * eauto.
    + intros p r Hin. apply in_app_or in Hin as [Hin|[[= <- <-]|[]]].
      * destruct (H2 p r Hin) as [? Hn]. split; [auto|].
        intros n Hp. specialize (Hn n Hp). lia.
      * split; [reflexivity|]. intros n [= <-]. lia.
    + intros p x Hin n Hp. specialize (H6 p x Hin n Hp). lia.
    + intros p r Hin Ha. apply in_app_or in Hin as [Hin|[Heq|[]]].
      * rewrite (Hr p r Hin) in Ha. discriminate.
      * injection Heq as <- <-. exists (next_promise s). split; [reflexivity|].
        intros due Hin'. apply in_app_or in Hin' as [Hin'|[[= <-]|[]]]; [|lia].
        destruct (H1 _ _ Hin') as (n & [= <-] & Hn). lia.
  - fields. intros _. unfold has_class, class_mem; fields.
    rewrite list_lookup_alter_eq, Hel. cbn. rewrite Hcl. cbn.
    destruct (mem "pe-none" cl) eqn:E; [exact E|].
    rewrite mem_app, E. reflexivity.
Qed.

Lemma has_class_remove_other s b e :
  e <> b ->
  has_class s b "pe-none" = true ->
  has_class (snd (classList_remove e ["pe-none"] s)) b "pe-none" = true.
Proof.
  intros Hne H. unfold classList_remove, alter_element, modify, has_class; fields.
  now rewrite list_lookup_alter_ne.
Qed.

Lemma after_debounce_debounce D b b' x s :
  debounce_inv D b s -> (b' <> b \/ D <= clock s) ->
  debounce_inv D b (snd (after_debounce b' x s)).
Proof.
  intros HI Hor. unfold after_debounce. unfold bind at 1.
  unfold has_classList at 1, gets.
  set (has := match dom s !! b' with
              | Some el => match classList el with Some _ => true | None => false end
              | None => false
              end).
  unfold bind at 1.
  assert (HI1 : debounce_inv D b (snd (when has (classList_remove b' ["pe-none"]) s))).
  { destruct has; cbn [when]; [|exact HI].
    split; [exact (proj1 HI)|].
    intros Hc. change (clock s < D) in Hc.
    destruct Hor as [Hne|Hle]; [|lia].
    apply has_class_remove_other; [exact Hne|]. now apply HI. }
  destruct (when has (classList_remove b' ["pe-none"]) s) as [u s1]. cbn [snd] in HI1.
  unfold bind at 1.
  pose proof (dom_only_keeps D b _ (dom_only_addButtonLoadingEffect b b') s1 HI1) as HI2.
  cbn beta in HI2.
  assert (Hcb' : exists e l, fst (addButtonLoadingEffect b' s1) = Restore e l).
  { unfold addButtonLoadingEffect, bind.
    repeat match goal with
           | |- context [let (_, _) := ?m in _] => destruct m
           end.
    cbn. eauto. }
  destruct (addButtonLoadingEffect b' s1) as [cb s2]. cbn [fst snd] in *.
  destruct Hcb' as (e & l & ->).
  unfold bind at 1.
  destruct (Promise_resolve_debounce D b (of_ret x) s2 HI2) as [HI3 Hp].
  { intros n. destruct x; discriminate. }
  destruct (Promise_resolve (of_ret x) s2) as [p s3]. cbn [fst snd] in *.
  unfold Promise_finally. apply register_debounce; auto.
Qed.

Lemma run_microtask_debounce D b : keeps_debounce D b (fun s => snd (run_microtask s)).
Proof.
  intros s HI. unfold run_microtask, bind, gets, modify; fields.
  destruct (microtasks s) as [|cb q] eqn:E; [exact HI|]. fields.
  destruct HI as [(H0 & H1 & H2 & H3 & H6 & H4 & H5) HC].
  assert (HI0 : debounce_inv D b (set_microtasks q s)).
  { split; [|exact HC]. unfold queue_inv; fields. rewrite E in *.
    split_and!; auto.
    - intros c Hin. apply H3. now right.
    - intros Hc c Hin. apply H5; [exact Hc|now right]. }
  assert (Hres : is_resolver cb = false) by (apply H3; rewrite E; now left).
  destruct cb as [k|n|b' x|e l]; cbn [run_callback]; try discriminate.
  - exact HI0.
  - apply after_debounce_debounce; [exact HI0|]. fields.
    destruct (Nat.lt_ge_cases (clock s) D) as [Hlt|Hge]; [left|now right].
    assert (Ha : is_after_debounce b (AfterDebounce b' x) = false).
    { apply H5; [exact Hlt|]. rewrite E. now left. }
    cbn in Ha. apply Nat.eqb_neq in Ha. congruence.
  - now apply (dom_only_keeps D b _ (dom_only_restore b e l)).
Qed.

Lemma In_delete {A} (x : A) (i : nat) (l : list A) : In x (delete i l) -> In x l.
Proof.
  revert i. induction l as [|a l IH]; intros [|i]; cbn; auto.
  intros [H|H]; [now left|right; eauto].
Qed.

Lemma fire_timer_debounce D b i : keeps_debounce D b (fun s => snd (fire_timer i s)).
Proof.
  intros s HI. unfold fire_timer, bind, gets, modify; fields.
  destruct (timers s !! i) as [[due cb]|] eqn:E; [|exact HI].
  destruct (Nat.leb due (clock s)) eqn:Hdue; [|exact HI]. fields.
  apply Nat.leb_le in Hdue.
  destruct HI as [(H0 & H1 & H2 & H3 & H6 & H4 & H5) HC].
  assert (Hin : In (due, cb) (timers s)).
  { apply list_elem_of_In. eapply list_elem_of_lookup_2; eauto. }
  destruct (H1 _ _ Hin) as (n & -> & Hn).
  assert (HI0 : debounce_inv D b (set_timers (delete i (timers s)) s)).
  { split; [|exact HC]. unfold queue_inv; fields.
    split_and!; auto.
    - intros d c Hc. apply In_delete in Hc. eauto.
    - intros p r Hr Ha. destruct (H4 p r Hr Ha) as (m & -> & Hd).
      exists m. split; [reflexivity|]. intros d Hc. apply In_delete in Hc. auto. }
  cbn [run_callback]. apply settle_debounce; [exact HI0| |]; fields.
  - intros m [= <-]. exact Hn.
  - intros Hc r Hr. destruct (is_after_debounce b (reaction_callback r)) eqn:Ha; [|reflexivity].
    destruct (H4 _ _ Hr Ha) as (m & [= <-] & Hd). specialize (Hd due Hin). lia.
Qed.

Lemma async_handler_debounce D b k fct pd sp run ev st :
  keeps_debounce D b (fun s => snd (run s)) ->
  debounce_inv D b st ->
  debounce_inv D b (snd (async_handler k fct pd sp run ev st)).
Proof.
  intros Hrun HI.
  destruct (async_handler_eq k fct pd sp run ev st) as (es & _ & ->).
  cbn zeta. destruct (pending st k); [exact HI|].
  set (s2 := set_stack _ _).
  assert (HI2 : debounce_inv D b s2) by exact HI.
  specialize (Hrun s2 HI2). cbn beta in Hrun. clearbody s2.
  destruct (run s2) as [o s3]. cbn [fst snd] in *.
  set (s4 := set_log _ _).
  assert (HI4 : debounce_inv D b s4) by exact Hrun. clearbody s4.
  destruct o as [v|e]; [|exact HI4]. cbn [snd].
  destruct (Promise_resolve_debounce D b (of_ret v) s4 HI4) as [HI5 Hp].
  { intros n. destruct v; discriminate. }
  destruct (Promise_resolve (of_ret v) s4) as [p s5]. cbn [fst snd] in *.
  unfold Promise_finally. apply register_debounce; auto.
Qed.

Lemma call_async_debounce D b k run ev :
  keeps_debounce D b (fun s => snd (run s)) ->
  keeps_debounce D b (fun s => snd (call_async k run ev s)).
Proof.
  intros Hrun st HI. unfold call_async, bind, gets; fields.
  destruct (closures st !! k) as [[fct pd sp p|fct]|]; [|exact HI|exact HI].
  now apply async_handler_debounce.
Qed.

Lemma button_handler_debounce D b fct run ev :
  keeps_debounce D b (fun s => snd (run s)) ->
  keeps_debounce D b (fun s => snd (button_handler fct run ev s)).
Proof.
  intros Hrun st HI. unfold button_handler. unfold bind.
  pose proof (call_async_debounce D b fct run ev Hrun st HI) as HI1. cbn beta in HI1.
  destruct (call_async fct run ev st) as [[v|e] s1]; cbn [snd] in *; [|exact HI1].
  now apply disable_button_debounce.
Qed.

Lemma call_debounce D b k run ev :
  keeps_debounce D b (fun s => snd (run s)) ->
  keeps_debounce D b (fun s => snd (call k run ev s)).
Proof.
  intros Hrun st HI. unfold call, bind, gets; fields.
  destruct (closures st !! k) as [[fct pd sp p|fct]|]; [| |exact HI].
  - now apply async_handler_debounce.
  - now apply button_handler_debounce.
Qed.

Lemma steps_debounce D b l :
  Forall (fun i => keeps_debounce D b (step i)) l -> keeps_debounce D b (steps l).
Proof.
  induction 1 as [|i l Hi _ IH]; intros s HI; cbn [steps]; [exact HI|].
  apply IH, Hi, HI.
Qed.

Lemma step_debounce D b i : keeps_debounce D b (step i).
Proof.
  induction i as [fct pd sp|fct|k ev body result IH|p x| |ms|i]
    using input_nested_ind.
  - intros s HI. exact HI.
  - intros s HI. exact HI.
  - intros s HI. rewrite step_Call. apply call_debounce; [|exact HI].
    intros s' HI'. now apply (steps_debounce D b body).
  - intros s HI. cbn [step]. apply settle_debounce; [exact HI|discriminate|].
    intros _ r Hr. destruct (is_after_debounce b (reaction_callback r)) eqn:Ha; [|reflexivity].
    destruct HI as [(_ & _ & _ & _ & _ & H4 & _) _].
    destruct (H4 _ _ Hr Ha) as (n & [=] & _).
  - apply run_microtask_debounce.
  - intros s [(H0 & H1 & H2 & H3 & H6 & H4 & H5) HC]. cbn [step].
    split; [|fields; intros Hc; apply HC; lia].
    unfold queue_inv; fields. split_and!; auto; [lia|].
    intros Hc. apply H5. lia.
  - apply fire_timer_debounce.
Qed.

Lemma debounce_initial b d : debounce_inv 0 b (initial d).
Proof.
  split; [|cbn; lia].
  unfold queue_inv; cbn. split_and!; try (intros; contradiction); try lia.
Qed.

Lemma debounce_reachable b st : reachable st -> debounce_inv 0 b st.
Proof.
  intros (d & l & ->). apply steps_debounce; [|apply debounce_initial].
  apply Forall_forall. intros i _. apply step_debounce.
Qed.

Lemma adds_no_class_ret {A} b (a : A) : adds_no_class b (ret a).
Proof. now intros s. Qed.

Lemma adds_no_class_gets {A} b (f : runtime -> A) : adds_no_class b (gets f).
Proof. now intros s. Qed.

Lemma adds_no_class_bind {A B} b (m : R A) (f : A -> R B) :
  adds_no_class b m -> (forall a, adds_no_class b (f a)) -> adds_no_class b (bind m f).
Proof.
  intros Hm Hf s H. unfold bind. specialize (Hm s H).
  destruct (m s) as [a s']. cbn [snd] in *. now apply Hf.
Qed.

Lemma adds_no_class_when b (c : bool) (m : R unit) :
  adds_no_class b m -> adds_no_class b (when c m).
Proof. destruct c; [auto|intros; apply adds_no_class_ret]. Qed.

Lemma adds_no_class_alter_element b f e :
  (forall el, class_mem "pe-none" el = false -> class_mem "pe-none" (f el) = false) ->
  adds_no_class b (alter_element f e).
Proof.
  intros Hf s. unfold alter_element, modify, has_class; fields.
  destruct (decide (e = b)) as [->|Hne].
  - rewrite list_lookup_alter_eq. destruct (dom s !! b); cbn; auto.
  - now rewrite list_lookup_alter_ne.
Qed.

Lemma adds_no_class_createElement b tag : adds_no_class b (createElement tag).
Proof.
  intros s. unfold createElement, has_class; fields.
  destruct (Nat.lt_trichotomy b (length (dom s))) as [Hlt|[->|Hgt]].
  - now rewrite lookup_app_l.
  - now rewrite list_lookup_middle.
  - intros _. rewrite lookup_ge_None_2; [reflexivity|].
    rewrite length_app. cbn. lia.
Qed.

Lemma adds_no_class_remove b e : adds_no_class b (remove e).
Proof.
  unfold remove. apply adds_no_class_bind; [apply adds_no_class_gets|].
  intros [p|]; [|apply adds_no_class_ret].
  apply adds_no_class_bind; intros; apply adds_no_class_alter_element; auto.
Qed.

Lemma mem_add_tokens_other t ts l :
  mem t ts = false -> mem t (add_tokens ts l) = mem t l.
Proof.
  revert l. induction ts as [|u ts IH]; intros l H; cbn [add_tokens]; [reflexivity|].
  cbn [mem] in H. apply orb_false_elim in H as [Hu Hts].
  rewrite (IH _ Hts). destruct (mem u l); [reflexivity|].
  rewrite mem_app. cbn [mem]. rewrite Hu. now rewrite !orb_false_r.
Qed.

Lemma adds_no_class_classList_add b e ts :
  mem "pe-none" ts = false -> adds_no_class b (classList_add e ts).
Proof.
  intros Hts. apply adds_no_class_alter_element. intros el. unfold class_mem; cbn.
  destruct (classList el); cbn; [|auto]. now rewrite mem_add_tokens_other.
Qed.

Lemma adds_no_class_addButtonLoadingEffect b e :
  adds_no_class b (addButtonLoadingEffect e).
Proof.
  unfold addButtonLoadingEffect, has_classList, prepend, assign_disabled.
  repeat first
    [ apply adds_no_class_gets | apply adds_no_class_ret | apply adds_no_class_when
    | apply adds_no_class_classList_add; reflexivity
    | apply adds_no_class_remove | apply adds_no_class_createElement
    | apply adds_no_class_alter_element; solve [auto]
    | apply adds_no_class_bind; [|intros] ].
Qed.

Lemma dom_settle p x s : dom (snd (settle p x s)) = dom s.
Proof.
  unfold settle, bind, gets, modify, ret; cbn [fst snd]. now destruct (status s p).
Qed.

Lemma dom_register p r s : dom (snd (register p r s)) = dom s.
Proof.
  unfold register, enqueue, bind, gets, modify, ret; cbn [fst snd].
  destruct (status s p) as [x|]; [|reflexivity]. now destruct (reaction_job x r).
Qed.

Lemma dom_Promise_resolve x s : dom (snd (Promise_resolve x s)) = dom s.
Proof.
  destruct x as [v|p]; cbn [Promise_resolve]; [|reflexivity].
  unfold bind, ret. cbn [new_promise].
  destruct (settle _ _ _) as [u s2] eqn:E. cbn [snd].
  change s2 with (snd (u, s2)). rewrite <- E. now rewrite dom_settle.
Qed.

(** The function given to [.then] takes the class away, whatever the
    state of the page and of the action. *)
Lemma after_debounce_removes b x s :
  has_class (snd (after_debounce b x s)) b "pe-none" = false.
Proof.
  unfold after_debounce. unfold bind at 1. unfold has_classList at 1, gets.
  unfold bind at 1.
  assert (H1 : has_class
                 (snd (when match dom s !! b with
                            | Some el => match classList el with
                                         | Some _ => true | None => false end
                            | None => false
                            end (classList_remove b ["pe-none"]) s)) b "pe-none" = false).
  { unfold has_class, class_mem.
    destruct (dom s !! b) as [el|] eqn:E; cbn [when ret snd]; [|now rewrite E].
    destruct (classList el) as [cl|] eqn:Ec; cbn [when ret snd]; [|now rewrite E, Ec].
    unfold classList_remove, alter_element, modify; fields.
    rewrite list_lookup_alter_eq, E. cbn. rewrite Ec. cbn.
    rewrite mem_remove_token. now cbn. }
  destruct (when _ _ s) as [u s1]. cbn [snd] in H1.
  unfold bind at 1.
  pose proof (adds_no_class_addButtonLoadingEffect b b s1 H1) as H2.
  destruct (addButtonLoadingEffect b s1) as [cb s2]. cbn [snd] in H2.
  unfold bind at 1.
  pose proof (dom_Promise_resolve (of_ret x) s2) as H3.
  destruct (Promise_resolve (of_ret x) s2) as [p s3]. cbn [snd] in H3.
  unfold Promise_finally, has_class in *. now rewrite dom_register, H3.
Qed.

Lemma In_jobs_of_intro p x r cb re :
  In (p, r) re -> reaction_job x r = Some cb -> In cb (jobs_of p x re).
Proof.
  induction re as [|[q r'] re IH]; cbn [jobs_of]; [intros []|].
  intros [Heq|Hin] Hj.
  - injection Heq as -> ->. rewrite promise_ref_eqb_refl, Hj. now left.
  - destruct (promise_ref_eqb p q); [|auto].
    destruct (reaction_job x r'); [right|]; auto.
Qed.

(** Firing the timer of a debounce queues the function given to
    [.then]. *)
Lemma fire_timer_queues i due n b x s :
  timers s !! i = Some (due, Resolver n) ->
  due <= clock s ->
  status s (EnginePromise n) = None ->
  In (EnginePromise n, OnFulfilled (AfterDebounce b x)) (reactions s) ->
  In (AfterDebounce b x) (microtasks (step (FireTimer i) s)).
Proof.
  intros Ht Hd Hs Hr. cbn [step].
  unfold fire_timer, bind, gets, modify; fields. rewrite Ht.
  apply Nat.leb_le in Hd. rewrite Hd. fields. cbn [run_callback].
  unfold settle, bind, gets, modify, ret; fields.
  unfold status in *; fields. rewrite Hs. fields.
  apply in_or_app. right. eapply In_jobs_of_intro; eauto.
Qed.

Lemma call_async_returns st inner fct b0 ev body r :
  closures st !! inner = Some (AsyncHandler fct FlagUndefined FlagUndefined b0) ->
  exists r', fst (call_async inner (user_fct body (Returned r)) ev st) = Returned r'.
Proof.
  intros Hin. unfold call_async, bind, gets; cbn [fst snd]. rewrite Hin.
  destruct b0.
  - rewrite async_handler_locked_no_flag; [eauto|].
    unfold pending. now rewrite Hin.
  - rewrite async_handler_result; [eauto|]. unfold pending. now rewrite Hin.
Qed.

Lemma disable_button_adds result ev s b :
  fst (closest_btn ev s) = Some b ->
  status s (EnginePromise (next_promise s)) = None ->
  has_class (snd (disable_button result ev s)) b "pe-none" = true.
Proof.
  intros Hb Hst. rewrite (disable_button_eq result ev s b Hb Hst).
  destruct (closest_btn_matches ev s b Hb) as (el & cl & Hel & Hcl & _).
  unfold has_class, class_mem; fields.
  rewrite list_lookup_alter_eq, Hel. cbn. rewrite Hcl. cbn.
  destruct (mem "pe-none" cl) eqn:E; [exact E|].
  rewrite mem_app, E. reflexivity.
Qed.

(** C3, amended. A handler made by [makeButtonHandler] is called, at any
    moment of the life of the page, the user function returns (or is
    not applied, the handler being locked), and the target of the event
    is inside a button [b], or is one.  Then the handler returns what
    the async handler returned; [b] carries the class [pe-none] when it
    returns; a timer due [DEBOUNCE] = 400 ms later has been set, and the
    function given to [.then] waits on the promise that timer resolves,
    a promise nothing else settles; when the timer fires that function
    is queued, and when it runs it takes the class from [b], whatever
    the state of the page and of the action then.  If no debounce of
    [b] was under way when the button was looked up, [b] carries the
    class as long as less than 400 ms have passed, whatever happens on
    the page. *)
Theorem button_handler_debounces
        (st : runtime) (k inner : nat) (ev : event) (body : list input)
        (r : ret_value) (b : nat) :
  reachable st ->
  closures st !! k = Some (ButtonHandler inner) ->
  let s1 := snd (call_async inner (user_fct body (Returned r)) ev st) in
  let st' := step (Call k ev body (Returned r)) st in
  let P := next_promise s1 in
  fst (closest_btn ev s1) = Some b ->
  exists r',
    returns k ev body (Returned r) st = Returned r'
    /\ has_class st' b "pe-none" = true
    /\ DEBOUNCE = 400
    /\ timers st' = timers s1 ++ [(clock s1 + DEBOUNCE, Resolver P)]
    /\ reactions st'
       = reactions s1 ++ [(EnginePromise P, OnFulfilled (AfterDebounce b r'))]
    /\ status st' (EnginePromise P) = None
    /\ (forall s i due,
          timers s !! i = Some (due, Resolver P) ->
          due <= clock s ->
          status s (EnginePromise P) = None ->
          In (EnginePromise P, OnFulfilled (AfterDebounce b r')) (reactions s) ->
          In (AfterDebounce b r') (microtasks (step (FireTimer i) s)))
    /\ (forall s, has_class (snd (run_callback (AfterDebounce b r') s)) b "pe-none"
                  = false)
    /\ (no_debounce b s1 ->
        forall l, clock (steps l st') < clock s1 + DEBOUNCE ->
                  has_class (steps l st') b "pe-none" = true).
Proof.
  intros Hreach Hcl s1 st' P Hb.
  pose proof (Inv_reachable st Hreach) as (_ & _ & H3).
  destruct (H3 k inner Hcl) as (fct & b0 & Hin).
  destruct (call_async_returns st inner fct b0 ev body r Hin) as (r' & Hr').
  assert (Hrun : keeps_debounce 0 b (fun s => snd (user_fct body (Returned r) s))).
  { intros s HI. apply (steps_debounce 0 b body); [|exact HI].
    apply Forall_forall. intros i _. apply step_debounce. }
  assert (HI1 : debounce_inv 0 b s1).
  { apply (call_async_debounce 0 b inner _ ev Hrun st).
    now apply debounce_reachable. }
  assert (Hfresh : status s1 (EnginePromise P) = None).
  { eapply status_fresh; [exact (proj1 HI1)|]. subst P. lia. }
  assert (E : call k (user_fct body (Returned r)) ev st = disable_button r' ev s1).
  { unfold call, bind, gets; cbn [fst snd]. rewrite Hcl.
    unfold button_handler, bind. subst s1.
    destruct (call_async inner (user_fct body (Returned r)) ev st) as [o s1].
    cbn [fst snd] in *. now subst o. }
  assert (Est : st' = snd (disable_button r' ev s1)).
  { subst st'. now rewrite step_Call, E. }
  pose proof (disable_button_eq r' ev s1 b Hb Hfresh) as Eq.
  exists r'. split_and!.
  - unfold returns. now rewrite E, Eq.
  - rewrite Est. now apply disable_button_adds.
  - reflexivity.
  - rewrite Est, Eq. reflexivity.
  - rewrite Est, Eq. reflexivity.
  - rewrite Est, Eq. exact Hfresh.
  - intros s i due. apply fire_timer_queues.
  - intros s. apply after_debounce_removes.
  - intros Hno l Hl.
    assert (HIs : debounce_inv (clock s1 + DEBOUNCE) b st').
    { rewrite Est. now apply (disable_button_starts 0). }
    assert (HIl : debounce_inv (clock s1 + DEBOUNCE) b (steps l st')).
    { apply steps_debounce; [|exact HIs].
      apply Forall_forall. intros i _. apply step_debounce. }
    now apply HIl.
Qed.

Lemma button_handler_debounces_witness :
  has_class a_busy_button 0 "pe-none" = true
  /\ timers a_busy_button = [(400, Resolver 0)]
  /\ has_class (steps [RunMicrotask; Elapse 399; RunMicrotask; FireTimer 0]
                      a_busy_button) 0 "pe-none" = true.
Proof.
  destruct (button_handler_debounces
              (steps [MakeButtonHandler 7] (initial a_page)) 1 0 a_click []
              (APromise 3) 0)
    as (r' & _ & H1 & _ & H2 & _ & _ & _ & _ & H3).
  - exists a_page. eexists. reflexivity.
  - reflexivity.
  - reflexivity.
  - split; [exact H1|]. split; [exact H2|].
    apply H3.
    + split; [intros cb []|]. intros p rr [Heq|[]]. now injection Heq as <- <-.
    + apply Nat.ltb_lt. vm_compute. reflexivity.
Defined.

(** C3, as stated, fails in two ways.  When the user function throws,
    the exception leaves the handler before the button is looked up: the
    class is not added and no timer is set.  And when the handler is
    called again while the timer of an earlier call on the same button
    is running, the class goes when that earlier timer fires, here 100 ms
    after the second call. *)
Lemma button_not_always_debounced :
  (fst (closest_btn a_click a_failed_click) = Some 0
   /\ returns 1 a_click [] (Thrown (VString "boom"))
              (steps [MakeButtonHandler 7] (initial a_page))
      = Thrown (VString "boom")
   /\ has_class a_failed_click 0 "pe-none" = false
   /\ timers a_failed_click = [])
  /\ (clock a_second_click = 400
      /\ timers a_second_click = [(700, Resolver 1)]
      /\ has_class a_second_click 0 "pe-none" = false).
Proof. repeat split. Qed.

End DebounceFacts.

(* ===================================================================== *)
(** * More of url_field.js: the href and the input value                  *)
(* ===================================================================== *)

Section MoreUrlFieldFacts.
Import JS RegExp UrlFieldJs UrlFieldSpec.

Lemma begins_like_url_http (s : string) : begins_like_url ("http://" ++ s) = true.
Proof. vm_compute. reflexivity. Qed.

Lemma http_nonempty (s : string) : ToBoolean (VString ("http://" ++ s)) = true.
Proof. reflexivity. Qed.

Lemma has_url_prefix_http (s : string) : has_url_prefix ("http://" ++ s) = true.
Proof. now rewrite <- begins_like_url_prefix, begins_like_url_http. Qed.

(** X1. For a non-empty string in [props.value] and a falsy
    [props.websitePath], the href [formattedHref] gives is the value
    itself when the value, put in lower case, begins with [http://],
    [https://], [ftp://], [ftps://] or [/], and the value behind
    [http://] otherwise; either way the href begins with one of the
    five.  A value such as [javascript:alert(1)] so comes out as
    [http://javascript:alert(1)]. *)
Theorem formattedHref_begins_like_url (this : component) (s : string) :
  value (this_props this) = VString s ->
  s <> "" ->
  ToBoolean (websitePath (this_props this)) = false ->
  fst (formattedHref this)
  = Normal (VString (if has_url_prefix s then s else "http://" ++ s))
  /\ has_url_prefix (if has_url_prefix s then s else "http://" ++ s) = true.
Proof.
  intros Hv Hs Hw. rewrite formattedHref_unfold. cbn zeta.
  rewrite Hv, Hw. cbn [ToBoolean ToString].
  destruct s as [|c s]; [congruence|]. cbn [string_is_empty negb andb].
  rewrite regex_test_prefix.
  destruct (has_url_prefix (String c s)) eqn:Hb; cbn [negb fst].
  - split; [reflexivity|exact Hb].
  - split; [reflexivity|apply has_url_prefix_http].
Qed.

Lemma formattedHref_begins_like_url_witness :
  fst (formattedHref (with_props (VString "javascript:alert(1)") VUndefined))
  = Normal (VString "http://javascript:alert(1)")
  /\ has_url_prefix "http://javascript:alert(1)" = true.
Proof.
  apply (formattedHref_begins_like_url
           (with_props (VString "javascript:alert(1)") VUndefined)
           "javascript:alert(1)").
  - reflexivity.
  - discriminate.
  - reflexivity.
Defined.

(** X2. Formatting twice is formatting once: when [formattedHref]
    returns [r], the component with [r] as its [props.value] and the
    other props as they are gets [r] again, and is left as it is. *)
Theorem formattedHref_idempotent (this : component) (r : JS.value) :
  fst (formattedHref this) = Normal r ->
  formattedHref (set_value r this) = (Normal r, set_value r this).
Proof.
  intros H. rewrite formattedHref_unfold in H. cbn zeta in H.
  rewrite formattedHref_unfold. cbn zeta.
  change (value (this_props (set_value r this))) with r.
  change (websitePath (this_props (set_value r this)))
    with (websitePath (this_props this)).
  destruct (ToBoolean (websitePath (this_props this))) eqn:Hw.
  { now rewrite andb_false_r. }
  rewrite andb_true_r in *. cbn [negb] in *.
  destruct (ToBoolean (value (this_props this))) eqn:Hv.
  2:{ cbn [fst] in H. assert (r = value (this_props this)) as -> by congruence.
      now rewrite Hv. }
  destruct (ToString (value (this_props this))) as [s|e] eqn:Hs;
    [|cbn in H; discriminate].
  destruct (test_string regex s) eqn:Ht; cbn [negb fst] in H.
  - assert (r = value (this_props this)) as -> by congruence.
    now rewrite Hv, Hs, Ht.
  - assert (r = VString ("http://" ++ s)) as -> by congruence.
    rewrite http_nonempty. cbn [ToString].
    now rewrite regex_test_begins, begins_like_url_http.
Qed.

Lemma formattedHref_idempotent_witness :
  formattedHref (set_value (VString "http://odoo.com")
                           (with_props (VString "odoo.com") VUndefined))
  = (Normal (VString "http://odoo.com"),
     set_value (VString "http://odoo.com")
               (with_props (VString "odoo.com") VUndefined)).
Proof.
  apply (formattedHref_idempotent (with_props (VString "odoo.com") VUndefined)).
  vm_compute. reflexivity.
Defined.

Lemma canonicalize_idem (c : ascii) :
  canonicalize true (canonicalize true c) = canonicalize true c.
Proof. destruct c as [[] [] [] [] [] [] [] []]; reflexivity. Qed.

Lemma char_matches_upcase (a b : ascii) :
  char_matches true a (canonicalize true b) = char_matches true a b.
Proof. unfold char_matches. now rewrite canonicalize_idem. Qed.

Lemma starts_with_ci_upcase (p s : string) :
  starts_with_ci p (upcase s) = starts_with_ci p s.
Proof.
  revert s. induction p as [|a p IH]; intros [|b s]; cbn [starts_with_ci upcase];
    try reflexivity.
  now rewrite char_matches_upcase, IH.
Qed.

Lemma begins_like_url_upcase (s : string) :
  begins_like_url (upcase s) = begins_like_url s.
Proof. unfold begins_like_url. now rewrite !starts_with_ci_upcase. Qed.

Lemma upcase_empty (s1 s2 : string) :
  upcase s1 = upcase s2 -> string_is_empty s1 = string_is_empty s2.
Proof. destruct s1, s2; cbn; congruence. Qed.

Lemma http_longer (s : string) : "http://" ++ s <> s.
Proof.
  intros H. apply (f_equal String.length) in H.
  cbn in H. lia.
Qed.

Lemma formattedHref_unchanged (s : string) (w : JS.value) :
  fst (formattedHref (with_props (VString s) w)) = Normal (VString s)
  <-> string_is_empty s || ToBoolean w || begins_like_url s = true.
Proof.
  rewrite formattedHref_unfold. cbn zeta.
  cbn [with_props this_props value websitePath ToBoolean ToString].
  rewrite regex_test_begins.
  destruct (string_is_empty s), (ToBoolean w), (begins_like_url s);
    cbn [negb andb orb fst]; split; intros H; try reflexivity; try discriminate.
  injection H as H. now apply http_longer in H.
Qed.

(** X3. Two strings that differ only in the case of the letters [a]
    to [z] are treated alike: the pattern matches both or neither, and
    [formattedHref] returns both as they are or neither. *)
Theorem regex_ignores_letter_case (s1 s2 : string) :
  upcase s1 = upcase s2 ->
  test_string regex s1 = test_string regex s2
  /\ forall w,
       fst (formattedHref (with_props (VString s1) w)) = Normal (VString s1)
       <-> fst (formattedHref (with_props (VString s2) w)) = Normal (VString s2).
Proof.
  intros H.
  assert (Hb : begins_like_url s1 = begins_like_url s2).
  { rewrite <- (begins_like_url_upcase s1), <- (begins_like_url_upcase s2).
    now rewrite H. }
  split; [now rewrite !regex_test_begins|].
  intros w. rewrite !formattedHref_unchanged, Hb, (upcase_empty _ _ H).
  reflexivity.
Qed.

Lemma regex_ignores_letter_case_witness :
  test_string regex "HTTPS://odoo.com" = test_string regex "https://ODOO.COM"
  /\ forall w,
       fst (formattedHref (with_props (VString "HTTPS://odoo.com") w))
       = Normal (VString "HTTPS://odoo.com")
       <-> fst (formattedHref (with_props (VString "https://ODOO.COM") w))
           = Normal (VString "https://ODOO.COM").
Proof.
  apply (regex_ignores_letter_case "HTTPS://odoo.com" "https://ODOO.COM").
  vm_compute. reflexivity.
Defined.

Lemma formattedHref_truthiness (this : component) (r : JS.value) :
  fst (formattedHref this) = Normal r ->
  ToBoolean r = ToBoolean (value (this_props this)).
Proof.
  rewrite formattedHref_unfold. cbn zeta.
  destruct (ToBoolean (value (this_props this))) eqn:Hv; cbn [andb].
  2:{ cbn [fst]. intros [= <-]. exact Hv. }
  destruct (negb (ToBoolean (websitePath (this_props this)))).
  2:{ cbn [fst]. intros [= <-]. exact Hv. }
  destruct (ToString (value (this_props this))) as [s|e]; [|cbn; discriminate].
  destruct (negb (test_string regex s)); cbn [fst]; intros [= <-];
    [reflexivity|exact Hv].
Qed.

(** X4. [setup] is one call of the imported [useInputField], whatever
    that does, with an object whose [getValue] gives a string as it is,
    the empty one included, a truthy value as it is and the empty
    string for every falsy value, so what it gives is truthy or the
    empty string; and it gives the empty string exactly when
    [formattedHref] gives a falsy value. *)
Theorem setup_getValue :
  exists h,
    (forall im : imports, setup im = useInputField im h)
    /\ (forall p s, value p = VString s -> getValue h p = VString s)
    /\ (forall p, ToBoolean (value p) = true -> getValue h p = value p)
    /\ (forall p, ToBoolean (value p) = false -> getValue h p = VString "")
    /\ (forall p, ToBoolean (getValue h p) = false -> getValue h p = VString "")
    /\ (forall this r,
          fst (formattedHref this) = Normal r ->
          (ToBoolean r = false <-> getValue h (this_props this) = VString "")).
Proof.
  exists setup_params. split; [reflexivity|].
  cbn [getValue setup_params]. unfold or_else.
  split_and!.
  - intros p s ->. cbn. now destruct s.
  - now intros p ->.
  - now intros p ->.
  - intros p. destruct (ToBoolean (value p)) eqn:Hv; [congruence|reflexivity].
  - intros this r Hr. rewrite (formattedHref_truthiness _ _ Hr).
    destruct (ToBoolean (value (this_props this))) eqn:Hv; split; intros H;
      try reflexivity; try discriminate.
    rewrite H in Hv. discriminate.
Qed.

End MoreUrlFieldFacts.

(* ===================================================================== *)
(** * More of minimal_dom.js: the button from click to restore            *)
(* ===================================================================== *)

Section MoreLoadingEffect.
Import JS MinimalDomJs MinimalDomSpec.
Local Open Scope list_scope.

Ltac fields :=
  cbn [closures next_promise settlements reactions microtasks timers clock dom
       stack log set_closures set_next_promise set_settlements set_reactions
       set_microtasks set_timers set_clock set_dom set_stack set_log fst snd] in *.

Lemma alter_fixed {A} (f : A -> A) (i : nat) (l : list A) :
  (forall x, l !! i = Some x -> f x = x) -> alter f i l = l.
Proof.
  intros H. transitivity (alter id i l).
  - apply list_alter_ext; [exact H|reflexivity].
  - now apply list_alter_id.
Qed.

Lemma set_dom_same st : set_dom (dom st) st = st.
Proof. now destruct st. Qed.

(** [addButtonLoadingEffect] on any element of the document, with a
    [classList] or without one. *)
Lemma addButtonLoadingEffect_any st btnEl el :
  dom st !! btnEl = Some el ->
  addButtonLoadingEffect btnEl st =
  (Restore btnEl (length (dom st)),
   set_dom (alter (loading (length (dom st))) btnEl (dom st)
            ++ [set_parentElement (Some btnEl) spinner]) st).
Proof.
  intros Hb. destruct (classList el) as [cl|] eqn:Hc.
  { now apply (addButtonLoadingEffect_eq st btnEl el cl). }
  pose proof (lookup_lt_Some _ _ _ Hb) as Hlt.
  unfold addButtonLoadingEffect, bind.
  assert (Hh : has_classList btnEl st = (false, st)).
  { unfold has_classList, gets. now rewrite Hb, Hc. }
  rewrite Hh. cbn [when].
  unfold classList_add, assign_disabled, createElement, prepend,
    alter_element, modify, bind, ret.
  cbn [dom set_dom].
  rewrite !length_alter, ?set_dom_set_dom.
  rewrite (alter_snoc_at _ _ _ (length (dom st))) by now rewrite !length_alter.
  erewrite remove_detached;
    [|cbn [dom set_dom]; apply lookup_snoc_at; now rewrite !length_alter
     |reflexivity].
  cbn [dom set_dom]. rewrite ?set_dom_set_dom.
  rewrite (alter_snoc_at _ _ _ (length (dom st))) by now rewrite !length_alter.
  rewrite alter_app_l by now rewrite !length_alter.
  do 2 f_equal. f_equal.
  rewrite !list_alter_alter_eq. apply list_alter_ext; [|reflexivity].
  intros x Hx. rewrite Hb in Hx. injection Hx as <-.
  unfold compose, loading, set_children, set_disabled. cbn.
  now rewrite Hc.
Qed.

(** The restore callback on any page. *)
Lemma restore_any st btnEl loaderEl :
  restore btnEl loaderEl st
  = remove loaderEl (set_dom (alter restored btnEl (dom st)) st).
Proof.
  unfold restore, has_classList, bind, gets. cbn [fst snd].
  assert (E : forall d : list element,
             alter (set_disabled (Some false)) btnEl
               (alter (fun el => set_classList
                                   (option_map (remove_tokens ["o_website_btn_loading"; "disabled"])
                                               (classList el)) el) btnEl d)
             = alter restored btnEl d).
  { intros d. rewrite list_alter_alter_eq. now apply list_alter_ext. }
  destruct (dom st !! btnEl) as [el|] eqn:Hb.
  - destruct (classList el) as [cl|] eqn:Hc; cbn [when ret].
    + unfold classList_remove, assign_disabled, alter_element, modify.
      fields. rewrite set_dom_set_dom. now rewrite E.
    + unfold assign_disabled, alter_element, modify. fields.
      do 2 f_equal. apply list_alter_ext; [|reflexivity].
      intros x Hx. rewrite Hb in Hx. injection Hx as <-.
      unfold restored, set_disabled. now rewrite Hc.
  - cbn [when ret]. unfold assign_disabled, alter_element, modify. fields.
    do 2 f_equal. apply list_alter_ext; [|reflexivity].
    intros x Hx. congruence.
Qed.

Lemma restore_attached st btnEl loaderEl el p :
  dom st !! loaderEl = Some el -> parentElement el = Some p ->
  restore btnEl loaderEl st =
  (tt, set_dom
         (alter (set_parentElement None) loaderEl
            (alter (fun el => set_children (remove_first loaderEl (children el)) el) p
               (alter restored btnEl (dom st)))) st).
Proof.
  intros Hl Hp. rewrite restore_any.
  destruct (decide (btnEl = loaderEl)) as [->|Hne].
  - erewrite remove_attached.
    + cbn [dom set_dom]. now rewrite set_dom_set_dom.
    + cbn [dom set_dom]. rewrite list_lookup_alter_eq, Hl. reflexivity.
    + exact Hp.
  - erewrite remove_attached.
    + cbn [dom set_dom]. now rewrite set_dom_set_dom.
    + cbn [dom set_dom]. rewrite list_lookup_alter_ne by exact Hne. exact Hl.
    + exact Hp.
Qed.

Lemma restore_detached st btnEl loaderEl :
  match dom st !! loaderEl with
  | Some el => parentElement el = None
  | None => True
  end ->
  restore btnEl loaderEl st = (tt, set_dom (alter restored btnEl (dom st)) st).
Proof.
  intros H. rewrite restore_any. unfold remove, bind, gets. cbn [fst snd dom set_dom].
  destruct (decide (btnEl = loaderEl)) as [->|Hne].
  - rewrite list_lookup_alter_eq.
    destruct (dom st !! loaderEl) as [el|]; cbn; [now rewrite H|reflexivity].
  - rewrite list_lookup_alter_ne by exact Hne.
    destruct (dom st !! loaderEl) as [el|]; cbn; [now rewrite H|reflexivity].
Qed.

Lemma remove_token_idem (t : string) (l : list string) :
  remove_token t (remove_token t l) = remove_token t l.
Proof.
  apply remove_token_absent. rewrite mem_remove_token.
  now rewrite String.eqb_refl.
Qed.

Lemma remove_token_comm (t u : string) (l : list string) :
  remove_token t (remove_token u l) = remove_token u (remove_token t l).
Proof.
  induction l as [|a l IH]; [reflexivity|]. cbn [remove_token].
  destruct (String.eqb u a) eqn:Eu, (String.eqb t a) eqn:Et;
    cbn [remove_token]; rewrite ?Eu, ?Et; congruence.
Qed.

Lemma remove_tokens_2_idem (t u : string) (l : list string) :
  remove_tokens [t; u] (remove_tokens [t; u] l) = remove_tokens [t; u] l.
Proof.
  cbn [remove_tokens].
  rewrite (remove_token_comm t u (remove_token t l)), !remove_token_idem.
  reflexivity.
Qed.

Lemma mem_remove_tokens_2 (t u : string) (l : list string) :
  mem t (remove_tokens [t; u] l) = false /\ mem u (remove_tokens [t; u] l) = false.
Proof.
  cbn [remove_tokens]. rewrite !mem_remove_token, !String.eqb_refl.
  cbn [negb andb]. now rewrite andb_false_r.
Qed.

Lemma restored_idem (el : element) : restored (restored el) = restored el.
Proof.
  unfold restored. cbn. f_equal.
  destruct (classList el) as [cl|]; cbn [option_map]; [|reflexivity].
  f_equal. apply (remove_tokens_2_idem "o_website_btn_loading" "disabled").
Qed.

Lemma lookup_alter_inv {A} (Q : A -> Prop) (f : A -> A) (j i : nat) (d : list A) (x : A) :
  (forall y, Q y -> Q (f y)) ->
  (forall y, d !! i = Some y -> Q y) ->
  alter f j d !! i = Some x -> Q x.
Proof.
  intros Hf Hd. destruct (decide (j = i)) as [->|Hne].
  - rewrite list_lookup_alter_eq. destruct (d !! i) as [y|]; [|discriminate].
    cbn. intros [= <-]. auto.
  - rewrite list_lookup_alter_ne by exact Hne. auto.
Qed.

Lemma restored_sets (el : element) :
  restored el = el <->
  option_map (remove_tokens ["o_website_btn_loading"; "disabled"]) (classList el)
  = classList el
  /\ disabled el = Some false.
Proof.
  unfold restored. destruct el as [t c d p ch]. cbn. split.
  - intros [= H1 H2]. auto.
  - intros [H1 H2]. congruence.
Qed.

Lemma restored_set_parentElement v el :
  restored el = el -> restored (set_parentElement v el) = set_parentElement v el.
Proof. rewrite !restored_sets. now cbn. Qed.

Lemma restored_set_children v el :
  restored el = el -> restored (set_children v el) = set_children v el.
Proof. rewrite !restored_sets. now cbn. Qed.

(** X13. Calling the restore callback a second time changes nothing:
    on any page, the page after two calls is the page after one. *)
Theorem restore_idempotent (st : runtime) (btnEl loaderEl : nat) :
  run_callback (Restore btnEl loaderEl)
    (snd (run_callback (Restore btnEl loaderEl) st))
  = run_callback (Restore btnEl loaderEl) st.
Proof.
  cbn [run_callback].
  destruct (dom st !! loaderEl) as [el|] eqn:Hl;
    [destruct (parentElement el) as [p|] eqn:Hp|].
  - rewrite (restore_attached st btnEl loaderEl el p Hl Hp). cbn [snd].
    rewrite restore_detached.
    + cbn [dom set_dom]. rewrite set_dom_set_dom. do 2 f_equal.
      apply alter_fixed. intros x Hx.
      apply (lookup_alter_inv (fun y => restored y = y)) in Hx; [exact Hx| |].
      { intros y. apply restored_set_parentElement. }
      intros y Hy.
      apply (lookup_alter_inv (fun y => restored y = y)) in Hy; [exact Hy| |].
      { intros z. apply restored_set_children. }
      intros z. rewrite list_lookup_alter_eq.
      destruct (dom st !! btnEl) as [w|]; [|discriminate].
      cbn. intros [= <-]. apply restored_idem.
    + cbn [dom set_dom]. rewrite list_lookup_alter_eq.
      match goal with |- context [fmap _ ?o] => destruct o end; now cbn.
  - assert (Hd : match dom st !! loaderEl with
                 | Some el => parentElement el = None
                 | None => True
                 end) by now rewrite Hl.
    rewrite (restore_detached st btnEl loaderEl Hd). cbn [snd].
    rewrite restore_detached.
    + cbn [dom set_dom]. rewrite set_dom_set_dom, list_alter_alter_eq.
      do 2 f_equal. apply list_alter_ext; [|reflexivity].
      intros x _. apply restored_idem.
    + cbn [dom set_dom]. destruct (decide (btnEl = loaderEl)) as [->|Hne].
      * rewrite list_lookup_alter_eq, Hl. exact Hp.
      * rewrite list_lookup_alter_ne by exact Hne. now rewrite Hl.
  - assert (Hd : match dom st !! loaderEl with
                 | Some el => parentElement el = None
                 | None => True
                 end) by now rewrite Hl.
    rewrite (restore_detached st btnEl loaderEl Hd). cbn [snd].
    rewrite restore_detached.
    + cbn [dom set_dom]. rewrite set_dom_set_dom, list_alter_alter_eq.
      do 2 f_equal. apply list_alter_ext; [|reflexivity].
      intros x _. apply restored_idem.
    + cbn [dom set_dom]. destruct (decide (btnEl = loaderEl)) as [->|Hne].
      * now rewrite list_lookup_alter_eq, Hl.
      * rewrite list_lookup_alter_ne by exact Hne. now rewrite Hl.
Qed.

(** X15. The loading effect on an element that has no [classList]:
    only [disabled] is set and the spinner added as first child; the
    restore callback sets [disabled] to false and detaches the spinner;
    no other element the document had is touched; and the element ends
    as it began exactly when its [disabled] was false. *)
Theorem loading_effect_without_classList
        (st : runtime) (btnEl : nat) (el : element) :
  dom st !! btnEl = Some el ->
  classList el = None ->
  let loaderEl := length (dom st) in
  let st1 := snd (addButtonLoadingEffect btnEl st) in
  let st2 := snd (run_callback (fst (addButtonLoadingEffect btnEl st)) st1) in
  dom st1 !! btnEl
  = Some (set_children (loaderEl :: children el) (set_disabled (Some true) el))
  /\ dom st1 !! loaderEl = Some (set_parentElement (Some btnEl) spinner)
  /\ dom st2 !! btnEl = Some (set_disabled (Some false) el)
  /\ dom st2 !! loaderEl = Some spinner
  /\ (forall e, e <> btnEl -> e < loaderEl -> dom st2 !! e = dom st !! e)
  /\ (dom st2 !! btnEl = Some el <-> disabled el = Some false).
Proof.
  intros Hb Hc loaderEl st1 st2.
  pose proof (lookup_lt_Some _ _ _ Hb) as Hlt.
  assert (E1 : dom st1 = alter (loading loaderEl) btnEl (dom st)
                         ++ [set_parentElement (Some btnEl) spinner]).
  { subst st1. now rewrite (addButtonLoadingEffect_any st btnEl el Hb). }
  assert (Hl1 : dom st1 !! loaderEl = Some (set_parentElement (Some btnEl) spinner)).
  { rewrite E1. apply lookup_snoc_at. now rewrite length_alter. }
  assert (E2 : dom st2 = alter (set_parentElement None) loaderEl
                           (alter (fun el => set_children
                                               (remove_first loaderEl (children el)) el)
                                  btnEl (alter restored btnEl (dom st1)))).
  { subst st2. rewrite (addButtonLoadingEffect_any st btnEl el Hb).
    cbn [fst run_callback]. fold loaderEl.
    now rewrite (restore_attached st1 btnEl loaderEl _ btnEl Hl1 eq_refl). }
  assert (Hb1 : dom st1 !! btnEl = Some (loading loaderEl el)).
  { rewrite E1, lookup_app_l by now rewrite length_alter.
    now rewrite list_lookup_alter_eq, Hb. }
  assert (Hb2 : dom st2 !! btnEl = Some (set_disabled (Some false) el)).
  { rewrite E2, list_lookup_alter_ne by lia.
    rewrite !list_lookup_alter_eq, Hb1. cbn.
    unfold restored, loading, set_children, set_disabled. cbn.
    now rewrite Hc, Nat.eqb_refl. }
  split_and!.
  - rewrite Hb1. unfold loading, set_children, set_disabled. cbn. now rewrite Hc.
  - exact Hl1.
  - exact Hb2.
  - rewrite E2, list_lookup_alter_eq, list_lookup_alter_ne by lia.
    rewrite list_lookup_alter_ne by lia. now rewrite Hl1.
  - intros e Hne He. rewrite E2, !list_lookup_alter_ne by lia.
    rewrite E1, lookup_app_l by now rewrite length_alter.
    now rewrite list_lookup_alter_ne by congruence.
  - rewrite Hb2. destruct el as [t c d p ch]. cbn in *. split.
    + now intros [= <-].
    + now intros ->.
Qed.

Lemma loading_effect_without_classList_witness :
  let el := {| tagName := "a"; classList := None; disabled := Some false;
               parentElement := None; children := [] |} in
  let st := initial [el] in
  let st1 := snd (addButtonLoadingEffect 0 st) in
  let st2 := snd (run_callback (fst (addButtonLoadingEffect 0 st)) st1) in
  dom st1 !! 0 = Some (set_children [1] (set_disabled (Some true) el))
  /\ dom st2 !! 0 = Some el.
Proof.
  intros el st st1 st2.
  destruct (loading_effect_without_classList st 0 el) as (H1 & _ & _ & _ & _ & H2).
  - reflexivity.
  - reflexivity.
  - split; [exact H1|]. apply H2. reflexivity.
Defined.

(** X14. Two loading effects on one button, as two handlers bound to
    the same button give: the button carries two spinners, and the
    restore callback of either effect alone enables the button again,
    takes the two classes away and detaches its own spinner only; the
    spinner of the other effect stays the first child of the enabled
    button. *)
Theorem first_restore_enables_button
        (st : runtime) (btnEl : nat) (el : element) (cl : list string) :
  dom st !! btnEl = Some el ->
  classList el = Some cl ->
  let n := length (dom st) in
  let st1 := snd (addButtonLoadingEffect btnEl st) in
  let st2 := snd (addButtonLoadingEffect btnEl st1) in
  fst (addButtonLoadingEffect btnEl st) = Restore btnEl n
  /\ fst (addButtonLoadingEffect btnEl st1) = Restore btnEl (S n)
  /\ (exists el2,
        dom st2 !! btnEl = Some el2
        /\ disabled el2 = Some true
        /\ children el2 = S n :: n :: children el)
  /\ (let st3 := snd (run_callback (Restore btnEl n) st2) in
      exists el3,
        dom st3 !! btnEl = Some el3
        /\ disabled el3 = Some false
        /\ class_mem "o_website_btn_loading" el3 = false
        /\ class_mem "disabled" el3 = false
        /\ children el3 = S n :: children el
        /\ dom st3 !! S n = Some (set_parentElement (Some btnEl) spinner))
  /\ (let st3 := snd (run_callback (Restore btnEl (S n)) st2) in
      exists el3,
        dom st3 !! btnEl = Some el3
        /\ disabled el3 = Some false
        /\ class_mem "o_website_btn_loading" el3 = false
        /\ class_mem "disabled" el3 = false
        /\ children el3 = n :: children el
        /\ dom st3 !! n = Some (set_parentElement (Some btnEl) spinner)).
Proof.
  intros Hb Hc n st1 st2.
  pose proof (lookup_lt_Some _ _ _ Hb) as Hlt. fold n in Hlt.
  assert (E1 : dom st1 = alter (loading n) btnEl (dom st)
                         ++ [set_parentElement (Some btnEl) spinner]).
  { subst st1. now rewrite (addButtonLoadingEffect_any st btnEl el Hb). }
  assert (Hn1 : length (dom st1) = S n).
  { rewrite E1, length_app, length_alter. cbn [length]. subst n. lia. }
  assert (Hb1 : dom st1 !! btnEl = Some (loading n el)).
  { rewrite E1, lookup_app_l by now rewrite length_alter.
    now rewrite list_lookup_alter_eq, Hb. }
  assert (Hl1 : dom st1 !! n = Some (set_parentElement (Some btnEl) spinner)).
  { rewrite E1. apply lookup_snoc_at. now rewrite length_alter. }
  assert (E2 : dom st2 = alter (loading (S n)) btnEl (dom st1)
                         ++ [set_parentElement (Some btnEl) spinner]).
  { subst st2. rewrite (addButtonLoadingEffect_any st1 btnEl _ Hb1).
    cbn [snd dom set_dom]. now rewrite Hn1. }
  assert (Hb2 : dom st2 !! btnEl = Some (loading (S n) (loading n el))).
  { rewrite E2, lookup_app_l by (rewrite length_alter; lia).
    now rewrite list_lookup_alter_eq, Hb1. }
  assert (Hl2 : dom st2 !! n = Some (set_parentElement (Some btnEl) spinner)).
  { rewrite E2, lookup_app_l by (rewrite length_alter; lia).
    rewrite list_lookup_alter_ne by lia. exact Hl1. }
  assert (Hm2 : dom st2 !! S n = Some (set_parentElement (Some btnEl) spinner)).
  { rewrite E2. apply lookup_snoc_at. now rewrite length_alter. }
  assert (Hcls : forall X : list string,
             mem "o_website_btn_loading"
                 (remove_tokens ["o_website_btn_loading"; "disabled"] X) = false
             /\ mem "disabled"
                    (remove_tokens ["o_website_btn_loading"; "disabled"] X) = false).
  { intros X. apply mem_remove_tokens_2. }
  split_and!.
  - now rewrite (addButtonLoadingEffect_any st btnEl el Hb).
  - rewrite (addButtonLoadingEffect_any st1 btnEl _ Hb1). cbn [fst]. now rewrite Hn1.
  - eexists. split; [exact Hb2|]. split; reflexivity.
  - cbn zeta. cbn [run_callback].
    rewrite (restore_attached st2 btnEl n _ btnEl Hl2 eq_refl). cbn [snd dom set_dom].
    eexists. split.
    { rewrite list_lookup_alter_ne by lia.
      rewrite !list_lookup_alter_eq, Hb2. reflexivity. }
    unfold class_mem, restored, loading. cbn. rewrite Hc. cbn [option_map].
    rewrite Nat.eqb_refl.
    replace (Nat.eqb n (S n)) with false by (symmetry; apply Nat.eqb_neq; lia).
    split_and!; try reflexivity; try apply Hcls.
    rewrite !list_lookup_alter_ne by lia. exact Hm2.
  - cbn zeta. cbn [run_callback].
    rewrite (restore_attached st2 btnEl (S n) _ btnEl Hm2 eq_refl). cbn [snd dom set_dom].
    eexists. split.
    { rewrite list_lookup_alter_ne by lia.
      rewrite !list_lookup_alter_eq, Hb2. reflexivity. }
    unfold class_mem, restored, loading. cbn. rewrite Hc. cbn [option_map].
    rewrite Nat.eqb_refl.
    split_and!; try reflexivity; try apply Hcls.
    rewrite !list_lookup_alter_ne by lia. exact Hl2.
Qed.

Lemma first_restore_enables_button_witness :
  let st2 := snd (addButtonLoadingEffect 0 (snd (addButtonLoadingEffect 0 (initial a_page)))) in
  exists el3,
    dom (snd (run_callback (Restore 0 2) st2)) !! 0 = Some el3
    /\ disabled el3 = Some false
    /\ class_mem "o_website_btn_loading" el3 = false
    /\ class_mem "disabled" el3 = false
    /\ children el3 = [3; 1]
    /\ dom (snd (run_callback (Restore 0 2) st2)) !! 3
       = Some (set_parentElement (Some 0) spinner).
Proof.
  intros st2.
  destruct (first_restore_enables_button (initial a_page) 0 a_button
              ["btn"; "btn-primary"]) as (_ & _ & _ & H & _).
  - reflexivity.
  - reflexivity.
  - exact H.
Defined.

Lemma clickable_eq s b :
  (let! has := has_classList b in when has (classList_remove b ["pe-none"])) s
  = (tt, set_dom (alter clickable b (dom s)) s).
Proof.
  unfold bind, has_classList, gets.
  destruct (dom s !! b) as [el|] eqn:Hb.
  - destruct (classList el) as [cl|] eqn:Hc; cbn [when ret]; [reflexivity|].
    f_equal. rewrite alter_fixed; [now rewrite set_dom_same|].
    intros x Hx. rewrite Hb in Hx. injection Hx as <-.
    unfold clickable. rewrite Hc. clear Hb. destruct el. cbn in *. now subst.
  - cbn [when ret]. f_equal. rewrite alter_fixed; [now rewrite set_dom_same|].
    intros x Hx. congruence.
Qed.

Lemma after_debounce_eq s b el r :
  dom s !! b = Some el ->
  after_debounce b r s =
  let n := length (dom s) in
  let s2 := set_dom (alter (fun e => loading n (clickable e)) b (dom s)
                     ++ [set_parentElement (Some b) spinner]) s in
  Promise_finally (fst (Promise_resolve (of_ret r) s2)) (Restore b n)
                  (snd (Promise_resolve (of_ret r) s2)).
Proof.
  intros Hb. unfold after_debounce.
  change (after_debounce b r s) with (after_debounce b r s).
  transitivity
    (bind (let! has := has_classList b in when has (classList_remove b ["pe-none"]))
          (fun _ => let! restore := addButtonLoadingEffect b in
                    let! p := Promise_resolve (of_ret r) in
                    Promise_finally p restore) s).
  { unfold bind. destruct (has_classList b s) as [h s0].
    now destruct (when h _ s0). }
  unfold bind at 1. rewrite clickable_eq.
  unfold bind at 1.
  erewrite addButtonLoadingEffect_any;
    [|cbn [dom set_dom]; rewrite list_lookup_alter_eq, Hb; reflexivity].
  cbn [dom set_dom]. rewrite set_dom_set_dom, length_alter, list_alter_alter_eq.
  unfold bind. cbn zeta.
  unfold compose.
  destruct (Promise_resolve (of_ret r) _) as [p s3]. reflexivity.
Qed.

Lemma after_debounce_dom s b el r :
  dom s !! b = Some el ->
  dom (snd (after_debounce b r s))
  = alter (fun e => loading (length (dom s)) (clickable e)) b (dom s)
    ++ [set_parentElement (Some b) spinner].
Proof.
  intros Hb. rewrite (after_debounce_eq s b el r Hb). cbn zeta.
  unfold Promise_finally. now rewrite dom_register, dom_Promise_resolve.
Qed.

Lemma settle_status p x s : status (snd (settle p x s)) p <> None.
Proof.
  unfold settle, bind, gets, modify, ret. cbn [fst snd].
  destruct (status s p) eqn:E; cbn [snd]; [congruence|].
  unfold status. fields. cbn [status_in]. now rewrite promise_ref_eqb_refl.
Qed.

Lemma after_debounce_plain s b el v :
  dom s !! b = Some el ->
  exists q,
    microtasks (snd (after_debounce b (Plain v) s))
    = microtasks s ++ q ++ [Restore b (length (dom s))].
Proof.
  intros Hb. rewrite (after_debounce_eq s b el (Plain v) Hb). cbn zeta.
  cbn [of_ret Promise_resolve]. unfold bind, new_promise, ret. cbn [fst snd].
  match goal with |- context [settle ?p ?x ?s0] =>
    pose proof (settle_status p x s0) as Hst;
    assert (Hq : exists q, microtasks (snd (settle p x s0)) = microtasks s ++ q);
    [|destruct (settle p x s0) as [u s3]]
  end.
  { unfold settle, bind, gets, modify, ret. cbn [fst snd].
    match goal with |- context [status ?s0 ?p] => destruct (status s0 p) end;
      fields; [exists []; now rewrite app_nil_r|eexists; reflexivity]. }
  cbn [fst snd] in *. destruct Hq as [q Hq]. exists q.
  unfold Promise_finally, register, enqueue, bind, gets, modify, ret. fields.
  destruct (status s3 _) as [x|]; [|congruence]. cbn [reaction_job]. fields.
  now rewrite Hq, app_assoc.
Qed.

(** X10. The function given to [.then], run for a button of the
    document: the button loses [pe-none] and gets the loading effect,
    the spinner being the new last element of the document.  The
    restore callback is tied to the result of the handler: it is the
    last job of the queue when the result is no promise, it is queued
    at once when the promise is settled already, and it is kept as a
    reaction when the promise is pending, in which case settling the
    promise either way queues it. *)
Theorem after_debounce_effect (s : runtime) (b : nat) (el : element) (r : ret_value) :
  dom s !! b = Some el ->
  let n := length (dom s) in
  let s' := snd (run_callback (AfterDebounce b r) s) in
  dom s' = alter (fun e => loading n (clickable e)) b (dom s)
           ++ [set_parentElement (Some b) spinner]
  /\ match r with
     | Plain _ => exists q, microtasks s' = microtasks s ++ q ++ [Restore b n]
     | APromise p =>
         match status s (UserPromise p) with
         | Some _ =>
             microtasks s' = microtasks s ++ [Restore b n]
             /\ reactions s' = reactions s
         | None =>
             microtasks s' = microtasks s
             /\ reactions s' = reactions s ++ [(UserPromise p, OnSettled (Restore b n))]
             /\ forall x, In (Restore b n)
                             (microtasks (snd (settle (UserPromise p) x s')))
         end
     end.
Proof.
  intros Hb n s'. subst s'. cbn [run_callback].
  split; [now apply (after_debounce_dom s b el r Hb)|].
  rewrite (after_debounce_eq s b el r Hb). cbn zeta. fold n.
  destruct r as [v|p]; cbn [of_ret Promise_resolve].
  - pose proof (after_debounce_plain s b el v Hb) as H.
    rewrite (after_debounce_eq s b el (Plain v) Hb) in H. exact H.
  - unfold ret. cbn [fst snd].
    unfold Promise_finally, register, enqueue, bind, gets, modify, ret. fields.
    change (status (set_dom _ s) (UserPromise p)) with (status s (UserPromise p)).
    destruct (status s (UserPromise p)) as [x|] eqn:Hs; cbn [reaction_job]; fields.
    + split; reflexivity.
    + split_and!; try reflexivity.
      intros x. unfold settle, bind, gets, modify, ret. fields.
      change (status (set_reactions _ (set_dom _ s)) (UserPromise p))
        with (status s (UserPromise p)).
      rewrite Hs. fields. apply in_or_app. right.
      apply (In_jobs_of_intro _ _ (OnSettled (Restore b n))); [|reflexivity].
      apply in_or_app. right. now left.
Qed.

Lemma after_debounce_effect_witness :
  let s' := snd (run_callback (AfterDebounce 0 (APromise 3)) a_busy_button) in
  dom s' = alter (fun e => loading 2 (clickable e)) 0 (dom a_busy_button)
           ++ [set_parentElement (Some 0) spinner]
  /\ microtasks s' = microtasks a_busy_button
  /\ reactions s'
     = reactions a_busy_button ++ [(UserPromise 3, OnSettled (Restore 0 2))]
  /\ forall x, In (Restore 0 2) (microtasks (snd (settle (UserPromise 3) x s'))).
Proof.
  apply (after_debounce_effect a_busy_button 0
           (set_classList (Some ["btn"; "btn-primary"; "pe-none"]) a_button)
           (APromise 3)).
  reflexivity.
Defined.

Lemma disable_button_dom result ev s b :
  fst (closest_btn ev s) = Some b ->
  dom (snd (disable_button result ev s))
  = alter (fun el => set_classList
                       (option_map (add_tokens ["pe-none"]) (classList el)) el)
          b (dom s).
Proof.
  intros Hb. destruct (closest_btn_matches ev s b Hb) as (el & cl & Hel & Hcl & _).
  unfold disable_button. unfold bind at 1.
  assert (E : closest_btn ev s = (Some b, s)).
  { revert Hb. unfold closest_btn, gets; cbn [fst]. now intros ->. }
  rewrite E. unfold bind at 1.
  rewrite (has_classList_some b s el cl Hel Hcl). cbn [when].
  unfold classList_add, alter_element, debounce_delay. cbn [DEBOUNCE Nat.eqb].
  unfold Promise_then, new_promise, setTimeout, Promise_resolve,
    bind, modify, gets, ret; fields.
  match goal with |- context [register ?p ?r ?s0] =>
    pose proof (dom_register p r s0) as H; destruct (register p r s0) end.
  exact H.
Qed.

Lemma remove_add_pe_none (cl : list string) :
  remove_tokens ["pe-none"] (add_tokens ["pe-none"] cl) = remove_token "pe-none" cl.
Proof.
  cbn [remove_tokens add_tokens]. destruct (mem "pe-none" cl); [reflexivity|].
  rewrite remove_token_app. cbn. apply app_nil_r.
Qed.

Lemma remove_three_fixed (cl : list string) :
  remove_tokens ["o_website_btn_loading"; "disabled"] (remove_token "pe-none" cl) = cl
  <-> mem "pe-none" cl = false
      /\ mem "o_website_btn_loading" cl = false /\ mem "disabled" cl = false.
Proof.
  split.
  - intros H. assert (Hp : mem "pe-none" cl = false).
    { destruct (mem "pe-none" cl) eqn:E; [|reflexivity].
      apply remove_token_present in E. apply (f_equal (@length string)) in H.
      cbn [remove_tokens] in H.
      pose proof (remove_token_length "disabled"
                    (remove_token "o_website_btn_loading" (remove_token "pe-none" cl))).
      pose proof (remove_token_length "o_website_btn_loading"
                    (remove_token "pe-none" cl)).
      lia. }
    split; [exact Hp|]. rewrite (remove_token_absent _ _ Hp) in H.
    now apply remove_tokens_2_fixed.
  - intros (Hp & Hl & Hd). rewrite (remove_token_absent _ _ Hp).
    now apply remove_tokens_2_fixed.
Qed.

(** X11. What a click does to its button, one step after the other:
    the handler adds [pe-none]; the function given to [.then] takes it
    away and puts the loading effect on; the restore callback takes
    the loading effect away and detaches the spinner.  No other element
    the document had is touched, and the button ends as it began
    exactly when it was not disabled and carried none of the classes
    [pe-none], [o_website_btn_loading] and [disabled]. *)
Theorem click_round_trip
        (s : runtime) (ev : event) (r : ret_value) (b : nat)
        (el : element) (cl : list string) :
  fst (closest_btn ev s) = Some b ->
  dom s !! b = Some el ->
  classList el = Some cl ->
  let n := length (dom s) in
  let s1 := snd (disable_button r ev s) in
  let s2 := snd (run_callback (AfterDebounce b r) s1) in
  let s3 := snd (run_callback (Restore b n) s2) in
  dom s1 !! b = Some (set_classList (Some (add_tokens ["pe-none"] cl)) el)
  /\ dom s2 !! b = Some (loading n (clickable el))
  /\ dom s2 !! n = Some (set_parentElement (Some b) spinner)
  /\ dom s3 !! b = Some (restored (clickable el))
  /\ dom s3 !! n = Some spinner
  /\ (forall e, e <> b -> e < n -> dom s3 !! e = dom s !! e)
  /\ (dom s3 !! b = Some el <->
      disabled el = Some false
      /\ mem "pe-none" cl = false
      /\ mem "o_website_btn_loading" cl = false
      /\ mem "disabled" cl = false).
Proof.
  intros Hcb Hb Hc n s1 s2 s3.
  pose proof (lookup_lt_Some _ _ _ Hb) as Hlt. fold n in Hlt.
  assert (E1 : dom s1 = alter (fun el => set_classList
                                  (option_map (add_tokens ["pe-none"]) (classList el)) el)
                              b (dom s)).
  { subst s1. now apply disable_button_dom. }
  assert (Hb1 : dom s1 !! b = Some (set_classList (Some (add_tokens ["pe-none"] cl)) el)).
  { rewrite E1, list_lookup_alter_eq, Hb. cbn. now rewrite Hc. }
  assert (Hn1 : length (dom s1) = n) by (rewrite E1; apply length_alter).
  assert (E2 : dom s2 = alter (fun e => loading n (clickable e)) b (dom s1)
                        ++ [set_parentElement (Some b) spinner]).
  { subst s2. rewrite <- Hn1. cbn [run_callback].
    now apply (after_debounce_dom s1 b _ r Hb1). }
  assert (Hcl : clickable (set_classList (Some (add_tokens ["pe-none"] cl)) el)
                = clickable el).
  { unfold clickable, set_classList.
    cbn [classList tagName disabled parentElement children option_map].
    rewrite Hc. cbn [option_map]. now rewrite remove_add_pe_none. }
  assert (Hb2 : dom s2 !! b = Some (loading n (clickable el))).
  { rewrite E2, lookup_app_l by (rewrite length_alter; lia).
    rewrite list_lookup_alter_eq, Hb1. cbn [fmap option_fmap option_map].
    now rewrite Hcl. }
  assert (Hl2 : dom s2 !! n = Some (set_parentElement (Some b) spinner)).
  { rewrite E2. apply lookup_snoc_at. now rewrite length_alter. }
  assert (E3 : dom s3 = alter (set_parentElement None) n
                          (alter (fun el => set_children (remove_first n (children el)) el)
                                 b (alter restored b (dom s2)))).
  { subst s3. cbn [run_callback].
    now rewrite (restore_attached s2 b n _ b Hl2 eq_refl). }
  assert (Hb3 : dom s3 !! b = Some (restored (clickable el))).
  { rewrite E3, list_lookup_alter_ne by lia.
    rewrite !list_lookup_alter_eq, Hb2. cbn.
    unfold restored, loading, clickable, set_children, set_classList. cbn.
    rewrite Hc, Nat.eqb_refl. cbn [option_map]. do 3 f_equal.
    apply (remove_tokens_add_tokens_2 "o_website_btn_loading" "disabled"). }
  split_and!; try assumption.
  - rewrite E3, list_lookup_alter_eq, !list_lookup_alter_ne by lia.
    now rewrite Hl2.
  - intros e Hne He. rewrite E3, !list_lookup_alter_ne by lia.
    rewrite E2, lookup_app_l by (rewrite length_alter; lia).
    rewrite list_lookup_alter_ne by congruence.
    rewrite E1. now rewrite list_lookup_alter_ne by congruence.
  - rewrite Hb3. unfold restored, clickable, set_classList. cbn.
    rewrite Hc. cbn [option_map]. rewrite <- remove_three_fixed.
    destruct el as [t c d p ch]. cbn in *. subst c. split.
    + intros [= H1 H2]. cbn [remove_tokens]. split; congruence.
    + intros [-> H]. cbn [remove_tokens] in H. now rewrite H.
Qed.

Lemma click_round_trip_witness :
  let s := steps [MakeButtonHandler 7] (initial a_page) in
  let s1 := snd (disable_button (Plain VUndefined) a_click s) in
  let s2 := snd (run_callback (AfterDebounce 0 (Plain VUndefined)) s1) in
  let s3 := snd (run_callback (Restore 0 2) s2) in
  dom s1 !! 0 = Some (set_classList (Some ["btn"; "btn-primary"; "pe-none"]) a_button)
  /\ dom s2 !! 0 = Some (loading 2 a_button)
  /\ dom s3 !! 0 = Some a_button.
Proof.
  intros s s1 s2 s3.
  destruct (click_round_trip s a_click (Plain VUndefined) 0 a_button
              ["btn"; "btn-primary"]) as (H1 & H2 & _ & _ & _ & _ & H3).
  - reflexivity.
  - reflexivity.
  - reflexivity.
  - split_and!; [exact H1|exact H2|].
    apply H3. split_and!; reflexivity.
Defined.

End MoreLoadingEffect.

(* ===================================================================== *)
(** * More of minimal_dom.js: the flags and the release of the lock       *)
(* ===================================================================== *)

Section MoreLockFacts.
Import JS MinimalDomJs MinimalDomSpec.
Local Open Scope list_scope.

Ltac fields :=
  cbn [closures next_promise settlements reactions microtasks timers clock dom
       stack log set_closures set_next_promise set_settlements set_reactions
       set_microtasks set_timers set_clock set_dom set_stack set_log fst snd] in *.

Ltac keeps :=
  repeat first
    [ apply keeps_view_gets | apply keeps_view_ret | apply keeps_view_when
    | apply keeps_view_alter_element | apply keeps_view_remove
    | apply keeps_view_createElement | apply keeps_view_new_promise
    | apply keeps_view_addButtonLoadingEffect | apply keeps_view_restore
    | apply keeps_view_bind; [|intros] ].

Lemma async_handler_flags k fct pd sp run ev st :
  async_handler k fct pd sp run ev st =
  let es := flag_effects pd sp ev st in
  let s1 := set_log (log st ++ es) st in
  if pending st k then (Returned (Plain VUndefined), s1)
  else
    let s2 := set_stack (k :: stack st)
               (set_log (log st ++ es ++ [Applied k fct (ev_id ev)])
                 (set_closures (alter (assign_pending true) k (closures st)) st)) in
    let s4 := set_log (log (snd (run s2)) ++ [Completed k (fst (run s2))])
                (set_stack (tl (stack (snd (run s2)))) (snd (run s2))) in
    match fst (run s2) with
    | Thrown e => (Thrown e, s4)
    | Returned v =>
        (Returned v,
         snd (Promise_finally (fst (Promise_resolve (of_ret v) s4)) (Unlock k)
                (snd (Promise_resolve (of_ret v) s4))))
    end.
Proof.
  unfold flag_effects.
  unfold async_handler. unfold bind at 1. rewrite (flag_holds_eq pd st).
  cbn [fst].
  assert (Hsp : forall l, fst (flag_holds sp (set_log l st)) = fst (flag_holds sp st))
    by (intros l; now destruct sp).
  destruct (fst (flag_holds pd st)); cbn [when];
    unfold bind at 1; cbn [emit modify ret];
    unfold bind at 1; rewrite flag_holds_eq; rewrite ?Hsp;
    destruct (fst (flag_holds sp st)); cbn [when fst app];
    unfold bind at 1; cbn [emit modify ret];
    unfold _isLocked, _lock, apply_fct, emit, bind, gets, modify, ret; fields;
    unfold pending; fields;
    (destruct (closures st !! k) as [[f0 p0 s0 [|]|f0]|]; cbn beta iota;
     [ destruct st; unfold set_log; fields;
       rewrite <- ?app_assoc, ?app_nil_r; reflexivity | .. ]);
    unfold set_stack, set_log, set_closures; fields;
    rewrite <- ?app_assoc; cbn [app];
    match goal with |- context [run ?s] => destruct (run s) as [[v|e] s3] end;
    fields; try reflexivity;
    unfold Promise_finally;
    match goal with
    | |- context [Promise_resolve ?x ?s] => destruct (Promise_resolve x s) as [p r]
    end; fields; destruct (register p (OnSettled (Unlock k)) r); reflexivity.
Qed.

Lemma extends_log_keeps {A} (m : R A) :
  keeps_log m -> extends_log (fun s => snd (m s)).
Proof. intros H s. exists []. now rewrite app_nil_r. Qed.

Lemma extends_log_comp (f g : runtime -> runtime) :
  extends_log f -> extends_log g -> extends_log (fun s => g (f s)).
Proof.
  intros Hf Hg s. destruct (Hf s) as [l Hl]. destruct (Hg (f s)) as [l' Hl'].
  exists (l ++ l'). now rewrite Hl', Hl, app_assoc.
Qed.

Lemma extends_log_steps l :
  Forall (fun i => extends_log (step i)) l -> extends_log (steps l).
Proof.
  induction 1 as [|i l Hi _ IH]; cbn [steps].
  - intros s. exists []. now rewrite app_nil_r.
  - now apply (extends_log_comp (step i) (steps l)).
Qed.

Lemma extends_log_async_handler k fct pd sp run ev :
  extends_log (fun s => snd (run s)) ->
  extends_log (fun s => snd (async_handler k fct pd sp run ev s)).
Proof.
  intros Hrun st. rewrite async_handler_flags. cbn zeta.
  destruct (pending st k); [eexists; reflexivity|].
  match goal with |- context [run ?s] =>
    destruct (Hrun s) as [l Hl]; destruct (run s) as [[v|e] s3] end.
  - fields. unfold Promise_finally.
    rewrite keeps_log_register, keeps_log_Promise_resolve. fields.
    rewrite Hl. rewrite <- !app_assoc. eexists. reflexivity.
  - fields. rewrite Hl. rewrite <- !app_assoc. eexists. reflexivity.
Qed.

Lemma extends_log_call_async k run ev :
  extends_log (fun s => snd (run s)) ->
  extends_log (fun s => snd (call_async k run ev s)).
Proof.
  intros Hrun st. unfold call_async, bind, gets. cbn [fst snd].
  destruct (closures st !! k) as [[fct pd sp b|f]|];
    try (exists []; now rewrite app_nil_r).
  now apply extends_log_async_handler.
Qed.

Lemma extends_log_call k run ev :
  extends_log (fun s => snd (run s)) ->
  extends_log (fun s => snd (call k run ev s)).
Proof.
  intros Hrun st. unfold call, bind, gets. cbn [fst snd].
  destruct (closures st !! k) as [[fct pd sp b|f]|].
  - now apply extends_log_async_handler.
  - unfold button_handler, bind.
    destruct (extends_log_call_async f run ev Hrun st) as [l Hl].
    destruct (call_async f run ev st) as [[v|e] s1]; cbn [snd] in *.
    + rewrite keeps_log_disable_button. eauto.
    + eauto.
  - exists []. now rewrite app_nil_r.
Qed.

Lemma keeps_log_after_debounce b r : keeps_log (after_debounce b r).
Proof.
  unfold after_debounce.
  apply keeps_log_bind; [apply keeps_log_view; unfold has_classList; keeps|].
  intros has.
  apply keeps_log_bind; [apply keeps_log_view; unfold classList_remove; keeps|].
  intros _.
  apply keeps_log_bind; [apply keeps_log_view; keeps|]. intros cb.
  apply keeps_log_bind; [apply keeps_log_Promise_resolve|]. intros p.
  apply keeps_log_register.
Qed.

Lemma keeps_log_run_callback cb : keeps_log (run_callback cb).
Proof.
  destruct cb as [k|p|b r|b l]; cbn [run_callback].
  - now intros s.
  - apply keeps_log_settle.
  - apply keeps_log_after_debounce.
  - apply keeps_log_view, keeps_view_restore.
Qed.

Lemma extends_log_step i : extends_log (step i).
Proof.
  induction i as [fct pd sp|fct|k ev body result IH|p x| |ms|i]
    using input_nested_ind.
  - intros s. exists []. now rewrite app_nil_r.
  - intros s. exists []. now rewrite app_nil_r.
  - intros s. rewrite step_Call.
    apply (extends_log_call k (user_fct body result) ev).
    unfold user_fct. cbn [snd]. now apply extends_log_steps.
  - apply (extends_log_keeps (settle (UserPromise p) x)), keeps_log_settle.
  - apply (extends_log_keeps run_microtask).
    intros s. unfold run_microtask, bind, gets, modify. cbn [fst snd].
    destruct (microtasks s) as [|cb q]; [reflexivity|].
    now rewrite keeps_log_run_callback.
  - intros s. exists []. now rewrite app_nil_r.
  - apply (extends_log_keeps (fire_timer i)).
    intros s. unfold fire_timer, bind, gets, modify. cbn [fst snd].
    destruct (timers s !! i) as [[due cb]|]; [|reflexivity].
    destruct (Nat.leb due (clock s)); [|reflexivity].
    now rewrite keeps_log_run_callback.
Qed.

Lemma extends_log_all l : extends_log (steps l).
Proof. apply extends_log_steps, Forall_forall. intros i _. apply extends_log_step. Qed.

(** X5. The handler [makeAsyncHandler] returns calls
    [ev.preventDefault()] and [ev.stopPropagation()] as its two flags
    say on every call.  A call of the locked handler does that and
    nothing else to the page; a call of the free handler does it before
    it applies the user function.  A flag that is [true] always acts, a
    flag that is a function acts exactly when it returns true, and with
    no flag, or [false], nothing is called. *)
Theorem flags_act_on_every_call
        (st : runtime) (k fct : nat) (pd sp : flag) (b : bool)
        (ev : event) (body : list input) (result : outcome) :
  closures st !! k = Some (AsyncHandler fct pd sp b) ->
  let st' := step (Call k ev body result) st in
  let es := flag_effects pd sp ev st in
  (b = true -> st' = set_log (log st ++ es) st)
  /\ (b = false ->
      exists rest, log st' = log st ++ es ++ Applied k fct (ev_id ev) :: rest)
  /\ (pd = FlagBool true -> In (PreventDefault (ev_id ev)) es)
  /\ (sp = FlagBool true -> In (StopPropagation (ev_id ev)) es)
  /\ (forall f, pd = FlagFunction f ->
                (In (PreventDefault (ev_id ev)) es <-> f (dom st) = true))
  /\ (forall f, sp = FlagFunction f ->
                (In (StopPropagation (ev_id ev)) es <-> f (dom st) = true))
  /\ (match pd with FlagUndefined | FlagBool false => True | _ => False end ->
      match sp with FlagUndefined | FlagBool false => True | _ => False end ->
      es = []).
Proof.
  intros Hcl st' es.
  assert (Hpend : pending st k = b) by (unfold pending; now rewrite Hcl).
  assert (Est : st' = snd (async_handler k fct pd sp (user_fct body result) ev st)).
  { subst st'. rewrite step_Call. unfold call, bind, gets; cbn [fst snd].
    now rewrite Hcl. }
  rewrite async_handler_flags in Est. cbn zeta in Est. rewrite Hpend in Est.
  fold es in Est.
  split_and!.
  - intros ->. exact Est.
  - intros ->.
    match type of Est with context [user_fct body result ?s] =>
      destruct (extends_log_all body s) as [l Hl];
      change (snd (user_fct body result s)) with (steps body s) in Est;
      change (fst (user_fct body result s)) with result in Est
    end.
    exists (l ++ [Completed k result]).
    destruct result as [v|e]; cbn iota beta in Est; fields; rewrite Est.
    + unfold Promise_finally.
      rewrite keeps_log_register, keeps_log_Promise_resolve. fields.
      rewrite Hl. now rewrite <- !app_assoc.
    + fields. rewrite Hl. now rewrite <- !app_assoc.
  - intros ->. subst es. unfold flag_effects. cbn. now left.
  - intros ->. subst es. unfold flag_effects. apply in_or_app. right. cbn. now left.
  - intros f ->. subst es. unfold flag_effects. cbn [flag_holds gets fst].
    rewrite in_app_iff. destruct (f (dom st)), (fst (flag_holds sp st));
      cbn; split; intros H; try reflexivity; try discriminate; auto;
      repeat (destruct H as [H|H]; try discriminate); try contradiction.
  - intros f ->. subst es. unfold flag_effects. cbn [flag_holds gets fst].
    rewrite in_app_iff. destruct (f (dom st)), (fst (flag_holds pd st));
      cbn; split; intros H; try reflexivity; try discriminate; auto;
      repeat (destruct H as [H|H]; try discriminate); try contradiction.
  - subst es. unfold flag_effects.
    destruct pd as [|[|]|f]; try contradiction;
      destruct sp as [|[|]|g]; try contradiction; reflexivity.
Qed.

Lemma flags_act_on_every_call_witness :
  step (Call 0 a_click [] (Returned (Plain (VBoolean true)))) a_busy_page
  = set_log (log a_busy_page ++ [PreventDefault 0]) a_busy_page.
Proof.
  destruct (flags_act_on_every_call a_busy_page 0 7 (FlagBool true) FlagUndefined
              true a_click [] (Returned (Plain (VBoolean true)))) as (H & _).
  - reflexivity.
  - apply H. reflexivity.
Defined.

Lemma closest_from_no_button fuel d e :
  (forall i el, d !! i = Some el -> matches_btn el = false) ->
  closest_from fuel d e = None.
Proof.
  intros H. revert e. induction fuel as [|fuel IH]; intros e; [reflexivity|].
  cbn [closest_from]. destruct (d !! e) as [el|] eqn:E; [|reflexivity].
  rewrite (H e el E). destruct (parentElement el); auto.
Qed.

(** X6. A handler made by [makeButtonHandler], at any moment of the
    life of the page.  When the user function throws, or when no button
    is found, the call does what the call of the async handler inside
    does and nothing more: the page afterwards and the outcome are the
    same, so no class, timer or promise is added.  No button is found
    when the event has no target, when the target has no [closest], or
    when no element of the document carries the class [btn]. *)
Theorem button_handler_falls_back
        (st : runtime) (k inner : nat)
        (ev : event) (body : list input) (result : outcome) :
  reachable st ->
  closures st !! k = Some (ButtonHandler inner) ->
  let o := fst (call_async inner (user_fct body result) ev st) in
  let s1 := snd (call_async inner (user_fct body result) ev st) in
  (pending st inner = false -> o = result)
  /\ ((exists e, o = Thrown e) \/ fst (closest_btn ev s1) = None ->
      step (Call k ev body result) st = s1
      /\ returns k ev body result st = o)
  /\ (ev_target ev = NoTarget
      \/ ev_target ev = NotAnElement
      \/ (forall i el, dom s1 !! i = Some el -> matches_btn el = false) ->
      fst (closest_btn ev s1) = None).
Proof.
  intros Hreach Hcl o s1.
  destruct (Inv_reachable st Hreach) as (_ & _ & HC).
  destruct (HC k inner Hcl) as (fct & b & Hin).
  split_and!.
  - intros Hp. subst o. unfold call_async, bind, gets. cbn [fst snd].
    rewrite Hin. now apply async_handler_result.
  - intros H.
    assert (E : call k (user_fct body result) ev st = (o, s1)).
    { unfold call, bind, gets. cbn [fst snd]. rewrite Hcl.
      unfold button_handler, bind. subst o s1.
      destruct (call_async inner (user_fct body result) ev st) as [[v|e] s2];
        cbn [fst snd] in *; [|reflexivity].
      destruct H as [[e He]|H]; [discriminate|].
      now rewrite disable_button_none. }
    rewrite step_Call. unfold returns. now rewrite E.
  - unfold closest_btn, gets. cbn [fst].
    intros [->| [->|H]]; try reflexivity.
    destruct (ev_target ev); try reflexivity.
    now apply closest_from_no_button.
Qed.

Lemma button_handler_falls_back_witness :
  step (Call 1 a_click [] (Thrown (VString "boom")))
       (steps [MakeButtonHandler 7] (initial a_page))
  = snd (call_async 0 (user_fct [] (Thrown (VString "boom"))) a_click
           (steps [MakeButtonHandler 7] (initial a_page)))
  /\ returns 1 a_click [] (Thrown (VString "boom"))
             (steps [MakeButtonHandler 7] (initial a_page))
     = Thrown (VString "boom").
Proof.
  destruct (button_handler_falls_back (steps [MakeButtonHandler 7] (initial a_page))
              1 0 a_click [] (Thrown (VString "boom"))) as (H1 & H2 & _).
  - exists a_page. eexists. reflexivity.
  - reflexivity.
  - destruct H2 as [E1 E2].
    + left. exists (VString "boom"). apply H1. reflexivity.
    + split; [exact E1|]. rewrite E2. apply H1. reflexivity.
Defined.

(** ** The lock is released *)

Lemma queues_only_ret {A} (a : A) : queues_only (ret a).
Proof. intros s. split; [reflexivity|]. exists []. now rewrite app_nil_r. Qed.

Lemma queues_only_view {A} (m : R A) : keeps_view m -> queues_only m.
Proof.
  intros H s. specialize (H s). unfold lock_view in H.
  injection H as H1 _ H3 _. split; [exact H1|]. exists []. now rewrite app_nil_r.
Qed.

Lemma queues_only_bind {A B} (m : R A) (f : A -> R B) :
  queues_only m -> (forall a, queues_only (f a)) -> queues_only (bind m f).
Proof.
  intros Hm Hf s. unfold bind. destruct (Hm s) as [H1 [q Hq]].
  destruct (m s) as [a s1]. cbn [snd] in *.
  destruct (Hf a s1) as [H2 [q' Hq']]. split; [congruence|].
  exists (q ++ q'). now rewrite Hq', Hq, app_assoc.
Qed.

Lemma queues_only_settle p x : queues_only (settle p x).
Proof.
  intros s. unfold settle, bind, gets, modify, ret. cbn [fst snd].
  destruct (status s p); fields; split; try reflexivity;
    [exists []; now rewrite app_nil_r|eexists; reflexivity].
Qed.

Lemma queues_only_register p r : queues_only (register p r).
Proof.
  intros s. unfold register, enqueue, bind, gets, modify, ret. cbn [fst snd].
  destruct (status s p) as [x|]; [destruct (reaction_job x r)|]; fields;
    split; try reflexivity;
    try (exists []; now rewrite app_nil_r); eexists; reflexivity.
Qed.

Lemma queues_only_Promise_resolve x : queues_only (Promise_resolve x).
Proof.
  destruct x as [v|p]; cbn [Promise_resolve]; [|apply queues_only_ret].
  apply queues_only_bind; [apply queues_only_view, keeps_view_new_promise|].
  intros n. apply queues_only_bind; [apply queues_only_settle|].
  intros _. apply queues_only_ret.
Qed.

Lemma queues_only_after_debounce b r : queues_only (after_debounce b r).
Proof.
  unfold after_debounce.
  apply queues_only_bind; [apply queues_only_view; unfold has_classList; keeps|].
  intros has.
  apply queues_only_bind; [apply queues_only_view; unfold classList_remove; keeps|].
  intros _.
  apply queues_only_bind; [apply queues_only_view; keeps|]. intros cb.
  apply queues_only_bind; [apply queues_only_Promise_resolve|]. intros p.
  apply queues_only_register.
Qed.

Lemma is_async_handler_alter b k k' s s' :
  closures s' = alter (assign_pending b) k' (closures s) ->
  is_async_handler s k -> is_async_handler s' k.
Proof.
  intros E (fct & pd & sp & b0 & H). unfold is_async_handler. rewrite E.
  destruct (decide (k' = k)) as [->|Hne].
  - rewrite list_lookup_alter_eq, H. cbn. eauto.
  - rewrite list_lookup_alter_ne by exact Hne. eauto.
Qed.

(** One job runs: the handler [k] is unlocked if the job is its
    [_unlock]; otherwise its lock is what it was and the jobs behind
    the first one have moved up. *)
Lemma run_microtask_lock k s :
  let s' := step RunMicrotask s in
  (is_async_handler s k -> is_async_handler s' k)
  /\ match microtasks s with
     | [] => s' = s
     | cb :: q =>
         (exists q', microtasks s' = q ++ q')
         /\ (cb = Unlock k -> pending s' k = false)
         /\ (cb <> Unlock k -> pending s' k = pending s k)
     end.
Proof.
  cbn [step]. unfold run_microtask, bind, gets, modify. cbn [fst snd].
  destruct (microtasks s) as [|cb q] eqn:Hq; [now split|].
  assert (Hother : queues_only (run_callback cb) ->
                   forall s0, closures s0 = closures s -> microtasks s0 = q ->
                   (is_async_handler s k -> is_async_handler (snd (run_callback cb s0)) k)
                   /\ (exists q', microtasks (snd (run_callback cb s0)) = q ++ q')
                   /\ pending (snd (run_callback cb s0)) k = pending s k).
  { intros H s0 Hc Hm. destruct (H s0) as [H1 [q' H2]]. split_and!.
    - unfold is_async_handler. now rewrite H1, Hc.
    - exists q'. now rewrite H2, Hm.
    - unfold pending. now rewrite H1, Hc. }
  destruct cb as [k'|p|b r|b l].
  - cbn [run_callback]. unfold _unlock, modify. fields. split_and!.
    + now apply (is_async_handler_alter false k k' s).
    + exists []. now rewrite app_nil_r.
    + intros [= ->]. erewrite pending_alter by reflexivity.
      rewrite Nat.eqb_refl. now destruct (closures s !! k) as [[]|].
    + intros Hne. erewrite pending_alter by reflexivity.
      destruct (Nat.eqb k' k) eqn:E; [|reflexivity].
      apply Nat.eqb_eq in E. congruence.
  - destruct (Hother (queues_only_settle _ _) (set_microtasks q s) eq_refl eq_refl)
      as (H1 & H2 & H3).
    split_and!; try assumption; [discriminate|auto].
  - destruct (Hother (queues_only_after_debounce _ _) (set_microtasks q s)
                eq_refl eq_refl) as (H1 & H2 & H3).
    split_and!; try assumption; [discriminate|auto].
  - destruct (Hother (queues_only_view _ (keeps_view_restore _ _))
                (set_microtasks q s) eq_refl eq_refl) as (H1 & H2 & H3).
    split_and!; try assumption; [discriminate|auto].
Qed.

Lemma callback_is_unlock (cb : callback) (k : nat) : cb = Unlock k \/ cb <> Unlock k.
Proof.
  destruct cb as [k'|p|b r|b l]; try (right; discriminate).
  destruct (decide (k' = k)) as [->|Hne]; [now left|right; congruence].
Qed.

(** Running [n] jobs runs every job that is among the first [n] of the
    queue now. *)
Lemma drain_unlocks k n s :
  pending s k = false \/ (exists i, i < n /\ microtasks s !! i = Some (Unlock k)) ->
  pending (steps (repeat RunMicrotask n) s) k = false.
Proof.
  revert s. induction n as [|n IH]; intros s H; cbn [repeat steps].
  { destruct H as [H|(i & Hi & _)]; [exact H|lia]. }
  apply IH.
  destruct (run_microtask_lock k s) as [_ Hs]. cbn zeta in Hs.
  destruct (microtasks s) as [|cb q] eqn:Hq.
  - rewrite Hs. destruct H as [H|(i & _ & Hi)]; [now left|discriminate].
  - destruct Hs as ([q' Hq'] & Hu & Ho).
    destruct (callback_is_unlock cb k) as [->|Hne]; [left; now apply Hu|].
    destruct H as [H|(i & Hi & Hl)].
    + left. now rewrite (Ho Hne).
    + destruct i as [|i]; [cbn in Hl; congruence|].
      right. exists i. split; [lia|]. rewrite Hq'.
      cbn in Hl. apply lookup_app_l_Some. exact Hl.
Qed.

Lemma drain_keeps_handler k n s :
  is_async_handler s k -> is_async_handler (steps (repeat RunMicrotask n) s) k.
Proof.
  revert s. induction n as [|n IH]; intros s H; cbn [repeat steps]; [exact H|].
  apply IH. now apply run_microtask_lock.
Qed.

Lemma respects_all l : respects_lock (steps l).
Proof. apply respects_steps, Forall_forall. intros i _. apply respects_step. Qed.

Lemma Inv_steps l s : Inv s -> Inv (steps l s).
Proof. intros H. now apply (respects_all l s H). Qed.

Lemma pending_is_async_handler s k : pending s k = true -> is_async_handler s k.
Proof.
  unfold pending, is_async_handler.
  destruct (closures s !! k) as [[f p q b|f]|]; try discriminate. eauto 6.
Qed.

(** A handler that is not locked applies its user function when it is
    called. *)
Lemma free_handler_applies k s ev body result :
  Inv s -> is_async_handler s k -> pending s k = false ->
  applied k (step (Call k ev body result) s) = S (applied k s).
Proof.
  intros HI (fct & pd & sp & b & Hcl) Hp.
  assert (b = false) as -> by (unfold pending in Hp; now rewrite Hcl in Hp).
  assert (Hrun : respects (user_fct body result)).
  { apply respects_user_fct, respects_all. }
  destruct (async_handler_respects k fct pd sp false (user_fct body result) ev s
              Hrun Hcl HI) as (_ & _ & Hf).
  rewrite step_Call. unfold call, bind, gets; cbn [fst snd]. rewrite Hcl.
  now apply Hf.
Qed.

Lemma finally_on_value cb v s :
  exists q,
    microtasks (snd (Promise_finally (fst (Promise_resolve (Value v) s)) cb
                       (snd (Promise_resolve (Value v) s))))
    = q ++ [cb].
Proof.
  cbn [Promise_resolve]. unfold bind, new_promise, ret.
  match goal with |- context [settle ?p ?x ?s0] =>
    pose proof (settle_status p x s0) as Hst; destruct (settle p x s0) as [u s3]
  end.
  cbn [fst snd] in *.
  unfold Promise_finally, register, enqueue, bind, gets, modify, ret. fields.
  destruct (status s3 _) as [x|]; [|congruence]. cbn [reaction_job]. fields.
  eexists. reflexivity.
Qed.

(** X7. When the user function of a free async handler returns
    something that is not a promise, the handler is locked on return
    and its [_unlock] is the last job of the queue; once the jobs
    queued by then have run the handler is free, and its next call
    applies the user function again. *)
Theorem plain_result_unlocks
        (st : runtime) (k fct : nat) (pd sp : flag)
        (ev : event) (body : list input) (v : JS.value) :
  reachable st ->
  closures st !! k = Some (AsyncHandler fct pd sp false) ->
  let st1 := step (Call k ev body (Returned (Plain v))) st in
  let st2 := steps (repeat RunMicrotask (length (microtasks st1))) st1 in
  pending st1 k = true
  /\ (exists q, microtasks st1 = q ++ [Unlock k])
  /\ pending st2 k = false
  /\ (forall ev' body' result',
        applied k (step (Call k ev' body' result') st2) = S (applied k st2)).
Proof.
  intros Hreach Hcl st1 st2.
  pose proof (Inv_reachable st Hreach) as HI.
  assert (Hrun : respects (user_fct body (Returned (Plain v)))).
  { apply respects_user_fct, respects_all. }
  destruct (async_handler_respects k fct pd sp false
              (user_fct body (Returned (Plain v))) ev st Hrun Hcl HI)
    as ((HI1 & _) & _ & Hf).
  assert (Est : st1 = snd (async_handler k fct pd sp
                             (user_fct body (Returned (Plain v))) ev st)).
  { subst st1. rewrite step_Call. unfold call, bind, gets; cbn [fst snd].
    now rewrite Hcl. }
  rewrite <- Est in HI1, Hf. destruct (Hf eq_refl) as (_ & Hp1 & _).
  assert (Hq : exists q, microtasks st1 = q ++ [Unlock k]).
  { rewrite Est, async_handler_flags. cbn zeta.
    assert (Hpend : pending st k = false) by (unfold pending; now rewrite Hcl).
    rewrite Hpend.
    change (fst (user_fct body (Returned (Plain v)) ?s)) with (Returned (Plain v)).
    cbn iota beta. cbn [snd of_ret]. apply finally_on_value. }
  assert (Hp2 : pending st2 k = false).
  { subst st2. apply drain_unlocks. right. destruct Hq as [q Hq].
    exists (length q). rewrite Hq, length_app. cbn [length].
    split; [lia|]. now apply lookup_snoc_at. }
  split_and!; try assumption.
  intros ev' body' result'. apply free_handler_applies.
  - now apply Inv_steps.
  - apply drain_keeps_handler. now apply pending_is_async_handler.
  - exact Hp2.
Qed.

Lemma plain_result_unlocks_witness :
  let st := steps [MakeAsyncHandler 7 FlagUndefined FlagUndefined] (initial a_page) in
  let st1 := step (Call 0 a_click [] (Returned (Plain (VBoolean false)))) st in
  pending st1 0 = true
  /\ pending (steps (repeat RunMicrotask (length (microtasks st1))) st1) 0 = false.
Proof.
  intros st st1.
  destruct (plain_result_unlocks st 0 7 FlagUndefined FlagUndefined a_click []
              (VBoolean false)) as (H1 & _ & H2 & _).
  - exists a_page. eexists. reflexivity.
  - reflexivity.
  - split; [exact H1|exact H2].
Defined.

Lemma is_unsettled_result_In k p s :
  In (Completed k (Returned (APromise p))) (log s) ->
  status s (UserPromise p) = None ->
  action_pending k s = true.
Proof.
  intros Hin Hs. unfold action_pending. apply orb_true_iff. right.
  apply existsb_exists. exists (Completed k (Returned (APromise p))).
  split; [exact Hin|]. cbn [is_unsettled_result]. now rewrite Nat.eqb_refl, Hs.
Qed.

(** X8. When the user function of a free async handler returns a
    promise, then whatever happens on the page afterwards, the handler
    is locked as long as the promise is pending; settling the promise,
    by fulfilment or by rejection, queues the [_unlock] of the handler;
    once the jobs queued by then have run the handler is free, and its
    next call applies the user function again. *)
Theorem settled_result_unlocks
        (st : runtime) (k fct : nat) (pd sp : flag)
        (ev : event) (body : list input) (p : nat)
        (l : list input) (x : settlement) :
  reachable st ->
  closures st !! k = Some (AsyncHandler fct pd sp false) ->
  let st1 := steps l (step (Call k ev body (Returned (APromise p))) st) in
  status st1 (UserPromise p) = None ->
  let st2 := step (Settle p x) st1 in
  let st3 := steps (repeat RunMicrotask (length (microtasks st2))) st2 in
  pending st1 k = true
  /\ In (Unlock k) (microtasks st2)
  /\ pending st3 k = false
  /\ (forall ev' body' result',
        applied k (step (Call k ev' body' result') st3) = S (applied k st3)).
Proof.
  intros Hreach Hcl st1 Hs st2 st3.
  pose proof (Inv_reachable st Hreach) as HI.
  set (st0 := step (Call k ev body (Returned (APromise p))) st) in *.
  assert (HI0 : Inv st0) by (subst st0; now apply (respects_step _ st HI)).
  assert (HI1 : Inv st1) by (subst st1; now apply Inv_steps).
  assert (Hlog0 : In (Completed k (Returned (APromise p))) (log st0)).
  { subst st0. rewrite step_Call. unfold call, bind, gets; cbn [fst snd].
    rewrite Hcl, async_handler_flags. cbn zeta.
    assert (Hpend : pending st k = false) by (unfold pending; now rewrite Hcl).
    rewrite Hpend.
    change (fst (user_fct body (Returned (APromise p)) ?s))
      with (Returned (APromise p)).
    cbn iota beta. cbn [snd]. unfold Promise_finally.
    rewrite keeps_log_register, keeps_log_Promise_resolve. fields.
    apply in_or_app. right. now left. }
  assert (Hlog1 : In (Completed k (Returned (APromise p))) (log st1)).
  { subst st1. destruct (extends_log_all l st0) as [l' ->].
    apply in_or_app. now left. }
  assert (Hp1 : pending st1 k = true).
  { apply action_pending_locked; [exact HI1|].
    now apply (is_unsettled_result_In k p). }
  assert (Hre : In (UserPromise p, OnSettled (Unlock k)) (reactions st1)).
  { destruct HI1 as (_ & HR & _). now apply HR. }
  assert (Hq : In (Unlock k) (microtasks st2)).
  { subst st2. cbn [step]. now apply settle_queues_unlock. }
  assert (HI2 : Inv st2) by (subst st2; now apply (respects_step _ st1 HI1)).
  assert (Hk2 : is_async_handler st2 k).
  { apply pending_is_async_handler in Hp1. unfold is_async_handler in *.
    subst st2. cbn [step].
    now rewrite (proj1 (queues_only_settle (UserPromise p) x st1)). }
  assert (Hp3 : pending st3 k = false).
  { subst st3. apply drain_unlocks. right.
    apply list_elem_of_In, list_elem_of_lookup_1 in Hq. destruct Hq as [i Hi].
    exists i. split; [|exact Hi]. now apply lookup_lt_Some in Hi. }
  split_and!; try assumption.
  intros ev' body' result'. apply free_handler_applies.
  - now apply Inv_steps.
  - now apply drain_keeps_handler.
  - exact Hp3.
Qed.

Lemma settled_result_unlocks_witness :
  let st := steps [MakeAsyncHandler 7 FlagUndefined FlagUndefined] (initial a_page) in
  let st1 := steps [Elapse 1000]
                   (step (Call 0 a_click [] (Returned (APromise 3))) st) in
  let st2 := step (Settle 3 Rejected) st1 in
  pending st1 0 = true
  /\ pending (steps (repeat RunMicrotask (length (microtasks st2))) st2) 0 = false.
Proof.
  intros st st1 st2.
  destruct (settled_result_unlocks st 0 7 FlagUndefined FlagUndefined a_click []
              3 [Elapse 1000] Rejected) as (H1 & _ & H2 & _).
  - exists a_page. eexists. reflexivity.
  - reflexivity.
  - reflexivity.
  - split; [exact H1|exact H2].
Defined.

(** X9. In every state the page can reach, for every handler: its
    user function is on the stack at most once and at most one
    [_unlock] waits for it, never both; a free handler has neither;
    while an action of it is going on the handler is locked; and a
    promise its user function returned and that is still pending
    carries its [_unlock], the only one there is. *)
Theorem lock_invariant (st : runtime) (k : nat) :
  reachable st ->
  active k st + unlocks k st <= 1
  /\ (pending st k = false -> active k st = 0 /\ unlocks k st = 0)
  /\ (action_pending k st = true -> pending st k = true)
  /\ (forall p,
        In (Completed k (Returned (APromise p))) (log st) ->
        status st (UserPromise p) = None ->
        In (UserPromise p, OnSettled (Unlock k)) (reactions st)
        /\ unlocks k st = 1
        /\ active k st = 0).
Proof.
  intros Hreach. pose proof (Inv_reachable st Hreach) as HI.
  pose proof HI as (HL & HR & HC). specialize (HL k).
  split_and!.
  - destruct (pending st k); cbn in HL; lia.
  - intros Hp. rewrite Hp in HL. cbn in HL. lia.
  - now apply action_pending_locked.
  - intros p Hin Hs. pose proof (HR k p Hin Hs) as Hre.
    split; [exact Hre|].
    assert (1 <= unlocks k st).
    { unfold unlocks.
      pose proof (count_pos (fun pr => is_unlock k (reaction_callback (snd pr)))
                    (reactions st) _ Hre) as Hc.
      cbn [snd reaction_callback is_unlock] in Hc.
      specialize (Hc (Nat.eqb_refl k)). lia. }
    destruct (pending st k); cbn in HL; lia.
Qed.

Lemma lock_invariant_witness :
  active 0 a_busy_page + unlocks 0 a_busy_page <= 1
  /\ In (UserPromise 3, OnSettled (Unlock 0)) (reactions a_busy_page).
Proof.
  destruct (lock_invariant a_busy_page 0) as (H1 & _ & _ & H2).
  - exists a_page. eexists. reflexivity.
  - split; [exact H1|]. apply (H2 3).
    + cbn. auto.
    + reflexivity.
Defined.

(** ** A result that is no promise *)

Lemma grows_dom_ret {A} (a : A) : grows_dom (ret a).
Proof. now intros s. Qed.

Lemma grows_dom_gets {A} (f : runtime -> A) : grows_dom (gets f).
Proof. now intros s. Qed.

Lemma grows_dom_bind {A B} (m : R A) (f : A -> R B) :
  grows_dom m -> (forall a, grows_dom (f a)) -> grows_dom (bind m f).
Proof.
  intros Hm Hf s. unfold bind. specialize (Hm s). destruct (m s) as [a s1].
  cbn [snd] in Hm. specialize (Hf a s1). lia.
Qed.

Lemma grows_dom_when (b : bool) (m : R unit) : grows_dom m -> grows_dom (when b m).
Proof. destruct b; [auto|intros _; apply grows_dom_ret]. Qed.

Lemma grows_dom_alter_element f e : grows_dom (alter_element f e).
Proof. intros s. unfold alter_element, modify. fields. now rewrite length_alter. Qed.

Lemma grows_dom_createElement tag : grows_dom (createElement tag).
Proof. intros s. unfold createElement. fields. rewrite length_app. lia. Qed.

Lemma grows_dom_remove e : grows_dom (remove e).
Proof.
  unfold remove. apply grows_dom_bind; [apply grows_dom_gets|].
  intros [p|]; [|apply grows_dom_ret].
  apply grows_dom_bind; intros; apply grows_dom_alter_element.
Qed.

Ltac grows :=
  repeat first
    [ apply grows_dom_gets | apply grows_dom_ret | apply grows_dom_when
    | apply grows_dom_alter_element | apply grows_dom_remove
    | apply grows_dom_createElement
    | apply grows_dom_bind; [|intros] ].

Lemma grows_dom_restore b l : grows_dom (restore b l).
Proof.
  unfold restore, has_classList, classList_remove, assign_disabled. grows.
Qed.

Lemma grows_dom_addButtonLoadingEffect b : grows_dom (addButtonLoadingEffect b).
Proof.
  unfold addButtonLoadingEffect, has_classList, classList_add, assign_disabled,
    prepend. grows.
Qed.

Lemma grows_dom_after_debounce b r : grows_dom (after_debounce b r).
Proof.
  unfold after_debounce, has_classList, classList_remove.
  apply grows_dom_bind; [grows|]. intros has.
  apply grows_dom_bind; [grows|]. intros _.
  apply grows_dom_bind; [apply grows_dom_addButtonLoadingEffect|]. intros cb.
  apply grows_dom_bind.
  - intros s. now rewrite dom_Promise_resolve.
  - intros p s. unfold Promise_finally. now rewrite dom_register.
Qed.

Lemma grows_dom_run_callback cb : grows_dom (run_callback cb).
Proof.
  destruct cb as [k|p|b r|b l]; cbn [run_callback].
  - now intros s.
  - intros s. now rewrite dom_settle.
  - apply grows_dom_after_debounce.
  - apply grows_dom_restore.
Qed.

Lemma drain_grows_dom n s :
  length (dom s) <= length (dom (steps (repeat RunMicrotask n) s)).
Proof.
  revert s. induction n as [|n IH]; intros s; cbn [repeat steps]; [lia|].
  etransitivity; [|apply IH]. cbn [step].
  unfold run_microtask, bind, gets, modify. cbn [fst snd].
  destruct (microtasks s) as [|cb q]; [reflexivity|].
  apply (grows_dom_run_callback cb (set_microtasks q s)).
Qed.

(** The job at position [n] of the queue is the last of the first
    [n + 1] jobs to run. *)
Lemma drain_at n s cb :
  microtasks s !! n = Some cb ->
  exists s0, steps (repeat RunMicrotask (S n)) s = snd (run_callback cb s0).
Proof.
  revert s. induction n as [|n IH]; intros s H.
  - cbn [repeat steps step]. unfold run_microtask, bind, gets, modify.
    cbn [fst snd]. destruct (microtasks s) as [|c q]; [discriminate|].
    injection H as ->. eauto.
  - change (repeat RunMicrotask (S (S n)))
      with (RunMicrotask :: repeat RunMicrotask (S n)).
    cbn [steps]. apply IH.
    destruct (run_microtask_lock 0 s) as [_ Hs]. cbn zeta in Hs.
    destruct (microtasks s) as [|c q]; [discriminate|].
    destruct Hs as ([q' ->] & _). cbn in H. now apply lookup_app_l_Some.
Qed.

Lemma restore_fixes b l s el :
  dom (snd (restore b l s)) !! b = Some el -> restored el = el.
Proof.
  rewrite restore_any. unfold remove, bind, gets. cbn [fst snd dom set_dom].
  assert (H0 : forall y, alter restored b (dom s) !! b = Some y -> restored y = y).
  { intros y. rewrite list_lookup_alter_eq.
    destruct (dom s !! b) as [w|]; [|discriminate].
    cbn. intros [= <-]. apply restored_idem. }
  destruct (alter restored b (dom s) !! l) as [e|]; [|now apply H0].
  destruct (parentElement e) as [p|]; [|now apply H0].
  unfold alter_element, modify, ret. fields. intros Hx.
  apply (lookup_alter_inv (fun y => restored y = y)) in Hx; [exact Hx| |].
  { intros y. apply restored_set_parentElement. }
  intros y Hy.
  apply (lookup_alter_inv (fun y => restored y = y)) in Hy; [exact Hy| |].
  { intros z. apply restored_set_children. }
  exact H0.
Qed.

(** X12. When the result of the handler is no promise, as for a call
    that was ignored because the handler is locked, the loading effect
    does not outlast the jobs queued by then: the function given to
    [.then] disables the button and queues the restore callback as the
    last job, and once these jobs have run the button is enabled again,
    without the classes of the loading effect. *)
Theorem plain_result_restores_at_once
        (s : runtime) (b : nat) (el : element) (v : JS.value) :
  dom s !! b = Some el ->
  let s1 := snd (run_callback (AfterDebounce b (Plain v)) s) in
  let s2 := steps (repeat RunMicrotask (length (microtasks s1))) s1 in
  (exists el1, dom s1 !! b = Some el1 /\ disabled el1 = Some true)
  /\ (exists q, microtasks s1 = q ++ [Restore b (length (dom s))])
  /\ (exists el2,
        dom s2 !! b = Some el2
        /\ disabled el2 = Some false
        /\ class_mem "o_website_btn_loading" el2 = false
        /\ class_mem "disabled" el2 = false).
Proof.
  intros Hb s1 s2.
  pose proof (lookup_lt_Some _ _ _ Hb) as Hlt.
  destruct (after_debounce_plain s b el v Hb) as [q Hq].
  fold (run_callback (AfterDebounce b (Plain v)) s) in Hq. fold s1 in Hq.
  rewrite app_assoc in Hq.
  assert (Hd1 : length (dom s) <= length (dom s1)).
  { apply (grows_dom_run_callback (AfterDebounce b (Plain v)) s). }
  split_and!.
  - subst s1. cbn [run_callback].
    rewrite (after_debounce_dom s b el (Plain v) Hb).
    rewrite lookup_app_l by now rewrite length_alter.
    rewrite list_lookup_alter_eq, Hb. cbn. eauto.
  - eauto.
  - assert (Hlen : length (microtasks s1) = S (length (microtasks s ++ q))).
    { rewrite Hq, length_app. cbn [length]. lia. }
    destruct (drain_at (length (microtasks s ++ q)) s1 (Restore b (length (dom s))))
      as [s0 Hs0].
    { rewrite Hq. now apply lookup_snoc_at. }
    assert (Hd2 : length (dom s1) <= length (dom s2)) by apply drain_grows_dom.
    destruct (lookup_lt_is_Some_2 (dom s2) b) as [el2 Hel2]; [lia|].
    exists el2. split; [exact Hel2|].
    assert (Hfix : restored el2 = el2).
    { apply (restore_fixes b (length (dom s)) s0). cbn [run_callback] in Hs0.
      rewrite <- Hs0. rewrite <- Hlen. exact Hel2. }
    apply restored_sets in Hfix. destruct Hfix as [Hc Hdis].
    split; [exact Hdis|]. unfold class_mem.
    destruct (classList el2) as [c|]; [|now split].
    cbn [option_map] in Hc. injection Hc as Hc.
    now apply remove_tokens_2_fixed in Hc.
Qed.

Lemma plain_result_restores_at_once_witness :
  let s1 := snd (run_callback (AfterDebounce 0 (Plain VUndefined)) (initial a_page)) in
  let s2 := steps (repeat RunMicrotask (length (microtasks s1))) s1 in
  (exists el1, dom s1 !! 0 = Some el1 /\ disabled el1 = Some true)
  /\ (exists el2, dom s2 !! 0 = Some el2 /\ disabled el2 = Some false).
Proof.
  intros s1 s2.
  destruct (plain_result_restores_at_once (initial a_page) 0 a_button VUndefined)
    as (H1 & _ & el2 & H2 & H3 & _).
  - reflexivity.
  - split; [exact H1|]. exists el2. split; [exact H2|exact H3].
Defined.

End MoreLockFacts.

(* ===================================================================== *)
(** * More of minimal_dom.js: the end of the debounce                     *)
(* ===================================================================== *)

Section MoreDebounceFacts.
Import JS MinimalDomJs MinimalDomSpec.
Local Open Scope list_scope.

Ltac fields :=
  cbn [closures next_promise settlements reactions microtasks timers clock dom
       stack log set_closures set_next_promise set_settlements set_reactions
       set_microtasks set_timers set_clock set_dom set_stack set_log fst snd] in *.

Lemma adds_no_class_dom {A} b (m : R A) :
  (forall s, dom (snd (m s)) = dom s) -> adds_no_class b m.
Proof. intros H s. unfold has_class. now rewrite H. Qed.

Lemma mem_remove_tokens_absent t ts l :
  mem t l = false -> mem t (remove_tokens ts l) = false.
Proof.
  revert l. induction ts as [|u ts IH]; intros l H; cbn [remove_tokens]; [exact H|].
  apply IH. rewrite mem_remove_token, H. apply andb_false_r.
Qed.

Lemma adds_no_class_classList_remove b e ts : adds_no_class b (classList_remove e ts).
Proof.
  apply adds_no_class_alter_element. intros el. unfold class_mem. cbn.
  destruct (classList el) as [l|]; cbn; [|reflexivity].
  apply mem_remove_tokens_absent.
Qed.

Lemma adds_no_class_assign_disabled b e v : adds_no_class b (assign_disabled e v).
Proof. apply adds_no_class_alter_element. now intros el. Qed.

Lemma adds_no_class_restore b e l : adds_no_class b (restore e l).
Proof.
  unfold restore.
  apply adds_no_class_bind; [apply adds_no_class_gets|]. intros has.
  apply adds_no_class_bind;
    [apply adds_no_class_when, adds_no_class_classList_remove|]. intros _.
  apply adds_no_class_bind; [apply adds_no_class_assign_disabled|]. intros _.
  apply adds_no_class_remove.
Qed.

Lemma adds_no_class_after_debounce b e r : adds_no_class b (after_debounce e r).
Proof.
  unfold after_debounce.
  apply adds_no_class_bind; [apply adds_no_class_gets|]. intros has.
  apply adds_no_class_bind;
    [apply adds_no_class_when, adds_no_class_classList_remove|]. intros _.
  apply adds_no_class_bind; [apply adds_no_class_addButtonLoadingEffect|].
  intros cb.
  apply adds_no_class_bind; [apply adds_no_class_dom, dom_Promise_resolve|].
  intros p. apply adds_no_class_dom. intros s. apply dom_register.
Qed.

(** No job gives the class to a button. *)
Lemma adds_no_class_run_callback b cb : adds_no_class b (run_callback cb).
Proof.
  destruct cb as [k|p|e r|e l]; cbn [run_callback].
  - now apply adds_no_class_dom.
  - apply adds_no_class_dom. intros s. apply dom_settle.
  - apply adds_no_class_after_debounce.
  - apply adds_no_class_restore.
Qed.

(** Running [n] jobs ends every debounce of [b] that is among the
    first [n] jobs of the queue. *)
Lemma drain_removes b n s :
  has_class s b "pe-none" = false
  \/ (exists i r, i < n /\ microtasks s !! i = Some (AfterDebounce b r)) ->
  has_class (steps (repeat RunMicrotask n) s) b "pe-none" = false.
Proof.
  revert s. induction n as [|n IH]; intros s H; cbn [repeat steps].
  { destruct H as [H|(i & r & Hi & _)]; [exact H|lia]. }
  apply IH.
  destruct (run_microtask_lock 0 s) as [_ Hs]. cbn zeta in Hs.
  cbn [step] in *. unfold run_microtask, bind, gets, modify in *. cbn [fst snd] in *.
  destruct (microtasks s) as [|cb q] eqn:Hq.
  - destruct H as [H|(i & r & _ & Hi)]; [now left|discriminate].
  - destruct Hs as ([q' Hq'] & _).
    destruct H as [H|(i & r & Hi & Hl)].
    + left. now apply (adds_no_class_run_callback b cb (set_microtasks q s)).
    + destruct i as [|i].
      * cbn in Hl. injection Hl as ->. left. cbn [run_callback].
        apply after_debounce_removes.
      * right. exists i, r. split; [lia|]. rewrite Hq'.
        cbn in Hl. now apply lookup_app_l_Some.
Qed.

(** X16. A handler made by [makeButtonHandler] is called, at any moment
    of the life of the page, the user function returns (or is not
    applied, the handler being locked), and the target of the event is
    inside a button [b], or is one.  Once [DEBOUNCE] ms or more have
    passed and the timer of the call has fired, the timer is gone and
    the function given to [.then] is in the queue; and once the jobs
    queued by then have run, [b] no longer carries the class
    [pe-none]. *)
Theorem debounce_ends
        (st : runtime) (k inner : nat) (ev : event) (body : list input)
        (r : ret_value) (b ms : nat) :
  reachable st ->
  closures st !! k = Some (ButtonHandler inner) ->
  let s1 := snd (call_async inner (user_fct body (Returned r)) ev st) in
  fst (closest_btn ev s1) = Some b ->
  DEBOUNCE <= ms ->
  let st1 := step (Call k ev body (Returned r)) st in
  let st2 := step (FireTimer (length (timers s1))) (step (Elapse ms) st1) in
  let st3 := steps (repeat RunMicrotask (length (microtasks st2))) st2 in
  has_class st1 b "pe-none" = true
  /\ timers st2 = timers s1
  /\ (exists r', In (AfterDebounce b r') (microtasks st2))
  /\ has_class st3 b "pe-none" = false.
Proof.
  intros Hreach Hcl s1 Hb Hms st1 st2 st3.
  pose proof (Inv_reachable st Hreach) as (_ & _ & H3).
  destruct (H3 k inner Hcl) as (fct & b0 & Hin).
  destruct (call_async_returns st inner fct b0 ev body r Hin) as (r' & Hr').
  assert (Hrun : keeps_debounce 0 b (fun s => snd (user_fct body (Returned r) s))).
  { intros s HI. apply (steps_debounce 0 b body); [|exact HI].
    apply Forall_forall. intros i _. apply step_debounce. }
  assert (HI1 : debounce_inv 0 b s1).
  { apply (call_async_debounce 0 b inner _ ev Hrun st).
    now apply debounce_reachable. }
  assert (Hfresh : status s1 (EnginePromise (next_promise s1)) = None).
  { eapply status_fresh; [exact (proj1 HI1)|]. lia. }
  assert (E : call k (user_fct body (Returned r)) ev st = disable_button r' ev s1).
  { unfold call, bind, gets; cbn [fst snd]. rewrite Hcl.
    unfold button_handler, bind. subst s1.
    destruct (call_async inner (user_fct body (Returned r)) ev st) as [o s1].
    cbn [fst snd] in *. now subst o. }
  assert (Est : st1 = snd (disable_button r' ev s1)).
  { subst st1. now rewrite step_Call, E. }
  pose proof (disable_button_eq r' ev s1 b Hb Hfresh) as Eq.
  assert (Hq : In (AfterDebounce b r') (microtasks st2)).
  { subst st2. apply (fire_timer_queues _ (clock s1 + DEBOUNCE) (next_promise s1)).
    - cbn [step]. rewrite Est, Eq. fields. now apply lookup_snoc_at.
    - cbn [step]. rewrite Est, Eq. fields. lia.
    - cbn [step]. rewrite Est, Eq. exact Hfresh.
    - cbn [step]. rewrite Est, Eq. fields. apply in_or_app. right. now left. }
  split_and!.
  - rewrite Est. now apply disable_button_adds.
  - subst st2. cbn [step]. unfold fire_timer, bind, gets, modify. fields.
    rewrite Est, Eq. fields.
    rewrite lookup_snoc_at by reflexivity.
    replace (Nat.leb (clock s1 + DEBOUNCE) (clock s1 + ms)) with true
      by (symmetry; apply Nat.leb_le; lia).
    fields. cbn [run_callback].
    assert (Ht : forall p x s0, timers (snd (settle p x s0)) = timers s0).
    { intros p x s0. unfold settle, bind, gets, modify, ret. cbn [fst snd].
      now destruct (status s0 p). }
    rewrite Ht. fields.
    rewrite delete_middle. apply app_nil_r.
  - eauto.
  - subst st3. apply drain_removes. right.
    apply list_elem_of_In, list_elem_of_lookup_1 in Hq. destruct Hq as [i Hi].
    exists i, r'. split; [|exact Hi]. now apply lookup_lt_Some in Hi.
Qed.

Lemma debounce_ends_witness :
  let st := steps [MakeButtonHandler 7] (initial a_page) in
  let st1 := step (Call 1 a_click [] (Returned (APromise 3))) st in
  let st2 := step (FireTimer 0) (step (Elapse 400) st1) in
  let st3 := steps (repeat RunMicrotask (length (microtasks st2))) st2 in
  has_class st1 0 "pe-none" = true
  /\ has_class st3 0 "pe-none" = false.
Proof.
  intros st st1 st2 st3.
  destruct (debounce_ends st 1 0 a_click [] (APromise 3) 0 400)
    as (H1 & _ & _ & H2).
  - exists a_page. eexists. reflexivity.
  - reflexivity.
  - reflexivity.
  - reflexivity.
  - split; [exact H1|exact H2].
Defined.

End MoreDebounceFacts.

(* ===================================================================== *)
(** * What holds the lock of an async handler                             *)
(* ===================================================================== *)

Section LockCauses.
Import JS MinimalDomJs MinimalDomSpec.
Local Open Scope list_scope.

Ltac fields :=
  cbn [closures next_promise settlements reactions microtasks timers clock dom
       stack log set_closures set_next_promise set_settlements set_reactions
       set_microtasks set_timers set_clock set_dom set_stack set_log fst snd] in *.

Ltac keeps :=
  repeat first
    [ apply keeps_view_gets | apply keeps_view_ret | apply keeps_view_when
    | apply keeps_view_alter_element | apply keeps_view_remove
    | apply keeps_view_createElement | apply keeps_view_new_promise
    | apply keeps_view_addButtonLoadingEffect | apply keeps_view_restore
    | apply keeps_view_bind; [|intros] ].

Lemma cause_same s s' :
  cause_inv s ->
  closures s' = closures s -> stack s' = stack s -> log s' = log s ->
  (forall k, unlocks k s' = unlocks k s) ->
  settled_only s' ->
  cause_inv s'.
Proof.
  intros [HE _] Hc Hs Hl Hu Hso. split; [|exact Hso].
  intros k. unfold pending, active, threw. rewrite Hc, Hs, Hl, Hu. apply HE.
Qed.

Lemma accounts_ret {A} (a : A) : accounts (ret a).
Proof. now intros s. Qed.

Lemma accounts_bind {A B} (m : R A) (f : A -> R B) :
  accounts m -> (forall a, accounts (f a)) -> accounts (bind m f).
Proof.
  intros Hm Hf s H. unfold bind. specialize (Hm s H). destruct (m s) as [a s1].
  now apply Hf.
Qed.

Lemma accounts_view {A} (m : R A) : keeps_view m -> accounts m.
Proof.
  intros H s HC. specialize (H s). unfold lock_view in H.
  injection H as H1 H2 H3 H4 H5 _ H7.
  apply (cause_same s _ HC); auto.
  - intros k. unfold unlocks. now rewrite H3, H4, H5.
  - unfold settled_only. rewrite H4. apply HC.
Qed.

Lemma count_jobs_of_settled k p x re :
  (forall q cb, In (q, OnFulfilled cb) re -> not_unlock cb) ->
  count (is_unlock k) (jobs_of p x re)
  + count (fun pr => is_unlock k (reaction_callback (snd pr))) (reactions_without p re)
  = count (fun pr => is_unlock k (reaction_callback (snd pr))) re.
Proof.
  induction re as [|[q r] re IH]; intros H; [reflexivity|].
  cbn [jobs_of reactions_without count snd].
  assert (IH' := IH (fun q' cb Hin => H q' cb (or_intror Hin))).
  destruct (promise_ref_eqb p q); cbn [count snd]; [|lia].
  destruct r as [cb|cb]; cbn [reaction_job reaction_callback].
  - rewrite (H q cb (or_introl eq_refl) k).
    destruct x; cbn [count]; [rewrite (H q cb (or_introl eq_refl) k)|]; lia.
  - cbn [count]. lia.
Qed.

Lemma accounts_settle p x : accounts (settle p x).
Proof.
  intros s HC. unfold settle, bind, gets, modify, ret. fields.
  destruct (status s p); [exact HC|]. fields.
  apply (cause_same s _ HC); try reflexivity.
  - intros k. unfold unlocks. fields. rewrite count_app.
    pose proof (count_jobs_of_settled k p x (reactions s) (proj2 HC)). lia.
  - intros q cb Hin. fields. apply (proj2 HC q cb).
    now apply In_reactions_without_inv in Hin.
Qed.

Lemma accounts_register p r :
  not_unlock (reaction_callback r) -> accounts (register p r).
Proof.
  intros Hr s HC. unfold register, enqueue, bind, gets, modify, ret. fields.
  destruct (status s p) as [x|]; fields.
  - destruct (reaction_job x r) as [cb|] eqn:E; [|exact HC]. fields.
    assert (cb = reaction_callback r) as ->.
    { destruct r as [c|c]; cbn in *; [destruct x|]; congruence. }
    apply (cause_same s _ HC); try reflexivity; [|apply HC].
    intros k. unfold unlocks. fields. rewrite count_app. cbn [count].
    rewrite (Hr k). lia.
  - apply (cause_same s _ HC); try reflexivity.
    + intros k. unfold unlocks. fields. rewrite count_app. cbn [count snd].
      rewrite (Hr k). lia.
    + intros q cb Hin. fields. apply in_app_or in Hin as [Hin|[Hin|[]]].
      * now apply (proj2 HC q cb).
      * injection Hin as _ ->. exact Hr.
Qed.

Lemma accounts_Promise_resolve x : accounts (Promise_resolve x).
Proof.
  destruct x as [v|p]; cbn [Promise_resolve]; [|apply accounts_ret].
  apply accounts_bind; [apply accounts_view, keeps_view_new_promise|].
  intros n. apply accounts_bind; [apply accounts_settle|].
  intros _. apply accounts_ret.
Qed.

Lemma accounts_setTimeout cb d : not_unlock cb -> accounts (setTimeout cb d).
Proof.
  intros Hcb s HC. unfold setTimeout, modify. fields.
  apply (cause_same s _ HC); try reflexivity; [|apply HC].
  intros k. unfold unlocks. fields. rewrite count_app. cbn [count snd].
  rewrite (Hcb k). lia.
Qed.

Lemma accounts_debounce_delay : accounts debounce_delay.
Proof.
  unfold debounce_delay. destruct (Nat.eqb DEBOUNCE 0); [apply accounts_ret|].
  apply accounts_bind; [apply accounts_view, keeps_view_new_promise|].
  intros n. apply accounts_bind;
    [apply accounts_setTimeout, not_unlock_Resolver|intros; apply accounts_ret].
Qed.

Lemma accounts_disable_button result ev : accounts (disable_button result ev).
Proof.
  unfold disable_button.
  apply accounts_bind; [apply accounts_view; unfold closest_btn; keeps|].
  intros [b|]; [|apply accounts_ret].
  apply accounts_bind; [apply accounts_view; unfold has_classList; keeps|].
  intros has.
  apply accounts_bind; [apply accounts_view; unfold classList_add; keeps|].
  intros _.
  apply accounts_bind; [apply accounts_debounce_delay|]. intros d.
  apply accounts_bind; [apply accounts_Promise_resolve|]. intros p.
  apply accounts_bind;
    [apply accounts_register, not_unlock_AfterDebounce|intros; apply accounts_ret].
Qed.

Lemma accounts_after_debounce b r : accounts (after_debounce b r).
Proof.
  unfold after_debounce.
  apply accounts_bind; [apply accounts_view; unfold has_classList; keeps|].
  intros has.
  apply accounts_bind; [apply accounts_view; unfold classList_remove; keeps|].
  intros _. intros s HC. unfold bind.
  pose proof (accounts_view _ (keeps_view_addButtonLoadingEffect b) s HC) as H1.
  pose proof (addButtonLoadingEffect_returns b s) as Hcb.
  destruct (addButtonLoadingEffect b s) as [cb s1]. cbn [fst snd] in *.
  pose proof (accounts_Promise_resolve (of_ret r) s1 H1) as H2.
  destruct (Promise_resolve (of_ret r) s1) as [p s2]. cbn [snd] in H2.
  now apply (accounts_register p (OnSettled cb)).
Qed.

Lemma accounts_new_closure c :
  match c with AsyncHandler _ _ _ b => b = false | ButtonHandler f => True end ->
  accounts (new_closure c).
Proof.
  intros Hc s HC. unfold new_closure. fields.
  set (s' := set_closures (closures s ++ [c]) s).
  assert (Hp : forall k, pending s' k = pending s k).
  { intros k. unfold pending. subst s'; fields.
    destruct (Nat.lt_trichotomy k (length (closures s))) as [Hlt|[->|Hgt]].
    - now rewrite lookup_app_l.
    - rewrite list_lookup_middle by reflexivity.
      rewrite (lookup_ge_None_2 (closures s)) by lia.
      destruct c; [now subst|reflexivity].
    - rewrite !lookup_ge_None_2; [reflexivity|lia|].
      rewrite length_app. cbn. lia. }
  split; [|apply HC]. intros k. rewrite Hp. apply HC.
Qed.

(** A job or a timer callback, taken from where it waited, runs. *)
Lemma accounts_taken cb s s0 :
  cause_inv s ->
  closures s0 = closures s -> stack s0 = stack s -> reactions s0 = reactions s ->
  log s0 = log s ->
  (forall k, unlocks k s0 + (if is_unlock k cb then 1 else 0) = unlocks k s) ->
  cause_inv (snd (run_callback cb s0)).
Proof.
  intros HC Hc Hs Hr Hl Hu.
  assert (Hnot : not_unlock cb -> cause_inv s0).
  { intros Hcb. apply (cause_same s _ HC); auto.
    - intros k. specialize (Hu k). rewrite (Hcb k) in Hu. lia.
    - unfold settled_only. rewrite Hr. apply HC. }
  destruct cb as [k0|n|b result|b l]; cbn [run_callback].
  - unfold _unlock, modify; fields.
    set (s' := set_closures (alter (assign_pending false) k0 (closures s0)) s0).
    assert (Hp' : forall k, pending s' k
                            = if Nat.eqb k0 k then false else pending s k).
    { intros k. rewrite (pending_alter false k0 k s0 s') by reflexivity.
      unfold pending. rewrite Hc.
      destruct (Nat.eqb k0 k); [|reflexivity]. now destruct (closures s !! k0) as [[]|]. }
    split.
    + intros k. rewrite Hp'. destruct HC as [HE _]. specialize (HE k).
      specialize (Hu k). cbn [is_unlock] in Hu.
      change (unlocks k s') with (unlocks k s0).
      unfold active, threw in *. subst s'; fields. rewrite Hs, Hl.
      rewrite (Nat.eqb_sym k0 k).
      destruct (Nat.eqb k k0); cbn [Nat.b2n].
      * destruct (pending s k), (existsb (is_thrown k) (log s));
          cbn [Nat.b2n] in *; lia.
      * lia.
    + unfold settled_only. subst s'; fields. rewrite Hr. apply HC.
  - apply accounts_settle, Hnot, not_unlock_Resolver.
  - apply accounts_after_debounce, Hnot, not_unlock_AfterDebounce.
  - apply (accounts_view _ (keeps_view_restore b l)), Hnot, not_unlock_Restore.
Qed.

Lemma accounts_run_microtask : accounts run_microtask.
Proof.
  intros s HC. unfold run_microtask, bind, gets, modify; fields.
  destruct (microtasks s) as [|cb q] eqn:E; [exact HC|].
  fields. apply (accounts_taken cb s); auto.
  intros k. unfold unlocks; fields. rewrite E. cbn [count]. lia.
Qed.

Lemma accounts_fire_timer i : accounts (fire_timer i).
Proof.
  intros s HC. unfold fire_timer, bind, gets, modify; fields.
  destruct (timers s !! i) as [[due cb]|] eqn:E; [|exact HC].
  destruct (Nat.leb due (clock s)); [|exact HC].
  fields. apply (accounts_taken cb s); auto.
  intros k. unfold unlocks; fields.
  pose proof (count_delete (fun t : nat * callback => is_unlock k (snd t))
                           (timers s) i (due, cb) E) as Hd.
  cbn [snd] in Hd. lia.
Qed.

Lemma threw_app k s l :
  existsb (is_thrown k) (log s ++ l) = threw k s || existsb (is_thrown k) l.
Proof. unfold threw. apply existsb_app. Qed.

Lemma flag_effects_not_thrown k pd sp ev st :
  existsb (is_thrown k) (flag_effects pd sp ev st) = false.
Proof.
  unfold flag_effects.
  now destruct (fst (flag_holds pd st)), (fst (flag_holds sp st)).
Qed.

Lemma unlocks_finally k k' p s :
  let s' := snd (Promise_finally p (Unlock k) s) in
  closures s' = closures s /\ stack s' = stack s /\ log s' = log s
  /\ unlocks k' s' = unlocks k' s + (if Nat.eqb k' k then 1 else 0)
  /\ (settled_only s -> settled_only s').
Proof.
  unfold Promise_finally, register, enqueue, bind, gets, modify, ret. fields.
  destruct (status s p) as [x|]; cbn [reaction_job]; fields;
    split_and!; try reflexivity.
  - unfold unlocks. fields. rewrite count_app. cbn [count is_unlock]. lia.
  - auto.
  - unfold unlocks. fields. rewrite count_app.
    cbn [count is_unlock snd reaction_callback]. lia.
  - intros H q cb Hin. fields. apply in_app_or in Hin as [Hin|[Hin|[]]];
      [now apply (H q cb)|discriminate].
Qed.

Lemma unlocks_settle p x s :
  settled_only s ->
  let s' := snd (settle p x s) in
  closures s' = closures s /\ stack s' = stack s /\ log s' = log s
  /\ (forall k, unlocks k s' = unlocks k s) /\ settled_only s'.
Proof.
  intros HS. unfold settle, bind, gets, modify, ret. fields.
  destruct (status s p); fields; split_and!; try reflexivity; try exact HS.
  - intros k. unfold unlocks. fields. rewrite count_app.
    pose proof (count_jobs_of_settled k p x (reactions s) HS). lia.
  - intros q cb Hin. fields. apply (HS q cb).
    now apply In_reactions_without_inv in Hin.
Qed.

Lemma unlocks_Promise_resolve x s :
  settled_only s ->
  let s' := snd (Promise_resolve x s) in
  closures s' = closures s /\ stack s' = stack s /\ log s' = log s
  /\ (forall k, unlocks k s' = unlocks k s) /\ settled_only s'.
Proof.
  intros HS. destruct x as [v|q]; cbn [Promise_resolve].
  - unfold bind, new_promise, ret. cbn [fst snd].
    match goal with |- context [settle ?p ?x ?s0] =>
      pose proof (unlocks_settle p x s0 HS) as Hx; destruct (settle p x s0)
    end.
    exact Hx.
  - cbn [ret snd]. split_and!; try reflexivity. exact HS.
Qed.

Lemma async_handler_accounts k fct pd sp b run ev st :
  respects run ->
  accounts_lock (fun s => snd (run s)) ->
  closures st !! k = Some (AsyncHandler fct pd sp b) ->
  Inv st -> cause_inv st ->
  cause_inv (snd (async_handler k fct pd sp run ev st)).
Proof.
  intros Hrun Hacc Hcl HI HC.
  rewrite async_handler_flags. cbn zeta.
  assert (Hpend : pending st k = b) by (unfold pending; now rewrite Hcl).
  rewrite Hpend. destruct b; cbn [snd].
  { destruct HC as [HE HS]. split; [|exact HS].
    intros k'. specialize (HE k'). unfold pending, active, unlocks, threw in *.
    fields. rewrite existsb_app, flag_effects_not_thrown, orb_false_r. exact HE. }
  set (es := flag_effects pd sp ev st).
  set (s2 := set_stack (k :: stack st)
               (set_log (log st ++ es ++ [Applied k fct (ev_id ev)])
                  (set_closures (alter (assign_pending true) k (closures st)) st))).
  pose proof HI as (H1 & H2 & H3). pose proof HC as (HE & HS).
  assert (Hk0 : active k st = 0 /\ unlocks k st = 0 /\ threw k st = false).
  { specialize (HE k). rewrite Hpend in HE. cbn in HE.
    destruct (threw k st); cbn in HE; split_and!; try reflexivity; lia. }
  destruct Hk0 as (Hka & Hku & Hkt).
  assert (Hp2 : forall k', pending s2 k' = if Nat.eqb k k' then true else pending st k').
  { intros k'. rewrite (pending_alter true k k' st s2) by reflexivity. now rewrite Hcl. }
  assert (Hes : forallb inert es = true).
  { subst es. unfold flag_effects.
    now destruct (fst (flag_holds pd st)), (fst (flag_holds sp st)). }
  assert (HI2 : Inv s2).
  { split; [|split].
    - intros k'. rewrite Hp2. specialize (H1 k').
      unfold active, unlocks in *; subst s2; fields. cbn [count].
      rewrite (Nat.eqb_sym k' k).
      destruct (Nat.eqb_spec k k') as [<-|Hne]; cbn [Nat.b2n].
      + unfold active, unlocks in Hka, Hku. lia.
      + lia.
    - intros k' q Hin Hst. subst s2; fields. apply H2; [|exact Hst].
      apply in_app_or in Hin as [Hin|Hin]; [exact Hin|].
      apply in_app_or in Hin as [Hin|[Hin|[]]]; [|discriminate].
      now apply (In_inert _ _ Hes) in Hin.
    - now apply (closures_inv_alter true k st s2). }
  assert (Ht2 : forall k', threw k' s2 = threw k' st).
  { intros k'. unfold threw. subst s2; fields.
    rewrite !existsb_app. subst es. rewrite flag_effects_not_thrown. cbn.
    now rewrite !orb_false_r. }
  assert (HC2 : cause_inv s2).
  { split; [|exact HS]. intros k'. rewrite Hp2, Ht2. specialize (HE k').
    unfold active, unlocks in *; subst s2; fields. cbn [count].
    rewrite (Nat.eqb_sym k' k).
    destruct (Nat.eqb_spec k k') as [<-|Hne]; cbn [Nat.b2n].
    + unfold active, unlocks in Hka, Hku. rewrite Hkt. cbn. lia.
    + lia. }
  destruct (Hrun s2 HI2) as (HI3 & Hst3 & HQ3). cbn beta in *.
  pose proof (Hacc s2 HI2 HC2) as HC3. cbn beta in HC3.
  destruct (run s2) as [o s3]. cbn [fst snd] in *.
  destruct (HQ3 k) as (Hp3 & Hu3 & _).
  { rewrite Hp2. now rewrite Nat.eqb_refl. }
  { exact Hku. }
  destruct HC3 as (HE3 & HS3).
  assert (Ha3 : forall k', active k' s3 = (if Nat.eqb k' k then 1 else 0) + active k' st).
  { intros k'. unfold active. rewrite Hst3. subst s2; fields. cbn [count]. reflexivity. }
  assert (Ht3 : threw k s3 = false).
  { specialize (HE3 k). rewrite Hp3, Hu3, Ha3, Nat.eqb_refl, Hka in HE3.
    destruct (threw k s3); [cbn in HE3; lia|reflexivity]. }
  set (s4 := set_log (log s3 ++ [Completed k o]) (set_stack (tl (stack s3)) s3)).
  assert (Ha4 : forall k', active k' s4 = active k' st).
  { intros k'. unfold active. subst s4 s2; fields. now rewrite Hst3. }
  assert (Ht4 : forall k', threw k' s4
                           = threw k' s3 || is_thrown k' (Completed k o)).
  { intros k'. unfold threw. subst s4; fields. rewrite existsb_app. cbn.
    now rewrite orb_false_r. }
  assert (HE4 : forall k', k' <> k ->
             Nat.b2n (pending s4 k') = active k' s4 + unlocks k' s4 + Nat.b2n (threw k' s4)).
  { intros k' Hne. rewrite Ht4, Ha4. specialize (HE3 k'). rewrite Ha3 in HE3.
    destruct (Nat.eqb_spec k' k) as [?|_]; [contradiction|].
    replace (is_thrown k' (Completed k o)) with false.
    2:{ destruct o as [v|e]; [reflexivity|]. cbn. symmetry. now apply Nat.eqb_neq. }
    rewrite orb_false_r. exact HE3. }
  destruct o as [v|e]; cbn iota beta.
  - (* the user function returned *)
    pose proof (unlocks_Promise_resolve (of_ret v) s4 HS3) as H5.
    cbn zeta in H5.
    destruct (Promise_resolve (of_ret v) s4) as [p s5]. cbn [fst snd] in *.
    destruct H5 as (Hc5 & Hs5 & Hl5 & Hu5 & HS5).
    split; [|now apply (unlocks_finally k k p s5)].
    intros k'.
    destruct (unlocks_finally k k' p s5) as (Hc6 & Hs6 & Hl6 & Hu6 & _).
    cbn zeta in Hc6, Hs6, Hl6, Hu6.
    set (s6 := snd (Promise_finally p (Unlock k) s5)) in *.
    assert (Ep : pending s6 k' = pending s4 k')
      by (unfold pending; now rewrite Hc6, Hc5).
    assert (Ea : active k' s6 = active k' s4)
      by (unfold active; now rewrite Hs6, Hs5).
    assert (Et : threw k' s6 = threw k' s4)
      by (unfold threw; now rewrite Hl6, Hl5).
    rewrite Ep, Ea, Et, Hu6, Hu5.
    destruct (Nat.eqb_spec k' k) as [->|Hne].
    + rewrite Ht4, Ha4, Ht3, Hka. cbn [is_thrown orb Nat.b2n].
      change (pending s4 k) with (pending s3 k). rewrite Hp3.
      change (unlocks k s4) with (unlocks k s3). rewrite Hu3. reflexivity.
    + specialize (HE4 k' Hne). lia.
  - (* the user function threw *)
    cbn [snd]. split; [|exact HS3].
    intros k'. destruct (Nat.eqb_spec k' k) as [->|Hne]; [|now apply HE4].
    rewrite Ht4, Ha4. cbn [is_thrown]. rewrite Nat.eqb_refl, orb_true_r.
    change (pending s4 k) with (pending s3 k). rewrite Hp3.
    change (unlocks k s4) with (unlocks k s3). rewrite Hu3, Hka. reflexivity.
Qed.

Lemma accounts_lock_of {A} (m : R A) :
  accounts m -> accounts_lock (fun s => snd (m s)).
Proof. intros H s _. apply H. Qed.

Lemma call_async_accounts k run ev :
  respects run ->
  accounts_lock (fun s => snd (run s)) ->
  accounts_lock (fun s => snd (call_async k run ev s)).
Proof.
  intros Hrun Hacc st HI HC. unfold call_async, bind, gets. cbn [fst snd].
  destruct (closures st !! k) as [[fct pd sp b|f]|] eqn:E; try exact HC.
  now apply (async_handler_accounts k fct pd sp b).
Qed.

Lemma call_accounts k run ev :
  respects run ->
  accounts_lock (fun s => snd (run s)) ->
  accounts_lock (fun s => snd (call k run ev s)).
Proof.
  intros Hrun Hacc st HI HC. unfold call, bind, gets. cbn [fst snd].
  destruct (closures st !! k) as [[fct pd sp b|f]|] eqn:E; try exact HC.
  - now apply (async_handler_accounts k fct pd sp b).
  - unfold button_handler, bind.
    pose proof (call_async_accounts f run ev Hrun Hacc st HI HC) as H1.
    cbn beta in H1.
    destruct (call_async f run ev st) as [[v|e] s1]; cbn [snd] in H1;
      [|exact H1].
    now apply accounts_disable_button.
Qed.

Lemma accounts_steps l :
  Forall (fun i => accounts_lock (step i)) l -> accounts_lock (steps l).
Proof.
  induction 1 as [|i l Hi _ IH]; intros s HI HC; cbn [steps]; [exact HC|].
  apply IH; [now apply (respects_step i s HI)|now apply Hi].
Qed.

Lemma accounts_step i : accounts_lock (step i).
Proof.
  induction i as [fct pd sp|fct|k ev body result IH|p x| |ms|i]
    using input_nested_ind.
  - apply (accounts_lock_of (makeAsyncHandler fct pd sp)).
    now apply accounts_new_closure.
  - apply (accounts_lock_of (makeButtonHandler fct)).
    unfold makeButtonHandler.
    apply accounts_bind; [now apply accounts_new_closure|].
    intros n. now apply accounts_new_closure.
  - intros s. rewrite step_Call.
    apply (call_accounts k (user_fct body result) ev).
    + apply respects_user_fct, respects_all.
    + unfold user_fct. cbn [snd]. now apply accounts_steps.
  - apply (accounts_lock_of (settle (UserPromise p) x)), accounts_settle.
  - apply (accounts_lock_of run_microtask), accounts_run_microtask.
  - intros s _ HC. cbn [step].
    apply (cause_same s _ HC); try reflexivity. apply HC.
  - apply (accounts_lock_of (fire_timer i)), accounts_fire_timer.
Qed.

Lemma cause_initial d : cause_inv (initial d).
Proof. split; [intros k; now destruct k|intros p cb []]. Qed.

Lemma cause_reachable st : reachable st -> Inv st /\ cause_inv st.
Proof.
  intros (d & l & ->). split.
  - apply respects_all, Inv_initial.
  - apply accounts_steps; [|apply Inv_initial|apply cause_initial].
    apply Forall_forall. intros i _. apply accounts_step.
Qed.

Lemma action_pending_under_way k st :
  Inv st -> action_pending k st = true -> under_way k st = true.
Proof.
  intros (H1 & H2 & H3) H. unfold under_way.
  apply negb_true_iff, Nat.eqb_neq.
  unfold action_pending in H. apply orb_true_iff in H as [H|H].
  - apply existsb_exists in H as (k' & Hin & Hk). apply Nat.eqb_eq in Hk. subst k'.
    pose proof (count_pos (Nat.eqb k) (stack st) k Hin (Nat.eqb_refl k)).
    unfold active. lia.
  - apply existsb_exists in H as (e & Hin & He).
    destruct e as [| | |k' [[v|p]|e]]; try discriminate. cbn in He.
    apply andb_true_iff in He as [Hk Hs]. apply Nat.eqb_eq in Hk. subst k'.
    destruct (status st (UserPromise p)) eqn:E; [discriminate|].
    pose proof (H2 k p Hin E) as Hr.
    pose proof (count_pos (fun pr => is_unlock k (reaction_callback (snd pr)))
                  (reactions st) _ Hr) as Hc.
    cbn [snd reaction_callback is_unlock] in Hc.
    specialize (Hc (Nat.eqb_refl k)). unfold unlocks. lia.
Qed.

(** C1, amended. A handler made by [makeAsyncHandler], at any moment of
    the life of the page.  While an action of it is going on, its user
    function on the stack or the promise it returned not settled,
    something of a call is under way; while something of a call is
    under way, the user function running or the [_unlock] put on its
    result not run yet, a call of the handler does not apply the user
    function and returns undefined; when nothing of a call is under way
    and the user function has not thrown, a call applies the user
    function exactly once, whatever the function does meanwhile, and
    returns what it returned; and the user function is never on the
    stack twice. *)
Theorem async_handler_guard
        (st : runtime) (k fct : nat) (pd sp : flag) (b : bool)
        (ev : event) (body : list input) (result : outcome) :
  reachable st ->
  closures st !! k = Some (AsyncHandler fct pd sp b) ->
  let st' := step (Call k ev body result) st in
  (action_pending k st = true -> under_way k st = true)
  /\ (under_way k st = true ->
      applied k st' = applied k st
      /\ returns k ev body result st = Returned (Plain VUndefined))
  /\ (under_way k st = false -> threw k st = false ->
      applied k st' = S (applied k st)
      /\ returns k ev body result st = result)
  /\ active k st <= 1.
Proof.
  intros Hreach Hcl st'.
  destruct (cause_reachable st Hreach) as [HI [HE _]].
  assert (Hpend : pending st k = b) by (unfold pending; now rewrite Hcl).
  assert (Hrun : respects (user_fct body result)).
  { apply respects_user_fct, respects_all. }
  destruct (async_handler_respects k fct pd sp b (user_fct body result) ev st
              Hrun Hcl HI) as (_ & Ht & Hf).
  assert (Est : st' = snd (async_handler k fct pd sp (user_fct body result) ev st)).
  { subst st'. rewrite step_Call. unfold call, bind, gets; cbn [fst snd].
    now rewrite Hcl. }
  assert (Eret : returns k ev body result st
                 = fst (async_handler k fct pd sp (user_fct body result) ev st)).
  { unfold returns, call, bind, gets; cbn [fst snd]. now rewrite Hcl. }
  specialize (HE k). rewrite Hpend in HE.
  pose proof (proj1 HI k) as HL. rewrite Hpend in HL.
  split_and!.
  - now apply action_pending_under_way.
  - intros Hu. unfold under_way in Hu.
    apply negb_true_iff, Nat.eqb_neq in Hu.
    assert (b = true) as -> by (destruct b; [reflexivity|cbn in HL; lia]).
    rewrite Est, Eret. now apply Ht.
  - intros Hu Hth. unfold under_way in Hu.
    apply negb_false_iff, Nat.eqb_eq in Hu.
    assert (b = false) as ->.
    { rewrite Hu, Hth in HE. destruct b; [discriminate|reflexivity]. }
    rewrite Est, Eret. split; [now apply Hf|].
    apply async_handler_result. exact Hpend.
  - destruct b; cbn in HL; lia.
Qed.

Lemma async_handler_guard_witness :
  (applied 0 (step (Call 0 a_click [] (Returned (Plain VNull))) a_free_page)
   = S (applied 0 a_free_page)
   /\ returns 0 a_click [] (Returned (Plain VNull)) a_free_page
      = Returned (Plain VNull))
  /\ (applied 0 (step (Call 0 a_click [] (Returned (Plain VNull))) a_busy_page)
      = applied 0 a_busy_page
      /\ returns 0 a_click [] (Returned (Plain VNull)) a_busy_page
         = Returned (Plain VUndefined)).
Proof.
  split.
  - destruct (async_handler_guard a_free_page 0 7 (FlagBool true) FlagUndefined
                false a_click [] (Returned (Plain VNull))) as (_ & _ & H & _).
    + exists a_page. eexists. reflexivity.
    + reflexivity.
    + apply H; reflexivity.
  - destruct (async_handler_guard a_busy_page 0 7 (FlagBool true) FlagUndefined
                true a_click [] (Returned (Plain VNull))) as (_ & H & _).
    + exists a_page. eexists. reflexivity.
    + reflexivity.
    + apply H. reflexivity.
Defined.

(** C1, as stated, fails: the lock outlasts the action.  When the user
    function has returned a value that is no promise, nothing of the
    action is left, yet until the job queue has run a call is ignored;
    and when the user function has thrown, every later call is. *)
Lemma lock_outlasts_the_action :
  (action_pending 0 a_done_page = false
   /\ applied 0 (step (Call 0 a_click [] (Returned (Plain VNull))) a_done_page)
      = applied 0 a_done_page
   /\ returns 0 a_click [] (Returned (Plain VNull)) a_done_page
      = Returned (Plain VUndefined))
  /\ (action_pending 0 a_stuck_page = false
      /\ applied 0 (step (Call 0 a_click [] (Returned (Plain VNull))) a_stuck_page)
         = applied 0 a_stuck_page
      /\ returns 0 a_click [] (Returned (Plain VNull)) a_stuck_page
         = Returned (Plain VUndefined)).
Proof. repeat split. Qed.

End LockCauses.
